(* ===================================================================== *)
(* Lead-Generation-Tool: the job tracker behind the two Flask wrappers    *)
(*   src/google_map_flask_api.py            (module GMaps below)          *)
(*   src/New folder/flask_backend_api.py    (module Leads below)          *)
(* and the CSV export they share (Python's csv.DictWriter, excel dialect).*)
(* ===================================================================== *)

From Stdlib Require Import ZArith Ascii String List Bool Lia.
From stdpp Require Import base option list gmap strings fin_maps pretty.

Open Scope string_scope.
Open Scope list_scope.
Open Scope Z_scope.

(* string concatenation computes under simpl, as list append does *)
Arguments String.append !_ _ / : simpl nomatch.

(* --------------------------------------------------------------------- *)
(* Text.  A Python str is modelled by the string of its UTF-8 bytes, so    *)
(* that .encode('utf-8') is the identity.  The characters the code tests   *)
(* for (comma, quote, CR, LF, blank, underscore) are ASCII, and no byte of *)
(* a multi-byte UTF-8 sequence is ASCII.  Blanks and digits are the ASCII  *)
(* ones; the other Unicode blanks and decimal digits that str.strip and    *)
(* int also accept are left out.                                           *)
(* --------------------------------------------------------------------- *)

Module Text.

Definition comma : ascii := ","%char.
Definition dquote : ascii := "034"%char.
Definition CR : ascii := "013"%char.
Definition LF : ascii := "010"%char.

(* one-character string *)
Definition chr (c : ascii) : string := String c EmptyString.

(* s + c, used by the accumulators of the reader *)
Definition snoc (s : string) (c : ascii) : string := s +:+ chr c.

(* Python's str.isspace on ASCII: TAB LF VT FF CR, FS GS RS US, SPACE *)
Definition isspace (c : ascii) : bool :=
  let n := nat_of_ascii c in
  ((9 <=? n) && (n <=? 13) || (28 <=? n) && (n <=? 32))%nat.

Fixpoint lstrip (s : string) : string :=
  match s with
  | EmptyString => EmptyString
  | String c s' => if isspace c then lstrip s' else s
  end.

(* rstrip, right to left: drop the character when everything after it
   has been dropped and it is a blank itself *)
Fixpoint rstrip (s : string) : string :=
  match s with
  | EmptyString => EmptyString
  | String c s' =>
      match rstrip s' with
      | EmptyString => if isspace c then EmptyString else chr c
      | t => String c t
      end
  end.

(* str.strip() *)
Definition strip (s : string) : string := rstrip (lstrip s).

(* str.replace(old, new) for a one-character old *)
Fixpoint replace (old : ascii) (new : string) (s : string) : string :=
  match s with
  | EmptyString => EmptyString
  | String c s' =>
      (if Ascii.eqb c old then new else chr c) +:+ replace old new s'
  end.

(* truth value of a str: non-empty *)
Definition nonempty (s : string) : bool :=
  match s with EmptyString => false | String _ _ => true end.

End Text.

(* --------------------------------------------------------------------- *)
(* Python's csv module, as the two download handlers use it:               *)
(* csv.DictWriter(output, fieldnames) with the default excel dialect       *)
(* (delimiter ',', quotechar the double quote, doublequote on,             *)
(* QUOTE_MINIMAL, lineterminator CR LF, extrasaction 'raise', restval ''). *)
(* --------------------------------------------------------------------- *)

Module Csv.
Import Text.

Definition lineterminator : string := String CR (String LF EmptyString).

(* the characters that make the writer quote a field *)
Definition special (c : ascii) : bool :=
  Ascii.eqb c comma || Ascii.eqb c dquote || Ascii.eqb c CR || Ascii.eqb c LF.

(* first pass of join_append_data: does the field need quotes *)
Fixpoint field_quoted (s : string) : bool :=
  match s with
  | EmptyString => false
  | String c s' => special c || field_quoted s'
  end.

(* second pass: copy the data, doubling every quote character *)
Fixpoint field_data (s : string) : string :=
  match s with
  | EmptyString => EmptyString
  | String c s' =>
      if Ascii.eqb c dquote
      then String dquote (String dquote (field_data s'))
      else String c (field_data s')
  end.

Definition join_append (field : string) : string :=
  if field_quoted field
  then String dquote (field_data field +:+ chr dquote)
  else field_data field.

(* the fields after the first one, each preceded by the delimiter *)
Fixpoint join_rest (fs : list string) : string :=
  match fs with
  | [] => EmptyString
  | f :: fs' => String comma (join_append f +:+ join_rest fs')
  end.

Definition join_fields (fs : list string) : string :=
  match fs with
  | [] => EmptyString
  | f :: fs' => join_append f +:+ join_rest fs'
  end.

(* writer.writerow: a record made of one empty field is written as a
   pair of quotes, so that it is not read back as a blank line *)
Definition writerow (fs : list string) : string :=
  let rec := join_fields fs in
  (if (0 <? Z.of_nat (List.length fs)) && negb (nonempty rec)
   then String dquote (chr dquote)
   else rec) +:+ lineterminator.

Fixpoint writerows (rows : list (list string)) : string :=
  match rows with
  | [] => EmptyString
  | r :: rows' => writerow r +:+ writerows rows'
  end.

(* DictWriter._dict_to_list: with extrasaction = 'raise' a key of the row
   that is no field name is a ValueError (None here); a field name the
   row lacks is written as restval = '' *)
Definition dict_to_list (fieldnames : list string)
           (rowdict : gmap string string) : option (list string) :=
  if forallb (fun k => bool_decide (k ∈ fieldnames))
             (map fst (map_to_list rowdict))
  then Some (map (fun k => default EmptyString (rowdict !! k)) fieldnames)
  else None.

(* The reader of the same dialect (csv.reader, not strict), run over the
   whole text; a record ends at CR LF, CR or LF outside quotes. *)
Inductive rstate :=
| START_RECORD | START_FIELD | IN_FIELD
| IN_QUOTED_FIELD | QUOTE_IN_QUOTED_FIELD | AFTER_CR.

Definition is_eol (c : ascii) : bool := Ascii.eqb c CR || Ascii.eqb c LF.

Definition after_eol (c : ascii) : rstate :=
  if Ascii.eqb c CR then AFTER_CR else START_RECORD.

(* [fld] is the field read so far, [row] the fields saved so far *)
Fixpoint feed (st : rstate) (fld : string) (row : list string)
         (input : string) : list (list string) :=
  match input with
  | EmptyString =>
      match st with
      | START_RECORD | AFTER_CR => []
      | _ => [row ++ [fld]]
      end
  | String c rest =>
      match st with
      | START_RECORD | AFTER_CR | START_FIELD =>
          if match st with AFTER_CR => Ascii.eqb c LF | _ => false end
          then feed START_RECORD EmptyString [] rest
          else if is_eol c then
            match st with
            | START_FIELD => (row ++ [fld]) :: feed (after_eol c) EmptyString [] rest
            | _ => [] :: feed (after_eol c) EmptyString [] rest
            end
          else if Ascii.eqb c dquote then feed IN_QUOTED_FIELD fld row rest
          else if Ascii.eqb c comma then feed START_FIELD EmptyString (row ++ [fld]) rest
          else feed IN_FIELD (snoc fld c) row rest
      | IN_FIELD =>
          if is_eol c then (row ++ [fld]) :: feed (after_eol c) EmptyString [] rest
          else if Ascii.eqb c comma then feed START_FIELD EmptyString (row ++ [fld]) rest
          else feed IN_FIELD (snoc fld c) row rest
      | IN_QUOTED_FIELD =>
          if Ascii.eqb c dquote then feed QUOTE_IN_QUOTED_FIELD fld row rest
          else feed IN_QUOTED_FIELD (snoc fld c) row rest
      | QUOTE_IN_QUOTED_FIELD =>
          if Ascii.eqb c dquote then feed IN_QUOTED_FIELD (snoc fld c) row rest
          else if Ascii.eqb c comma then feed START_FIELD EmptyString (row ++ [fld]) rest
          else if is_eol c then (row ++ [fld]) :: feed (after_eol c) EmptyString [] rest
          else feed IN_FIELD (snoc fld c) row rest
      end
  end.

Definition reader (text : string) : list (list string) :=
  feed START_RECORD EmptyString [] text.


End Csv.

(* --------------------------------------------------------------------- *)
(* The Python values the handlers see.                                     *)
(* --------------------------------------------------------------------- *)

Module Py.
Import Text.

(* a value of request.get_json(); JSON numbers are kept to integers *)
#[warnings="-register-all"] Inductive json :=
| JNull
| JBool (b : bool)
| JInt (z : Z)
| JStr (s : string)
| JArr (items : list json)
| JObj (members : list (string * json)).

(* bool(v), the test of "if not v" *)
Definition truthy (v : json) : bool :=
  match v with
  | JNull => false
  | JBool b => b
  | JInt z => negb (z =? 0)
  | JStr s => nonempty s
  | JArr l => match l with [] => false | _ => true end
  | JObj l => match l with [] => false | _ => true end
  end.

(* what escapes the "Validate input" block of a submit handler *)
Inductive conversion_error :=
| AttributeError_strip (v : json)   (* v has no method strip *)
| TypeError_int (v : json)          (* int() of None, a list, a dict *)
| ValueError_int (s : string).      (* invalid literal for int() *)

(* v.strip(), defined on str only *)
Definition py_strip (v : json) : conversion_error + string :=
  match v with
  | JStr s => inr (strip s)
  | _ => inl (AttributeError_strip v)
  end.

Definition is_digit (c : ascii) : bool :=
  ((48 <=? nat_of_ascii c) && (nat_of_ascii c <=? 57))%nat.

Definition digit_value (c : ascii) : Z := Z.of_nat (nat_of_ascii c) - 48.

(* decimal digits, single underscores allowed between two digits *)
Fixpoint digits (acc : Z) (after_digit : bool) (s : string) : option Z :=
  match s with
  | EmptyString => if after_digit then Some acc else None
  | String c s' =>
      if is_digit c then digits (10 * acc + digit_value c) true s'
      else if Ascii.eqb c "_"%char
           then (if after_digit then digits acc false s' else None)
           else None
  end.

(* int(s) for a str: blanks around, an optional sign, decimal digits *)
Definition int_of_str (s : string) : option Z :=
  match strip s with
  | String "+"%char r => digits 0 false r
  | String "-"%char r => Z.opp <$> digits 0 false r
  | t => digits 0 false t
  end.

(* int(v) *)
Definition py_int (v : json) : conversion_error + Z :=
  match v with
  | JInt z => inr z
  | JBool b => inr (if b then 1 else 0)
  | JStr s => match int_of_str s with
              | Some z => inr z
              | None => inl (ValueError_int s)
              end
  | _ => inl (TypeError_int v)
  end.

(* the statements of a try block up to the first one that raises *)
Definition and_then {A B : Type} (m : conversion_error + A)
  (k : A -> conversion_error + B) : conversion_error + B :=
  match m with
  | inl e => inl e
  | inr a => k a
  end.

Notation "'let*' x := m 'in' k" := (and_then m (fun x => k))
  (at level 10, x name, m at level 100, k at level 200).

(* data.get(key, dflt) on the request object *)
Definition get (data : gmap string json) (key : string) (dflt : json) : json :=
  default dflt (data !! key).

(* job.status holds one of four literals *)
Inductive Status := pending | running | completed | failed.

Definition Status_eqb (a b : Status) : bool :=
  match a, b with
  | pending, pending | running, running
  | completed, completed | failed, failed => true
  | _, _ => false
  end.

(* an exception object: whether "except Exception" catches it (SystemExit,
   KeyboardInterrupt and GeneratorExit derive from BaseException only)
   and its str() *)
Record exn := mkExn { is_Exception : bool; str : string }.

(* what a call into the extractor does *)
Inductive outcome (A : Type) :=
| Returns (a : A)
| Raises (e : exn).
Arguments Returns {A} a.
Arguments Raises {A} e.

(* sum(1 for r in rows if r.get(key)) *)
Definition sum_if_get (key : string) (rows : list (gmap string string)) : Z :=
  fold_left Z.add
    (flat_map (fun r => if nonempty (default EmptyString (r !! key))
                        then [1] else []) rows) 0.

(* the rows whose value under [key] is not empty *)
Definition blank_free (key : string) (r : gmap string string) : bool :=
  nonempty (default EmptyString (r !! key)).

End Py.

(* --------------------------------------------------------------------- *)
(* src/google_map_flask_api.py                                             *)
(* --------------------------------------------------------------------- *)

Module GMaps.
Import Text Py.

(* one scraped row: a dict from field name to str *)
Abbreviation record := (gmap string string).

(* class ScrapingJob; timestamps are readings of the clock *)
Record ScrapingJob := mkJob {
  job_id : string;
  location : string;
  country : string;
  state : string;
  business_type : string;
  max_results : Z;
  status : Status;
  progress : Z;
  results : list record;
  error_message : option string;
  created_at : Z;
  completed_at : option Z
}.

(* ScrapingJob.__init__ *)
Definition new_job (job_id location country state business_type : string)
  (max_results now : Z) : ScrapingJob :=
  mkJob job_id location country state business_type max_results
        pending 0 [] None now None.

(* attribute assignments job.x = v *)
Definition set_status (v : Status) (j : ScrapingJob) : ScrapingJob :=
  mkJob (job_id j) (location j) (country j) (state j) (business_type j)
        (max_results j) v (progress j) (results j) (error_message j)
        (created_at j) (completed_at j).

Definition set_progress (v : Z) (j : ScrapingJob) : ScrapingJob :=
  mkJob (job_id j) (location j) (country j) (state j) (business_type j)
        (max_results j) (status j) v (results j) (error_message j)
        (created_at j) (completed_at j).

Definition set_results (v : list record) (j : ScrapingJob) : ScrapingJob :=
  mkJob (job_id j) (location j) (country j) (state j) (business_type j)
        (max_results j) (status j) (progress j) v (error_message j)
        (created_at j) (completed_at j).

Definition set_error_message (v : option string) (j : ScrapingJob) : ScrapingJob :=
  mkJob (job_id j) (location j) (country j) (state j) (business_type j)
        (max_results j) (status j) (progress j) (results j) v
        (created_at j) (completed_at j).

Definition set_completed_at (v : option Z) (j : ScrapingJob) : ScrapingJob :=
  mkJob (job_id j) (location j) (country j) (state j) (business_type j)
        (max_results j) (status j) (progress j) (results j) (error_message j)
        (created_at j) v.

Definition fieldnames : list string :=
  ["name"; "rating"; "category"; "address"; "phone"; "website"; "email"; "linkedin"].

(* result.get(field, '') *)
Definition get_field (result : record) (field : string) : string :=
  default EmptyString (result !! field).

(* lines 77-86: the dict literal of the cleaning loop *)
Definition cleaned_result (result : record) : record :=
  list_to_map
    [("name", get_field result "name");
     ("rating", get_field result "rating");
     ("category", get_field result "category");
     ("address", get_field result "address");
     ("phone", get_field result "phone");
     ("website", get_field result "website");
     ("email", get_field result "email");
     ("linkedin", get_field result "linkedin")].

(* lines 49-54 *)
Definition build_query (j : ScrapingJob) : string :=
  if nonempty (state j) && nonempty (country j)
  then business_type j +:+ " in " +:+ location j +:+ ", " +:+ state j +:+ ", " +:+ country j
  else if nonempty (country j)
  then business_type j +:+ " in " +:+ location j +:+ ", " +:+ country j
  else business_type j +:+ " in " +:+ location j.

(* The statements of run_scraping_job, named by their line, with the
   local variables that are live there.  A request may be served between
   any two of them. *)
Inductive pc :=
| L45                                  (* job.status = 'running' *)
| L46                                  (* job.progress = 10 *)
| L49                                  (* query = ... *)
| L59 (query : string)                 (* scraper = MapsToWebsiteScraper(...) *)
| L60 (query : string)                 (* job.progress = 20 *)
| L64 (query : string)                 (* scraper.set_max_results(...) *)
| L67 (query : string)                 (* scraper.search_on_maps(query) *)
| L68                                  (* job.progress = 40 *)
| L71                                  (* results = scraper.scroll_hover_and_extract() *)
| L72 (res : list record)              (* job.progress = 90 *)
| L75 (res : list record)              (* cleaned_results = [...] *)
| L89 (cleaned : list record)          (* job.results = cleaned_results *)
| L90                                  (* job.status = 'completed' *)
| L91                                  (* job.progress = 100 *)
| L92                                  (* job.completed_at = datetime.now() *)
| L95                                  (* the summary prints *)
| L104 (raised : option exn)           (* finally: scraper.close() *)
| L107 (e : exn)                       (* job.status = 'failed' *)
| L108 (e : exn)                       (* job.error_message = str(e) *)
| L109 (e : exn)                       (* job.progress = 0 *)
| L110                                 (* print *)
| Done                                 (* the thread returned *)
| Died (e : exn).                      (* the thread ended by an uncaught exception *)

(* "except Exception as e" of line 106 *)
Definition except_Exception (e : exn) : pc :=
  if is_Exception e then L107 e else Died e.

(* One statement of the thread.  [o] is what the scraper does if the
   statement calls it, [now] what the clock shows.  MapsToWebsiteScraper
   re-raises from setup_driver and search_on_maps, scroll_hover_and_extract
   lets the driver's exceptions through, set_max_results is an assignment
   and close() catches what quitting the driver raises. *)
Definition thread_step (now : Z) (o : outcome (list record)) (p : pc) (j : ScrapingJob)
  : pc * ScrapingJob :=
  match p with
  | L45 => (L46, set_status running j)
  | L46 => (L49, set_progress 10 j)
  | L49 => (L59 (build_query j), j)
  | L59 q => match o with
             | Returns _ => (L60 q, j)
             | Raises e => (except_Exception e, j)
             end
  | L60 q => (L64 q, set_progress 20 j)
  | L64 q => (L67 q, j)
  | L67 q => match o with
             | Returns _ => (L68, j)
             | Raises e => (L104 (Some e), j)
             end
  | L68 => (L71, set_progress 40 j)
  | L71 => match o with
           | Returns rows => (L72 rows, j)
           | Raises e => (L104 (Some e), j)
           end
  | L72 rows => (L75 rows, set_progress 90 j)
  | L75 rows => (L89 (map cleaned_result rows), j)
  | L89 cleaned => (L90, set_results cleaned j)
  | L90 => (L91, set_status completed j)
  | L91 => (L92, set_progress 100 j)
  | L92 => (L95, set_completed_at (Some now) j)
  | L95 => (L104 None, j)
  | L104 None => (Done, j)
  | L104 (Some e) => (except_Exception e, j)
  | L107 e => (L108 e, set_status failed j)
  | L108 e => (L109 e, set_error_message (Some (str e)) j)
  | L109 e => (L110, set_progress 0 j)
  | L110 => (Done, j)
  | Done => (Done, j)
  | Died e => (Died e, j)
  end.

Definition finished (p : pc) : bool :=
  match p with Done | Died _ => true | _ => false end.

(* The thread run to its end against a scraper whose calls behave as
   [ctor], [search] and [extract] say; no path has more than 20 statements. *)
Definition script_at (ctor search extract : outcome (list record)) (p : pc)
  : outcome (list record) :=
  match p with
  | L59 _ => ctor
  | L67 _ => search
  | _ => extract
  end.

Fixpoint run_from (fuel : nat) (ctor search extract : outcome (list record)) (now : Z)
  (p : pc) (j : ScrapingJob) : pc * ScrapingJob :=
  match fuel with
  | O => (p, j)
  | S fuel' =>
      if finished p then (p, j)
      else let '(p', j') := thread_step now (script_at ctor search extract p) p j in
           run_from fuel' ctor search extract now p' j'
  end.

Definition run_scraping_job (ctor search extract : outcome (list record)) (now : Z)
  (j : ScrapingJob) : pc * ScrapingJob :=
  run_from 20 ctor search extract now L45 j.

(* ------------------------------------------------------------------ *)
(* The process: the dict scraping_jobs, the job objects it and the      *)
(* threads refer to (a reference is an index in the heap), the threads. *)
(* ------------------------------------------------------------------ *)

Record thread := mkThread { t_job : nat; t_pc : pc }.

Record server := mkServer {
  scraping_jobs : gmap string nat;
  heap : list ScrapingJob;
  threads : list thread
}.

Definition init : server := mkServer ∅ [] [].

(* scraping_jobs.get(job_id) *)
Definition lookup_job (srv : server) (id : string) : option ScrapingJob :=
  r ← scraping_jobs srv !! id; heap srv !! r.

(* what a handler puts in 'error' *)
Inductive error_text :=
| Msg (m : string)
| StrOf (e : conversion_error).       (* str(e) of the caught exception *)

Inductive status_extra :=
| NoExtra
| CompletedExtra (completed_at results_count emails_found websites_found : Z)
| FailedExtra (error_message : option string).

Record statistics := mkStats {
  total : Z; with_emails : Z; with_websites : Z; with_linkedin : Z
}.

Inductive body :=
| Failure (error : error_text)                    (* success: False *)
| Started (job_id message : string)
| StatusView (job_id : string) (st : Status) (progress created_at : Z)
             (extra : status_extra)
| ResultsView (job_id : string) (rows : list record) (stats : statistics)
| Attachment (bytes download_name mimetype : string)
| Unhandled.                    (* an exception left the view: Flask's 500 *)

Record response := mkResponse { code : Z; payload : body }.

(* jsonify(...) alone answers 200 *)
Definition ok (b : body) : response := mkResponse 200 b.

Definition allowed_max_results : list Z := [10; 20; 50; 80; 100].

(* lines 193-198: scraping_jobs[job_id] = job, then a thread is started on
   the new object; start() does not wait for it *)
Definition register (srv : server) (id : string) (job : ScrapingJob) : server :=
  let ref := List.length (heap srv) in
  mkServer (<[id := ref]> (scraping_jobs srv))
           (heap srv ++ [job])
           (threads srv ++ [mkThread ref L45]).

(* POST /api/scrape.  [uuid] is what str(uuid.uuid4()) gives. *)
Definition start_scraping (srv : server) (data : gmap string json)
  (uuid : string) (now : Z) : server * response :=
  let validated :=
    let* location := py_strip (get data "location" (JStr EmptyString)) in
    let* country := py_strip (get data "country" (JStr EmptyString)) in
    let* state := py_strip (get data "state" (JStr EmptyString)) in
    let* business_type := py_strip (get data "business_type" (JStr EmptyString)) in
    let* max_results := py_int (get data "max_results" (JInt 50)) in
    inr (location, country, state, business_type, max_results) in
  match validated with
  | inl e => (srv, mkResponse 500 (Failure (StrOf e)))
  | inr (location, country, state, business_type, max_results) =>
      if negb (nonempty location)
      then (srv, mkResponse 400 (Failure (Msg "Location is required")))
      else if negb (nonempty business_type)
      then (srv, mkResponse 400 (Failure (Msg "Business type is required")))
      else if negb (bool_decide (max_results ∈ allowed_max_results))
      then (srv, mkResponse 400 (Failure (Msg "Invalid max_results value")))
      else
        let job := new_job uuid location country state business_type
                           max_results now in
        (register srv uuid job,
         ok (Started uuid "Scraping started with email extraction enabled"))
  end.

(* GET /api/status/<job_id> *)
Definition get_job_status (srv : server) (id : string) : response :=
  match lookup_job srv id with
  | None => mkResponse 404 (Failure (Msg "Job not found"))
  | Some job =>
      match status job with
      | completed =>
          match completed_at job with
          | Some t =>
              ok (StatusView id (status job) (progress job) (created_at job)
                    (CompletedExtra t (Z.of_nat (List.length (results job)))
                       (sum_if_get "email" (results job))
                       (sum_if_get "website" (results job))))
          | None => mkResponse 500 Unhandled     (* None.isoformat() *)
          end
      | failed =>
          ok (StatusView id (status job) (progress job) (created_at job)
                (FailedExtra (error_message job)))
      | _ => ok (StatusView id (status job) (progress job) (created_at job) NoExtra)
      end
  end.

(* GET /api/results/<job_id> *)
Definition get_results (srv : server) (id : string) : response :=
  match lookup_job srv id with
  | None => mkResponse 404 (Failure (Msg "Job not found"))
  | Some job =>
      if negb (Status_eqb (status job) completed)
      then mkResponse 400 (Failure (Msg "Job not completed yet"))
      else ok (ResultsView id (results job)
                 (mkStats (Z.of_nat (List.length (results job)))
                          (sum_if_get "email" (results job))
                          (sum_if_get "website" (results job))
                          (sum_if_get "linkedin" (results job))))
  end.

(* writer.writeheader(): the row dict(zip(fieldnames, fieldnames)) *)
Definition header_row : record := list_to_map (zip fieldnames fieldnames).

(* line 283: {field: result.get(field, '') for field in fieldnames} *)
Definition csv_row (result : record) : record :=
  list_to_map (map (fun field => (field, get_field result field)) fieldnames).

(* lines 277-289: the text written through the DictWriter *)
Definition csv_text (rows : list record) : option string :=
  Csv.writerows <$> mapM (Csv.dict_to_list fieldnames) (header_row :: map csv_row rows).

(* lines 292-295; [timestamp] is datetime.now().strftime('%Y%m%d_%H%M%S') *)
Definition download_name (job : ScrapingJob) (timestamp : string) : string :=
  let safe_location := replace ","%char EmptyString (replace " "%char "_" (location job)) in
  let safe_business := replace ","%char EmptyString (replace " "%char "_" (business_type job)) in
  "gmaps_businesses_" +:+ safe_location +:+ "_" +:+ safe_business +:+ "_"
    +:+ timestamp +:+ ".csv".

(* GET /api/download/<job_id> *)
Definition download_csv (srv : server) (id : string) (timestamp : string) : response :=
  match lookup_job srv id with
  | None => mkResponse 404 (Failure (Msg "Job not found"))
  | Some job =>
      if negb (Status_eqb (status job) completed)
      then mkResponse 400 (Failure (Msg "Job not completed yet"))
      else match csv_text (results job) with
           | Some text => ok (Attachment text (download_name job timestamp) "text/csv")
           | None => mkResponse 500 Unhandled
           end
  end.

(* What happens in the process: a request is served (a handler reads the
   job as it is at that moment), or a thread runs one statement. *)
Inductive event :=
| POST_scrape (data : gmap string json) (uuid : string) (now : Z)
| GET_status (id : string)
| GET_results (id : string)
| GET_download (id : string) (timestamp : string)
| Step (tid : nat) (now : Z) (o : outcome (list record)).

Definition step_thread (srv : server) (tid : nat) (now : Z)
  (o : outcome (list record)) : server :=
  match threads srv !! tid with
  | None => srv
  | Some t =>
      match heap srv !! t_job t with
      | None => srv
      | Some j =>
          let '(p', j') := thread_step now o (t_pc t) j in
          mkServer (scraping_jobs srv)
                   (<[t_job t := j']> (heap srv))
                   (<[tid := mkThread (t_job t) p']> (threads srv))
      end
  end.

Definition exec (srv : server) (ev : event) : server * option response :=
  match ev with
  | POST_scrape data uuid now =>
      let '(srv', r) := start_scraping srv data uuid now in (srv', Some r)
  | GET_status id => (srv, Some (get_job_status srv id))
  | GET_results id => (srv, Some (get_results srv id))
  | GET_download id ts => (srv, Some (download_csv srv id ts))
  | Step tid now o => (step_thread srv tid now o, None)
  end.

Definition run (srv : server) (evs : list event) : server :=
  fold_left (fun s ev => fst (exec s ev)) evs srv.

(* the job ids handed out by the submissions of a history *)
Fixpoint issued (srv : server) (evs : list event) : list string :=
  match evs with
  | [] => []
  | ev :: evs' =>
      match exec srv ev with
      | (srv', Some (mkResponse _ (Started id _))) => id :: issued srv' evs'
      | (srv', _) => issued srv' evs'
      end
  end.

(* the values uuid4 gave in a history *)
Definition uuids (evs : list event) : list string :=
  flat_map (fun ev => match ev with POST_scrape _ u _ => [u] | _ => [] end) evs.

(* What the fields of a job are while its thread stands at [p]. *)
Definition pc_inv (p : pc) (j : ScrapingJob) : Prop :=
  match p with
  | L45 =>
      status j = pending /\ completed_at j = None /\ error_message j = None
      /\ results j = [] /\ progress j = 0
  | L46 | L49 | L59 _ | L60 _ | L64 _ | L67 _ | L68 | L71 | L72 _ | L75 _
  | L89 _ | L104 (Some _) | L107 _ | Died _ =>
      status j = running /\ completed_at j = None /\ error_message j = None
      /\ results j = []
  | L90 =>
      status j = running /\ completed_at j = None /\ error_message j = None
  | L91 =>
      status j = completed /\ completed_at j = None /\ error_message j = None
  | L92 =>
      status j = completed /\ completed_at j = None /\ error_message j = None
      /\ progress j = 100
  | L95 | L104 None =>
      status j = completed /\ is_Some (completed_at j) /\ error_message j = None
      /\ progress j = 100
  | L108 _ =>
      status j = failed /\ completed_at j = None /\ error_message j = None
      /\ results j = []
  | L109 e =>
      status j = failed /\ completed_at j = None /\ error_message j = Some (str e)
      /\ results j = []
  | L110 =>
      status j = failed /\ completed_at j = None /\ is_Some (error_message j)
      /\ results j = [] /\ progress j = 0
  | Done =>
      (status j = completed /\ is_Some (completed_at j) /\ error_message j = None
       /\ progress j = 100)
      \/ (status j = failed /\ completed_at j = None /\ is_Some (error_message j)
          /\ results j = [] /\ progress j = 0)
  end.

(* Thread k works on job object k; every id of the table leads to an
   object that carries it; every thread's job is as its pc says. *)
Record wf (srv : server) : Prop := mkWf {
  wf_threads : t_job <$> threads srv = seq 0 (List.length (heap srv));
  wf_table : forall id r, scraping_jobs srv !! id = Some r ->
             exists j, heap srv !! r = Some j /\ job_id j = id;
  wf_pc : forall tid t j, threads srv !! tid = Some t ->
          heap srv !! t_job t = Some j -> pc_inv (t_pc t) j
}.

(* the threads that work on a job object carrying [id] *)
Definition runs (srv : server) (id : string) (tid : nat) : Prop :=
  exists t j, threads srv !! tid = Some t /\ heap srv !! t_job t = Some j
              /\ job_id j = id.

(* the row the CSV file has for a record *)
Definition csv_fields (result : record) : list string :=
  map (get_field result) fieldnames.

(* the submission converts: strings where strings are expected, an
   integer for the cap *)
Record converts (data : gmap string json)
  (location country state business_type : string) (max_results : Z) : Prop := mkConverts {
  cv_location : get data "location" (JStr EmptyString) = JStr location;
  cv_country : get data "country" (JStr EmptyString) = JStr country;
  cv_state : get data "state" (JStr EmptyString) = JStr state;
  cv_business_type : get data "business_type" (JStr EmptyString) = JStr business_type;
  cv_max_results : py_int (get data "max_results" (JInt 50)) = inr max_results
}.

(* the exception of the first scraper call that raises, if one does *)
Definition first_raise (ctor search extract : outcome (list record)) : option exn :=
  match ctor, search, extract with
  | Raises e, _, _ => Some e
  | Returns _, Raises e, _ => Some e
  | Returns _, Returns _, Raises e => Some e
  | Returns _, Returns _, Returns _ => None
  end.

End GMaps.

(* --------------------------------------------------------------------- *)
(* src/New folder/flask_backend_api.py                                     *)
(* --------------------------------------------------------------------- *)

Module Leads.
Import Text Py.

(* one lead: the str-valued entries of the dict process_element builds *)
Abbreviation record := (gmap string string).

(* extractor.stats: counters by name *)
Abbreviation stats_dict := (gmap string Z).

(* class ExtractionJob; industries is kept as the request gave it *)
Record ExtractionJob := mkJob {
  job_id : string;
  city : string;
  industries : json;
  max_results : Z;
  status : Status;
  progress : Z;
  results : list record;
  stats : stats_dict;
  error_message : option string;
  created_at : Z;
  completed_at : option Z
}.

(* ExtractionJob.__init__ *)
Definition new_job (job_id city : string) (industries : json)
  (max_results now : Z) : ExtractionJob :=
  mkJob job_id city industries max_results pending 0 [] ∅ None now None.

Definition set_status (v : Status) (j : ExtractionJob) : ExtractionJob :=
  mkJob (job_id j) (city j) (industries j) (max_results j) v (progress j)
        (results j) (stats j) (error_message j) (created_at j) (completed_at j).

Definition set_progress (v : Z) (j : ExtractionJob) : ExtractionJob :=
  mkJob (job_id j) (city j) (industries j) (max_results j) (status j) v
        (results j) (stats j) (error_message j) (created_at j) (completed_at j).

Definition set_results (v : list record) (j : ExtractionJob) : ExtractionJob :=
  mkJob (job_id j) (city j) (industries j) (max_results j) (status j) (progress j)
        v (stats j) (error_message j) (created_at j) (completed_at j).

Definition set_stats (v : stats_dict) (j : ExtractionJob) : ExtractionJob :=
  mkJob (job_id j) (city j) (industries j) (max_results j) (status j) (progress j)
        (results j) v (error_message j) (created_at j) (completed_at j).

Definition set_error_message (v : option string) (j : ExtractionJob) : ExtractionJob :=
  mkJob (job_id j) (city j) (industries j) (max_results j) (status j) (progress j)
        (results j) (stats j) v (created_at j) (completed_at j).

Definition set_completed_at (v : option Z) (j : ExtractionJob) : ExtractionJob :=
  mkJob (job_id j) (city j) (industries j) (max_results j) (status j) (progress j)
        (results j) (stats j) (error_message j) (created_at j) v.

(* the statements of run_extraction *)
Inductive pc :=
| L43                                  (* job.status = 'running' *)
| L44                                  (* job.progress = 10 *)
| L47                                  (* extractor = BusinessLeadExtractor(...) *)
| L48                                  (* job.progress = 20 *)
| L51                                  (* leads = extractor.extract_leads() *)
| L52 (leads : list record) (st : stats_dict)   (* job.progress = 90 *)
| L55 (leads : list record) (st : stats_dict)   (* job.results = leads *)
| L56 (st : stats_dict)                (* job.stats = extractor.stats *)
| L57                                  (* job.status = 'completed' *)
| L58                                  (* job.progress = 100 *)
| L59                                  (* job.completed_at = datetime.now() *)
| L62 (e : exn)                        (* job.status = 'failed' *)
| L63 (e : exn)                        (* job.error_message = str(e) *)
| L64                                  (* job.progress = 0 *)
| Done
| Died (e : exn).

(* "except Exception as e" of line 61 *)
Definition except_Exception (e : exn) : pc :=
  if is_Exception e then L62 e else Died e.

(* One statement.  BusinessLeadExtractor.__init__ only assigns; extract_leads
   returns the leads (the counters are then in extractor.stats) or raises:
   get_bbox_for_city raises SystemExit for a city it cannot place, the loop
   over the elements whatever their processing raises. *)
Definition thread_step (now : Z) (o : outcome (list record * stats_dict))
  (p : pc) (j : ExtractionJob) : pc * ExtractionJob :=
  match p with
  | L43 => (L44, set_status running j)
  | L44 => (L47, set_progress 10 j)
  | L47 => (L48, j)
  | L48 => (L51, set_progress 20 j)
  | L51 => match o with
           | Returns (leads, st) => (L52 leads st, j)
           | Raises e => (except_Exception e, j)
           end
  | L52 leads st => (L55 leads st, set_progress 90 j)
  | L55 leads st => (L56 st, set_results leads j)
  | L56 st => (L57, set_stats st j)
  | L57 => (L58, set_status completed j)
  | L58 => (L59, set_progress 100 j)
  | L59 => (Done, set_completed_at (Some now) j)
  | L62 e => (L63 e, set_status failed j)
  | L63 e => (L64, set_error_message (Some (str e)) j)
  | L64 => (Done, set_progress 0 j)
  | Done => (Done, j)
  | Died e => (Died e, j)
  end.

Definition finished (p : pc) : bool :=
  match p with Done | Died _ => true | _ => false end.

Fixpoint run_from (fuel : nat) (extract : outcome (list record * stats_dict))
  (now : Z) (p : pc) (j : ExtractionJob) : pc * ExtractionJob :=
  match fuel with
  | O => (p, j)
  | S fuel' =>
      if finished p then (p, j)
      else let '(p', j') := thread_step now extract p j in
           run_from fuel' extract now p' j'
  end.

(* no path of run_extraction has more than 11 statements *)
Definition run_extraction (extract : outcome (list record * stats_dict))
  (now : Z) (j : ExtractionJob) : pc * ExtractionJob :=
  run_from 11 extract now L43 j.

Record thread := mkThread { t_job : nat; t_pc : pc }.

Record server := mkServer {
  extraction_jobs : gmap string nat;
  heap : list ExtractionJob;
  threads : list thread
}.

Definition init : server := mkServer ∅ [] [].

(* extraction_jobs.get(job_id) *)
Definition lookup_job (srv : server) (id : string) : option ExtractionJob :=
  r ← extraction_jobs srv !! id; heap srv !! r.

Inductive error_text :=
| Msg (m : string)
| StrOf (e : conversion_error).

Inductive status_extra :=
| NoExtra
| CompletedExtra (completed_at results_count : Z) (st : stats_dict)
| FailedExtra (error_message : option string).

Inductive body :=
| Failure (error : error_text)
| Started (job_id message : string)
| StatusView (job_id : string) (st : Status) (progress created_at : Z)
             (extra : status_extra)
| ResultsView (job_id : string) (rows : list record) (st : stats_dict)
| Attachment (bytes download_name mimetype : string)
| Unhandled.

Record response := mkResponse { code : Z; payload : body }.

Definition ok (b : body) : response := mkResponse 200 b.

(* lines 116-121: extraction_jobs[job_id] = job, then the thread is started *)
Definition register (srv : server) (id : string) (job : ExtractionJob) : server :=
  let ref := List.length (heap srv) in
  mkServer (<[id := ref]> (extraction_jobs srv))
           (heap srv ++ [job])
           (threads srv ++ [mkThread ref L43]).

(* POST /api/extract *)
Definition start_extraction (srv : server) (data : gmap string json)
  (uuid : string) (now : Z) : server * response :=
  let validated :=
    let* city := py_strip (get data "city" (JStr EmptyString)) in
    let industries := get data "industries" (JArr []) in
    let* max_results := py_int (get data "maxResults" (JInt 250)) in
    inr (city, industries, max_results) in
  match validated with
  | inl e => (srv, mkResponse 500 (Failure (StrOf e)))
  | inr (city, industries, max_results) =>
      if negb (nonempty city)
      then (srv, mkResponse 400 (Failure (Msg "City is required")))
      else if negb (truthy industries)
      then (srv, mkResponse 400
                   (Failure (Msg "At least one industry must be selected")))
      else
        let job := new_job uuid city industries max_results now in
        (register srv uuid job, ok (Started uuid "Extraction started"))
  end.

(* GET /api/status/<job_id> *)
Definition get_job_status (srv : server) (id : string) : response :=
  match lookup_job srv id with
  | None => mkResponse 404 (Failure (Msg "Job not found"))
  | Some job =>
      match status job with
      | completed =>
          match completed_at job with
          | Some t =>
              ok (StatusView id (status job) (progress job) (created_at job)
                    (CompletedExtra t (Z.of_nat (List.length (results job)))
                       (stats job)))
          | None => mkResponse 500 Unhandled     (* None.isoformat() *)
          end
      | failed =>
          ok (StatusView id (status job) (progress job) (created_at job)
                (FailedExtra (error_message job)))
      | _ => ok (StatusView id (status job) (progress job) (created_at job) NoExtra)
      end
  end.

(* GET /api/results/<job_id> *)
Definition get_results (srv : server) (id : string) : response :=
  match lookup_job srv id with
  | None => mkResponse 404 (Failure (Msg "Job not found"))
  | Some job =>
      if negb (Status_eqb (status job) completed)
      then mkResponse 400 (Failure (Msg "Job not completed yet"))
      else ok (ResultsView id (results job) (stats job))
  end.

Definition fieldnames : list string :=
  ["name"; "industry"; "location"; "email"; "revenue"; "website"; "phone";
   "extraction_date"].

Definition get_field (result : record) (field : string) : string :=
  default EmptyString (result !! field).

Definition header_row : record := list_to_map (zip fieldnames fieldnames).

(* lines 195-204: the email column is fed from the key emails_found *)
Definition csv_row (result : record) : record :=
  list_to_map
    [("name", get_field result "name");
     ("industry", get_field result "industry");
     ("location", get_field result "location");
     ("email", get_field result "emails_found");
     ("revenue", get_field result "revenue");
     ("website", get_field result "website");
     ("phone", get_field result "phone");
     ("extraction_date", get_field result "extraction_date")].

Definition csv_text (rows : list record) : option string :=
  Csv.writerows <$> mapM (Csv.dict_to_list fieldnames) (header_row :: map csv_row rows).

(* lines 214-216 *)
Definition download_name (job : ExtractionJob) (timestamp : string) : string :=
  let safe_city := replace ","%char EmptyString (replace " "%char "_" (city job)) in
  "business_leads_" +:+ safe_city +:+ "_" +:+ timestamp +:+ ".csv".

(* GET /api/download/<job_id> *)
Definition download_csv (srv : server) (id : string) (timestamp : string) : response :=
  match lookup_job srv id with
  | None => mkResponse 404 (Failure (Msg "Job not found"))
  | Some job =>
      if negb (Status_eqb (status job) completed)
      then mkResponse 400 (Failure (Msg "Job not completed yet"))
      else match csv_text (results job) with
           | Some text => ok (Attachment text (download_name job timestamp) "text/csv")
           | None => mkResponse 500 Unhandled
           end
  end.

Inductive event :=
| POST_extract (data : gmap string json) (uuid : string) (now : Z)
| GET_status (id : string)
| GET_results (id : string)
| GET_download (id : string) (timestamp : string)
| Step (tid : nat) (now : Z) (o : outcome (list record * stats_dict)).

Definition step_thread (srv : server) (tid : nat) (now : Z)
  (o : outcome (list record * stats_dict)) : server :=
  match threads srv !! tid with
  | None => srv
  | Some t =>
      match heap srv !! t_job t with
      | None => srv
      | Some j =>
          let '(p', j') := thread_step now o (t_pc t) j in
          mkServer (extraction_jobs srv)
                   (<[t_job t := j']> (heap srv))
                   (<[tid := mkThread (t_job t) p']> (threads srv))
      end
  end.

Definition exec (srv : server) (ev : event) : server * option response :=
  match ev with
  | POST_extract data uuid now =>
      let '(srv', r) := start_extraction srv data uuid now in (srv', Some r)
  | GET_status id => (srv, Some (get_job_status srv id))
  | GET_results id => (srv, Some (get_results srv id))
  | GET_download id ts => (srv, Some (download_csv srv id ts))
  | Step tid now o => (step_thread srv tid now o, None)
  end.

Definition run (srv : server) (evs : list event) : server :=
  fold_left (fun s ev => fst (exec s ev)) evs srv.

Fixpoint issued (srv : server) (evs : list event) : list string :=
  match evs with
  | [] => []
  | ev :: evs' =>
      match exec srv ev with
      | (srv', Some (mkResponse _ (Started id _))) => id :: issued srv' evs'
      | (srv', _) => issued srv' evs'
      end
  end.

Definition uuids (evs : list event) : list string :=
  flat_map (fun ev => match ev with POST_extract _ u _ => [u] | _ => [] end) evs.

(* What the fields of a job are while its thread stands at [p]. *)
Definition pc_inv (p : pc) (j : ExtractionJob) : Prop :=
  match p with
  | L43 =>
      status j = pending /\ completed_at j = None /\ error_message j = None
      /\ results j = [] /\ progress j = 0
  | L44 | L47 | L48 | L51 | L52 _ _ | L55 _ _ | L62 _ | Died _ =>
      status j = running /\ completed_at j = None /\ error_message j = None
      /\ results j = []
  | L56 _ | L57 =>
      status j = running /\ completed_at j = None /\ error_message j = None
  | L58 =>
      status j = completed /\ completed_at j = None /\ error_message j = None
  | L59 =>
      status j = completed /\ completed_at j = None /\ error_message j = None
      /\ progress j = 100
  | L63 _ =>
      status j = failed /\ completed_at j = None /\ error_message j = None
      /\ results j = []
  | L64 =>
      status j = failed /\ completed_at j = None /\ is_Some (error_message j)
      /\ results j = []
  | Done =>
      (status j = completed /\ is_Some (completed_at j) /\ error_message j = None
       /\ progress j = 100)
      \/ (status j = failed /\ completed_at j = None /\ is_Some (error_message j)
          /\ results j = [] /\ progress j = 0)
  end.

Record wf (srv : server) : Prop := mkWf {
  wf_threads : t_job <$> threads srv = seq 0 (List.length (heap srv));
  wf_table : forall id r, extraction_jobs srv !! id = Some r ->
             exists j, heap srv !! r = Some j /\ job_id j = id;
  wf_pc : forall tid t j, threads srv !! tid = Some t ->
          heap srv !! t_job t = Some j -> pc_inv (t_pc t) j
}.

(* the threads that work on a job object carrying [id] *)
Definition runs (srv : server) (id : string) (tid : nat) : Prop :=
  exists t j, threads srv !! tid = Some t /\ heap srv !! t_job t = Some j
              /\ job_id j = id.

(* the key of a lead that feeds a column *)
Definition source_key (field : string) : string :=
  if String.eqb field "email" then "emails_found" else field.

(* the row the CSV file has for a lead *)
Definition csv_fields (result : record) : list string :=
  map (fun field => get_field result (source_key field)) fieldnames.

(* the submission converts: the city is a string, the cap an integer *)
Record converts (data : gmap string json) (city : string) (max_results : Z)
  : Prop := mkConverts {
  cv_city : get data "city" (JStr EmptyString) = JStr city;
  cv_max_results : py_int (get data "maxResults" (JInt 250)) = inr max_results
}.

End Leads.

(* --------------------------------------------------------------------- *)
(* The order of the states of a job.                                       *)
(* --------------------------------------------------------------------- *)

Module Order.
Import Py.

Definition terminal (s : Status) : bool :=
  match s with completed | failed => true | _ => false end.

(* the transitions of pending -> running -> {completed | failed} *)
Inductive forward1 : Status -> Status -> Prop :=
| pending_running : forward1 pending running
| running_completed : forward1 running completed
| running_failed : forward1 running failed.

(* the status stays or moves forward *)
Definition forward : Status -> Status -> Prop := rtc forward1.

End Order.

(* --------------------------------------------------------------------- *)
(* Histories used as examples.                                             *)
(* --------------------------------------------------------------------- *)

Module Scenario.
Import Text Py.

(* a driver error, and a SystemExit *)
Definition crash : exn := mkExn true "chrome not reachable".
Definition sys_exit : exn := mkExn false "No fallback bbox available".

Definition cafes : gmap string json :=
  list_to_map [("location", JStr "Austin, USA"); ("business_type", JStr "Cafes");
               ("max_results", JInt 10)].



Definition blue_door : gmap string string :=
  list_to_map [("name", "Blue Door, Cafe"); ("website", "https://bluedoor.example");
               ("email", "hi@bluedoor.example")].

Definition corner : gmap string string := list_to_map [("name", "Corner")].

(* steps of thread 0 in which no scraper call raises *)
Definition quiet (n : nat) : list GMaps.event :=
  replicate n (GMaps.Step 0 101 (Returns [blue_door; corner])).

(* a job is submitted and its thread runs its first three statements *)
Definition gm_started : list GMaps.event :=
  GMaps.POST_scrape cafes "job-1" 100 :: quiet 3.

(* ... the search on the map (line 67) raises, the thread runs to its end *)
Definition gm_then_fails : list GMaps.event :=
  quiet 3 ++ [GMaps.Step 0 102 (Raises crash)] ++ quiet 5.

Definition gm_failed : list GMaps.event := gm_started ++ gm_then_fails.

(* a job is submitted and its thread runs to its end without an error *)
Definition gm_completed : list GMaps.event :=
  GMaps.POST_scrape cafes "job-1" 100 :: quiet 17.

Definition gm_job : GMaps.ScrapingJob :=
  GMaps.new_job "job-1" "Austin, USA" EmptyString EmptyString "Cafes" 10 100.

Definition tech : gmap string json :=
  list_to_map [("city", JStr "Austin, USA");
               ("industries", JArr [JStr "Technology & Software"]);
               ("maxResults", JInt 10)].

Definition tech_bad_cap : gmap string json :=
  list_to_map [("city", JStr "Austin, USA");
               ("industries", JArr [JStr "Technology & Software"]);
               ("maxResults", JStr "abc")].

Definition acme : gmap string string :=
  list_to_map [("name", "Acme"); ("emails_found", "sales@acme.example")].

Definition acme_stats : gmap string Z :=
  list_to_map [("total_found", 1); ("with_emails", 1)].

Definition calm (n : nat) : list Leads.event :=
  replicate n (Leads.Step 0 101 (Returns ([acme], acme_stats))).

Definition ld_started : list Leads.event :=
  Leads.POST_extract tech "job-1" 100 :: calm 3.

Definition ld_then_fails : list Leads.event :=
  calm 1 ++ [Leads.Step 0 102 (Raises crash)] ++ calm 3.

Definition ld_failed : list Leads.event := ld_started ++ ld_then_fails.

Definition ld_completed : list Leads.event :=
  Leads.POST_extract tech "job-1" 100 :: calm 11.

Definition ld_job : Leads.ExtractionJob :=
  Leads.new_job "job-1" "Austin, USA" (JArr [JStr "Technology & Software"]) 10 100.

End Scenario.

(* --------------------------------------------------------------------- *)
(* More on the two threads: the checkpoints of progress, the shape of the  *)
(* stored records, the names of the downloads.                             *)
(* --------------------------------------------------------------------- *)

Module GMapsInv.
Import Text Py GMaps.

(* the values job.progress can have while the thread stands at [p] *)
Definition progress_at (p : pc) : list Z :=
  match p with
  | L45 | L46 => [0]
  | L49 | L59 _ | L60 _ => [10]
  | L64 _ | L67 _ | L68 => [20]
  | L71 | L72 _ => [40]
  | L75 _ | L89 _ | L90 | L91 => [90]
  | L92 | L95 | L104 None => [100]
  | L104 (Some _) => [20; 40]
  | L107 _ | L108 _ | L109 _ | Died _ => [10; 20; 40]
  | L110 => [0]
  | Done => [0; 100]
  end.

(* the values the code ever assigns to job.progress *)
Definition checkpoints : list Z := [0; 10; 20; 40; 90; 100].

(* a record with exactly the eight fields *)
Definition has_fields (r : record) : Prop :=
  forall k, is_Some (r !! k) <-> k ∈ fieldnames.

(* progress and the records, job and local variable, at [p] *)
Definition shape (p : pc) (j : ScrapingJob) : Prop :=
  progress j ∈ progress_at p
  /\ Forall has_fields (results j)
  /\ match p with
     | L89 cleaned => Forall has_fields cleaned
     | _ => True
     end.

(* what a job was created with *)
Definition parameters (j : ScrapingJob) :=
  (job_id j, location j, country j, state j, business_type j, max_results j,
   created_at j).

(* lines 292-293: blanks to underscores, commas dropped *)
Definition safe (s : string) : string :=
  replace ","%char EmptyString (replace " "%char "_" s).

(* c in s *)
Fixpoint has_char (c : ascii) (s : string) : bool :=
  match s with
  | EmptyString => false
  | String d s' => Ascii.eqb d c || has_char c s'
  end.

End GMapsInv.

Module LeadsInv.
Import Text Py Leads.

Definition progress_at (p : pc) : list Z :=
  match p with
  | L43 | L44 => [0]
  | L47 | L48 => [10]
  | L51 | L52 _ _ | L62 _ | L63 _ | L64 | Died _ => [20]
  | L55 _ _ | L56 _ | L57 | L58 => [90]
  | L59 => [100]
  | Done => [0; 100]
  end.

Definition checkpoints : list Z := [0; 10; 20; 90; 100].

Definition shape (p : pc) (j : ExtractionJob) : Prop :=
  progress j ∈ progress_at p.

Definition parameters (j : ExtractionJob) :=
  (job_id j, city j, industries j, max_results j, created_at j).

End LeadsInv.

(* --------------------------------------------------------------------- *)
(* src/google_map_business.py: what MapsToWebsiteScraper collects and      *)
(* writes.  The browser is outside: a round of the scroll loop is given    *)
(* the cards the driver shows and what scrolling on does.                  *)
(* --------------------------------------------------------------------- *)

Module Scraper.
Import Text Py.

(* lines 228-237: the data of one business, every field a str *)
Record business := mkBusiness {
  name : string;
  rating : string;
  category : string;
  address : string;
  phone : string;
  website : string;
  email : string;
  linkedin : string
}.

(* the dict itself *)
Definition to_dict (b : business) : gmap string string :=
  list_to_map
    [("name", name b); ("rating", rating b); ("category", category b);
     ("address", address b); ("phone", phone b); ("website", website b);
     ("email", email b); ("linkedin", linkedin b)].

(* A card as _extract_business_data leaves it: the data it filled in, or
   nothing when it gave up (no click, no details panel, an exception, all
   caught there). *)
Definition card := option business.

(* lines 317-322: the data is kept if it has a name *)
Definition extract_business_data (c : card) (results : list business)
  : list business :=
  match c with
  | Some data => if nonempty (name data) then results ++ [data] else results
  | None => results
  end.

(* lines 174-177 *)
Fixpoint process_cards (max_results : Z) (cards : list card)
  (results : list business) : list business :=
  match cards with
  | [] => results
  | c :: cards' =>
      if Z.of_nat (List.length results) >=? max_results then results
      else process_cards max_results cards' (extract_business_data c results)
  end.

(* one turn of the while loop: driver.find_elements gives the cards or
   raises; scrolling on (lines 189-195) may raise *)
Record round := mkRound {
  cards : outcome (list card);
  scroll : option exn
}.

(* cards[len(self.results) : len(self.results) + min(5, max - len)] *)
Definition cards_to_process (max_results : Z) (cs : list card)
  (results : list business) : list card :=
  let n := List.length results in
  take (Z.to_nat (Z.min 5 (max_results - Z.of_nat n))) (drop n cs).

(* lines 157-197.  None: the rounds given are used up and the loop is
   still running. *)
Fixpoint scroll_loop (rounds : list round) (max_results last_count idle_rounds : Z)
  (results : list business) : option (outcome (list business)) :=
  if negb (Z.of_nat (List.length results) <? max_results)
  then Some (Returns results)
  else
    match rounds with
    | [] => None
    | r :: rounds' =>
        match cards r with
        | Raises e => Some (Raises e)
        | Returns cs =>
            let current_count := Z.of_nat (List.length cs) in
            let idle := if current_count >? last_count then 0 else idle_rounds + 1 in
            let last := if current_count >? last_count then current_count
                        else last_count in
            let results' :=
              process_cards max_results (cards_to_process max_results cs results)
                results in
            if Z.of_nat (List.length results') >=? max_results
            then Some (Returns results')
            else if idle >=? 5 then Some (Returns results')
            else match scroll r with
                 | Some e => Some (Raises e)
                 | None => scroll_loop rounds' max_results last idle results'
                 end
        end
    end.

(* scroll_hover_and_extract on a scraper that has collected [results];
   [panel] is what looking for the results panel raises, if it does *)
Definition scroll_hover_and_extract (panel : option exn) (rounds : list round)
  (max_results : Z) (results : list business)
  : option (outcome (list business)) :=
  match panel with
  | Some e => Some (Raises e)
  | None => scroll_loop rounds max_results 0 0 results
  end.

(* a driver that raises nothing and never shows more than [n] cards *)
Definition calm (n : nat) (r : round) : Prop :=
  scroll r = None
  /\ exists cs, cards r = Returns cs /\ (List.length cs <= n)%nat.

Definition fieldnames : list string :=
  ["name"; "rating"; "category"; "address"; "phone"; "website"; "email"; "linkedin"].

(* what save_to_csv leaves behind: the value it returns and the file, if
   it wrote one *)
Record saved := mkSaved {
  returned : option string;
  file : option (string * string)
}.

(* writer.writerows: the rows go out one by one; a dict with a key that
   is no field name raises and ends the writing (false), what was written
   before stays *)
Fixpoint write_dicts (dicts : list (gmap string string)) : string * bool :=
  match dicts with
  | [] => (EmptyString, true)
  | d :: dicts' =>
      match Csv.dict_to_list fieldnames d with
      | None => (EmptyString, false)
      | Some row =>
          let '(text, ok) := write_dicts dicts' in
          (Csv.writerow row +:+ text, ok)
      end
  end.

(* lines 382-403.  [timestamp] is the clock formatted as on line 385,
   [opens] tells whether open(filename, "w") succeeds; an exception in
   the try block is caught and None is returned. *)
Definition save_to_csv (results : list business) (filename : option string)
  (timestamp : string) (opens : bool) : saved :=
  let filename :=
    match filename with
    | Some (String c f) => String c f
    | _ => "gmaps_businesses_" +:+ timestamp +:+ ".csv"
    end in
  match results with
  | [] => mkSaved None None
  | _ =>
      if opens then
        let '(text, ok) :=
          write_dicts (list_to_map (zip fieldnames fieldnames) :: map to_dict results) in
        mkSaved (if ok then Some filename else None) (Some (filename, text))
      else mkSaved None None
  end.

(* the values of a business in the order of the columns *)
Definition values (b : business) : list string :=
  [name b; rating b; category b; address b; phone b; website b; email b; linkedin b].

(* a business that has a name *)
Definition named (b : business) : Prop := name b <> EmptyString.

(* a page that shows the cards of [bs] in every round and scrolls *)
Definition steady (bs : list business) (r : round) : Prop :=
  cards r = Returns (map Some bs) /\ scroll r = None.

End Scraper.

(* --------------------------------------------------------------------- *)
(* src/New folder/enhanced_lead_extractor.py: BusinessLeadExtractor.       *)
(* The network is outside: whether Nominatim places the city, what         *)
(* Overpass answers and what a website shows are given.  Case mapping is   *)
(* that of ASCII.                                                          *)
(* --------------------------------------------------------------------- *)

Module Extractor.
Import Text Py.

Definition lower_char (c : ascii) : ascii :=
  let n := nat_of_ascii c in
  if ((65 <=? n) && (n <=? 90))%nat then ascii_of_nat (n + 32) else c.

(* str.lower() *)
Fixpoint lower (s : string) : string :=
  match s with
  | EmptyString => EmptyString
  | String c s' => String (lower_char c) (lower s')
  end.

(* needle in hay *)
Fixpoint contains (needle hay : string) : bool :=
  String.prefix needle hay
  || match hay with
     | EmptyString => false
     | String _ hay' => contains needle hay'
     end.

(* sep.join(l) *)
Fixpoint join (sep : string) (l : list string) : string :=
  match l with
  | [] => EmptyString
  | [x] => x
  | x :: l' => x +:+ sep +:+ join sep l'
  end.

(* lines 26-77, in the order of the dict *)
Definition INDUSTRY_KEYWORDS : list (string * list string) :=
  [("Technology & Software",
    ["software"; "tech"; "technology"; "app"; "saas"; "it"; "digital"; "cyber";
     "development"; "developer"; "programming"; "coding"; "startup"; "innovation"]);
   ("Data & Analytics",
    ["data"; "analytics"; "business intelligence"; "big data"; "database";
     "ai"; "ml"; "machine learning"; "artificial intelligence"; "analysis";
     "statistics"; "research"; "insights"; "metrics"]);
   ("E-commerce & Retail",
    ["ecommerce"; "retail"; "online store"; "marketplace"; "shopping"; "commerce";
     "e-commerce"; "trade"; "sales"; "merchandise"; "fashion"; "goods"]);
   ("Healthcare & Medical",
    ["healthcare"; "medical"; "health"; "clinic"; "hospital"; "pharma"; "biotech";
     "medicine"; "therapy"; "wellness"; "care"; "treatment"; "diagnostic"]);
   ("Financial Services",
    ["finance"; "fintech"; "banking"; "investment"; "insurance"; "accounting";
     "financial"; "credit"; "loan"; "wealth"; "advisory"; "capital"]);
   ("Marketing & Advertising",
    ["marketing"; "advertising"; "agency"; "digital marketing"; "seo"; "social media";
     "branding"; "promotion"; "campaign"; "creative"; "media"; "communications"]);
   ("Consulting & Professional",
    ["consulting"; "professional services"; "advisory"; "consulting firm";
     "business consulting"; "strategy"; "management"; "expertise"; "solutions"]);
   ("Manufacturing & Industrial",
    ["manufacturing"; "industrial"; "factory"; "production"; "engineering";
     "automotive"; "machinery"; "equipment"; "fabrication"; "assembly"]);
   ("Real Estate & Construction",
    ["real estate"; "construction"; "property"; "building"; "architecture";
     "developer"; "contractor"; "residential"; "commercial"; "infrastructure"]);
   ("Education & Training",
    ["education"; "training"; "school"; "university"; "learning"; "educational";
     "teaching"; "academic"; "course"; "certification"; "coaching"]);
   ("Media & Entertainment",
    ["media"; "entertainment"; "broadcasting"; "publishing"; "gaming";
     "content"; "production"; "creative"; "film"; "music"; "streaming"]);
   ("Food & Beverage",
    ["food"; "restaurant"; "catering"; "beverage"; "culinary"; "hospitality";
     "dining"; "kitchen"; "cuisine"; "bar"; "cafe"; "nutrition"])].

(* the cities of HARDCODED_BBOX, lines 86-104 *)
Definition HARDCODED_BBOX : list string :=
  ["New York, USA"; "Los Angeles, USA"; "Chicago, USA"; "London, UK";
   "Paris, France"; "Berlin, Germany"; "Tokyo, Japan"; "Sydney, Australia";
   "Toronto, Canada"; "Dubai, UAE"; "Singapore"; "Mumbai, India";
   "São Paulo, Brazil"; "Mexico City, Mexico"; "Karachi, Pakistan";
   "Istanbul, Turkey"].

(* lines 107-114 *)
Definition REVENUE_INDICATORS : list (string * string) :=
  [("enterprise", "$50M+"); ("corporation", "$25M-50M"); ("inc", "$10M-25M");
   ("llc", "$5M-10M"); ("ltd", "$1M-5M"); ("co", "$1M-5M")].

(* the tags of an OSM element: str to str *)
Abbreviation tags_dict := (gmap string string).

(* tags.get(key, '') *)
Definition tag (tags : tags_dict) (key : string) : string :=
  default EmptyString (tags !! key).

(* the first pair whose key is in the text *)
Fixpoint first_match {A : Type} (table : list (string * A)) (text : string)
  : option A :=
  match table with
  | [] => None
  | (k, v) :: table' => if contains k text then Some v else first_match table' text
  end.

(* lines 215-243 *)
Definition estimate_revenue (name : string) (tags : tags_dict) : string :=
  if negb (nonempty name) then "Undisclosed"
  else
    let name_lower := lower name in
    match first_match REVENUE_INDICATORS name_lower with
    | Some revenue_range => revenue_range
    | None =>
        if existsb (fun indicator => contains indicator name_lower)
             ["enterprise"; "corporation"; "international"; "global"; "holdings"]
        then "$25M-50M"
        else
          let business_type := tag tags "office" in
          if String.eqb business_type "company" then "$10M-25M"
          else if String.eqb business_type "business" then "$5M-10M"
          else if nonempty (tag tags "website") || nonempty (tag tags "contact:website")
          then "$1M-5M"
          else "Undisclosed"
    end.

(* x in [a, b, ...] for strs *)
Definition among (x : string) (l : list string) : bool :=
  existsb (String.eqb x) l.

(* the first industry one of whose keywords is in the text *)
Fixpoint first_industry (table : list (string * list string)) (text : string)
  : option string :=
  match table with
  | [] => None
  | (industry, keywords) :: table' =>
      if existsb (fun keyword => contains (lower keyword) text) keywords
      then Some industry
      else first_industry table' text
  end.

(* lines 245-275 *)
Definition determine_industry (name : string) (tags : tags_dict) : string :=
  if negb (nonempty name) then "Other"
  else
    match first_industry INDUSTRY_KEYWORDS (lower name) with
    | Some industry => industry
    | None =>
        let office_type := lower (tag tags "office") in
        let shop_type := lower (tag tags "shop") in
        let amenity_type := lower (tag tags "amenity") in
        if among office_type ["it"; "software"] then "Technology & Software"
        else if among shop_type ["computer"; "electronics"; "software"]
        then "Technology & Software"
        else if among amenity_type ["bank"] then "Financial Services"
        else if among amenity_type ["clinic"; "hospital"] then "Healthcare & Medical"
        else if among amenity_type ["restaurant"; "cafe"] then "Food & Beverage"
        else if among amenity_type ["school"; "university"] then "Education & Training"
        else "Other"
    end.

(* an element of the Overpass answer: elem.get("type", ''), elem.get("id")
   and elem.get("tags", {}) *)
Record element := mkElement {
  e_type : string;
  e_id : option Z;
  e_tags : tags_dict
}.

(* the dict process_element builds; tags stands for their JSON text *)
Record lead := mkLead {
  osm_type : string;
  osm_id : option Z;
  name : string;
  industry : string;
  location : string;
  website : string;
  phone : string;
  revenue : string;
  emails_found : string;
  extraction_date : string;
  tags : tags_dict
}.

(* a or b on what dict.get returns *)
Definition py_or (a b : option string) : option string :=
  match a with
  | Some (String _ _) => a
  | _ => b
  end.

(* x or '' *)
Definition or_empty (a : option string) : string :=
  match a with
  | Some s => s
  | None => EmptyString
  end.

(* lines 308-349; [city] is self.city, [today] the date of the clock *)
Definition process_element (city today : string) (elem : element) : option lead :=
  let tags := e_tags elem in
  let name := strip (tag tags "name") in
  if negb (nonempty name) then None
  else
    let website :=
      py_or (py_or (tags !! "website") (tags !! "contact:website")) (tags !! "url") in
    let phone :=
      py_or (py_or (tags !! "phone") (tags !! "contact:phone")) (tags !! "telephone") in
    let address_parts :=
      [tag tags "addr:housenumber"; tag tags "addr:street"; tag tags "addr:city";
       tag tags "addr:postcode"; tag tags "addr:country"] in
    let joined := join ", " (List.filter nonempty address_parts) in
    let address := if nonempty joined then joined else tag tags "addr:full" in
    let industry := determine_industry name tags in
    let revenue := estimate_revenue name tags in
    Some (mkLead (e_type elem) (e_id elem) name industry
            (if nonempty address then address else city)
            (or_empty website) (or_empty phone) revenue EmptyString today tags).

(* self.stats *)
Record stats := mkStats {
  total_found : Z;
  with_emails : Z;
  with_websites : Z;
  with_phones : Z;
  with_addresses : Z
}.

Definition no_stats : stats := mkStats 0 0 0 0 0.

Definition set_emails_found (v : string) (r : lead) : lead :=
  mkLead (osm_type r) (osm_id r) (name r) (industry r) (location r) (website r)
         (phone r) (revenue r) v (extraction_date r) (tags r).

Definition bump (b : bool) (z : Z) : Z := if b then z + 1 else z.

(* lines 396-402: the emails of the website, if the lead has one; the
   flag tells whether any was found.  [scrape] is
   scrape_emails_from_website. *)
Definition fetch_emails (scrape : string -> list string) (record : lead)
  : lead * bool :=
  if nonempty (website record) then
    let emails := scrape (website record) in
    match emails with
    | [] => (set_emails_found EmptyString record, false)
    | _ => (set_emails_found (join "; " emails) record, true)
    end
  else (record, false).

(* lines 401-412: the counters after a lead is kept *)
Definition count_lead (city : string) (has_emails : bool) (record : lead)
  (st : stats) : stats :=
  mkStats (total_found st)
          (bump has_emails (with_emails st))
          (bump (nonempty (website record)) (with_websites st))
          (bump (nonempty (phone record)) (with_phones st))
          (bump (nonempty (location record)
                 && negb (String.eqb (location record) city))
                (with_addresses st)).

(* lines 378-415, the loop over the elements; [seen] is seen_names *)
Fixpoint leads_loop (city today : string) (max_results : Z)
  (scrape : string -> list string) (elements : list element)
  (processed : list lead) (seen : gset string) (st : stats)
  : list lead * stats :=
  match elements with
  | [] => (processed, st)
  | elem :: rest =>
      if Z.of_nat (List.length processed) >=? max_results then (processed, st)
      else
        match process_element city today elem with
        | None => leads_loop city today max_results scrape rest processed seen st
        | Some record =>
            if negb (nonempty (name record))
            then leads_loop city today max_results scrape rest processed seen st
            else
              let name_key := strip (lower (name record)) in
              if bool_decide (name_key ∈ seen)
              then leads_loop city today max_results scrape rest processed seen st
              else
                let '(record, has_emails) := fetch_emails scrape record in
                leads_loop city today max_results scrape rest
                  (processed ++ [record]) ({[name_key]} ∪ seen)
                  (count_lead city has_emails record st)
        end
  end.

(* type(v).__name__ *)
Definition type_name (v : json) : string :=
  match v with
  | JNull => "NoneType"
  | JBool _ => "bool"
  | JInt _ => "int"
  | JStr _ => "str"
  | JArr _ => "list"
  | JObj _ => "dict"
  end.

(* str.join on a list of JSON values: the strs, or the TypeError of the
   first item that is none *)
Fixpoint strs_from (i : nat) (l : list json) : exn + list string :=
  match l with
  | [] => inr []
  | JStr s :: l' =>
      match strs_from (S i) l' with
      | inr ss => inr (s :: ss)
      | inl e => inl e
      end
  | v :: _ =>
      inl (mkExn true ("sequence item " +:+ pretty i +:+ ": expected str instance, "
                       +:+ type_name v +:+ " found"))
  end.

(* __init__, line 119: a list is taken as it is, anything else is made
   a list of one *)
Definition as_list (industries : json) : list json :=
  match industries with
  | JArr l => l
  | v => [v]
  end.

(* lines 130-149: Nominatim places the city, or the table does, or the
   process is told to exit *)
Definition get_bbox_for_city (city : string) (nominatim : bool) : option exn :=
  if nominatim then None
  else if bool_decide (city ∈ HARDCODED_BBOX) then None
  else Some (mkExn false ("No fallback bbox available for " +:+ city
                          +:+ ". Please add it to HARDCODED_BBOX.")).

(* lines 351-419.  [overpass] is data.get("elements", []) of what
   query_overpass returns.  The result is what extract_leads returns and
   what is then in self.stats. *)
Definition extract_leads (city : string) (industries : json) (max_results : Z)
  (nominatim : bool) (overpass : list element) (scrape : string -> list string)
  (today : string) : outcome (list lead * stats) :=
  match strs_from 0 (as_list industries) with
  | inl e => Raises e                      (* line 354: ', '.join(...) *)
  | inr _ =>
      match get_bbox_for_city city nominatim with
      | Some e => Raises e
      | None =>
          match overpass with
          | [] => Returns ([], no_stats)
          | _ =>
              let '(processed, st) :=
                leads_loop city today max_results scrape overpass [] ∅ no_stats in
              Returns (processed,
                       mkStats (Z.of_nat (List.length processed)) (with_emails st)
                               (with_websites st) (with_phones st) (with_addresses st))
          end
      end
  end.

(* the entries of a lead that are strs, as the wrapper's records hold them *)
Definition lead_dict (r : lead) : gmap string string :=
  list_to_map
    [("osm_type", osm_type r); ("name", name r); ("industry", industry r);
     ("location", location r); ("website", website r); ("phone", phone r);
     ("revenue", revenue r); ("emails_found", emails_found r);
     ("extraction_date", extraction_date r)].

Definition stats_dict (s : stats) : gmap string Z :=
  list_to_map
    [("total_found", total_found s); ("with_emails", with_emails s);
     ("with_websites", with_websites s); ("with_phones", with_phones s);
     ("with_addresses", with_addresses s)].

(* what the thread of the wrapper gets from the call on line 51 *)
Definition for_job (o : outcome (list lead * stats))
  : outcome (list (gmap string string) * gmap string Z) :=
  match o with
  | Returns (leads, st) => Returns (map lead_dict leads, stats_dict st)
  | Raises e => Raises e
  end.

(* the columns of save_to_csv, lines 432-435, and the row of a lead,
   lines 446-454 *)
Definition fieldnames : list string :=
  ["name"; "industry"; "location"; "email"; "revenue"; "website"; "phone";
   "extraction_date"].

Definition csv_row (r : lead) : gmap string string :=
  list_to_map
    [("name", name r); ("industry", industry r); ("location", location r);
     ("email", emails_found r); ("revenue", revenue r); ("website", website r);
     ("phone", phone r); ("extraction_date", extraction_date r)].

Definition values (r : lead) : list string :=
  [name r; industry r; location r; emails_found r; revenue r; website r;
   phone r; extraction_date r].

(* lines 421-458: the name and the text of the file written, None when
   there are no results and nothing is written.  [generated] is the name
   lines 428-430 make of the city and the clock. *)
Definition save_to_csv (results : list lead) (filename : option string)
  (generated : string) : option (string * string) :=
  match results with
  | [] => None
  | _ =>
      let filename :=
        match filename with
        | Some (String c f) => String c f
        | _ => generated
        end in
      (fun text => (filename, text))
        <$> (Csv.writerows
               <$> mapM (Csv.dict_to_list fieldnames)
                     (list_to_map (zip fieldnames fieldnames) :: map csv_row results))
  end.

(* the key under which a lead is known in seen_names *)
Definition name_key (r : lead) : string := strip (lower (name r)).

(* how many of the leads pass a test *)
Definition count (f : lead -> bool) (l : list lead) : Z :=
  Z.of_nat (List.length (List.filter f l)).


(* the values estimate_revenue can give *)
Definition revenue_ranges : list string :=
  ["Undisclosed"; "$50M+"; "$25M-50M"; "$10M-25M"; "$5M-10M"; "$1M-5M"].

(* the words in a name that settle the estimate *)
Definition revenue_words : list string :=
  ["enterprise"; "corporation"; "inc"; "llc"; "ltd"; "co";
   "international"; "global"; "holdings"].


(* flask_backend_api.py lines 88-94: what GET /api/industries lists *)
Definition get_industries : list string := map fst INDUSTRY_KEYWORDS.

(* the industries determine_industry can name *)
Definition industry_names : list string := get_industries ++ ["Other"].

End Extractor.

(* --------------------------------------------------------------------- *)
(* More histories and inputs used as examples.                             *)
(* --------------------------------------------------------------------- *)

Module Scenario2.
Import Text Py Scenario.

(* thirteen statements in: the job is marked completed, completed_at is
   not yet set *)
Definition gm_window : list GMaps.event :=
  GMaps.POST_scrape cafes "job-1" 100 :: quiet 13.

Definition ld_window : list Leads.event :=
  Leads.POST_extract tech "job-1" 100 :: calm 9.

(* the call on line 51 ends by SystemExit *)
Definition ld_exit : list Leads.event :=
  Leads.POST_extract tech "job-1" 100 :: calm 4 ++ [Leads.Step 0 102 (Raises sys_exit)].

Definition blue : Scraper.business :=
  Scraper.mkBusiness "Blue Door, Cafe" "4.5" "Cafe" "1 Main St" EmptyString
    "https://bluedoor.example" "hi@bluedoor.example" EmptyString.

Definition nameless : Scraper.business :=
  Scraper.mkBusiness EmptyString "3.0" EmptyString EmptyString EmptyString
    EmptyString EmptyString EmptyString.

Definition corner_shop : Scraper.business :=
  Scraper.mkBusiness "Corner" EmptyString EmptyString EmptyString EmptyString
    EmptyString EmptyString EmptyString.

(* the driver shows the same three cards every time *)
Definition three_cards : Scraper.round :=
  Scraper.mkRound (Returns [Some blue; Some nameless; Some corner_shop]) None.

Definition acme_tags : gmap string string :=
  list_to_map [("name", " Acme Holdings "); ("website", "acme.example");
               ("addr:city", "Austin")].


Definition fitness_tags : gmap string string :=
  list_to_map [("name", "Fitness First"); ("amenity", "cafe")].


Definition one_email (url : string) : list string := ["sales@acme.example"].


End Scenario2.

(* --------------------------------------------------------------------- *)
(* Two records through the writer and the reader.                          *)
(* --------------------------------------------------------------------- *)

Example csv_ex1 :
Csv.writerow ["a,b"; EmptyString; "x"]
= Text.chr Text.dquote +:+ "a,b" +:+ Text.chr Text.dquote +:+ ",,x" +:+ Csv.lineterminator.
Proof. reflexivity. Qed.

Example csv_ex2 :
let rows := [["a,b"; EmptyString; "x"]; [EmptyString]; [];
             ["q" +:+ Text.chr Text.dquote; "l" +:+ Csv.lineterminator +:+ "m"]] in
Csv.reader (Csv.writerows rows) = rows.
Proof. reflexivity. Qed.

(* --------------------------------------------------------------------- *)
(* The reader inverts the writer.                                          *)
(* --------------------------------------------------------------------- *)

Module CsvFacts.
Import Text Csv.















End CsvFacts.

(* --------------------------------------------------------------------- *)
(* Facts shared by the two wrappers.                                       *)
(* --------------------------------------------------------------------- *)

Module Common.
Import Text Py Order.

Lemma Status_eqb_eq (a b : Status) : Status_eqb a b = true <-> a = b.
Proof. destruct a, b; simpl; split; intros H; congruence. Qed.

Lemma Status_eqb_neq (a b : Status) : Status_eqb a b = false <-> a <> b.
Proof. destruct a, b; simpl; split; intros H; congruence. Qed.


Lemma nonempty_true (s : string) : nonempty s = true <-> s <> EmptyString.
Proof. destruct s; simpl; split; intros H; congruence. Qed.

(* a terminal status has no successor *)
Lemma forward1_not_terminal (a b : Status) :
  forward1 a b -> terminal a = false.
Proof. by destruct 1. Qed.

Lemma forward_terminal (a b : Status) :
  forward a b -> terminal a = true -> b = a.
Proof.
  intros H Ht. destruct H as [|a b c H1 _]; [reflexivity |].
  apply forward1_not_terminal in H1. congruence.
Qed.

(* the generator sum counts the rows whose field is not blank *)
Lemma fold_add_shift (l : list Z) (a : Z) :
  fold_left Z.add l a = a + fold_left Z.add l 0.
Proof.
  revert a. induction l as [|x l IH]; intros a; simpl; [lia |].
  rewrite (IH (a + x)), (IH (0 + x)). lia.
Qed.

Lemma sum_if_get_count (key : string) (rows : list (gmap string string)) :
  sum_if_get key rows = Z.of_nat (List.length (List.filter (blank_free key) rows)).
Proof.
  unfold sum_if_get. induction rows as [|r rows IH]; [reflexivity |].
  simpl flat_map. simpl List.filter. unfold blank_free at 1.
  destruct (nonempty (default EmptyString (r !! key))).
  - simpl. rewrite fold_add_shift, IH. simpl List.length. lia.
  - simpl. exact IH.
Qed.

(* a row built from the field names has no extra key, and every field *)
Lemma dict_to_list_comprehension (names : list string) (g : string -> string) :
  NoDup names ->
  Csv.dict_to_list names (list_to_map (map (fun f => (f, g f)) names))
  = Some (map g names).
Proof.
  intros Hnd. unfold Csv.dict_to_list.
  set (m := list_to_map (map (fun f => (f, g f)) names) : gmap string string).
  assert (Hfst : (map (fun f => (f, g f)) names).*1 = names).
  { clear. induction names as [|a l IH]; [reflexivity |].
    simpl. f_equal. exact IH. }
  assert (Hkeys : forallb (fun k => bool_decide (k ∈ names))
                    (map fst (map_to_list m)) = true).
  { apply forallb_forall. intros k Hk. apply bool_decide_eq_true.
    apply in_map_iff in Hk as [[k' v] [<- Hkv]]. simpl.
    apply list_elem_of_In, elem_of_map_to_list in Hkv.
    apply elem_of_list_to_map_2 in Hkv.
    apply list_elem_of_In, in_map_iff in Hkv as [f [[= <- _] Hf]].
    by apply list_elem_of_In. }
  rewrite Hkeys. f_equal. apply map_ext_in. intros k Hk.
  assert (m !! k = Some (g k)) as ->; [| reflexivity].
  apply elem_of_list_to_map_1; [by rewrite Hfst |].
  apply list_elem_of_In, in_map_iff. eauto.
Qed.

Lemma mapM_map {A B : Type} (f : A -> option B) (g : A -> B) (l : list A) :
  (forall x, In x l -> f x = Some (g x)) -> mapM f l = Some (map g l).
Proof.
  induction l as [|a l IH]; intros H; [reflexivity |].
  simpl. rewrite (H a) by (by left). simpl.
  rewrite IH by (intros x Hx; apply H; by right). reflexivity.
Qed.

End Common.

(* --------------------------------------------------------------------- *)
(* The Google Maps wrapper.                                                *)
(* --------------------------------------------------------------------- *)

Module GMapsFacts.
Import Text Py Order Common GMaps.

Lemma NoDup_fieldnames : NoDup fieldnames.
Proof. by apply (bool_decide_unpack _). Qed.





Lemma lookup_cleaned (result : record) (field : string) :
  In field fieldnames ->
  get_field (cleaned_result result) field = get_field result field.
Proof.
  intros H. unfold get_field at 1.
  assert (cleaned_result result !! field = Some (get_field result field)) as ->;
    [| reflexivity].
  change (cleaned_result result)
    with (list_to_map (map (fun f => (f, get_field result f)) fieldnames) : record).
  apply elem_of_list_to_map_1.
  - assert ((map (fun f => (f, get_field result f)) fieldnames).*1 = fieldnames) as ->
      by reflexivity.
    apply NoDup_fieldnames.
  - apply list_elem_of_In, in_map_iff. eauto.
Qed.

(* ---- one statement of the thread ---- *)

Ltac step_cases p o :=
  destruct p as [| | | ?q | ?q | ?q | ?q | | | ?rs | ?rs | ?cl | | | | | [?e|] | ?e | ?e | ?e | | | ?e];
  simpl; try (destruct o as [?rows | ?e0]; simpl);
  unfold except_Exception;
  repeat match goal with
    | |- context [is_Exception ?e] => destruct (is_Exception e); simpl
    end.

Lemma thread_step_job_id now o p j :
  job_id (thread_step now o p j).2 = job_id j.
Proof. step_cases p o; reflexivity. Qed.

Lemma thread_step_created_at now o p j :
  created_at (thread_step now o p j).2 = created_at j.
Proof. step_cases p o; reflexivity. Qed.

Lemma thread_step_inv now o p j :
  pc_inv p j -> pc_inv (thread_step now o p j).1 (thread_step now o p j).2.
Proof.
  step_cases p o; intros H; destruct_and?; try destruct H as [H | H]; destruct_and?;
    repeat split; eauto; try congruence.
  all: try (left; repeat split; eauto; congruence).
  all: try (right; repeat split; eauto; congruence).
Qed.

Lemma thread_step_status now o p j :
  pc_inv p j ->
  status (thread_step now o p j).2 = status j
  \/ forward1 (status j) (status (thread_step now o p j).2).
Proof.
  step_cases p o; intros H; destruct_and?; auto.
  all: right; simpl;
    match goal with H : status _ = _ |- _ => rewrite H end; constructor.
Qed.

(* a thread that has ended stays where it is *)
Lemma thread_step_finished now o p j :
  finished p = true -> thread_step now o p j = (p, j).
Proof. destruct p; simpl; intros H; congruence. Qed.

(* ---- the process ---- *)

Lemma wf_thread srv tid t :
  wf srv -> threads srv !! tid = Some t ->
  t_job t = tid /\ (tid < List.length (heap srv))%nat.
Proof.
  intros Hwf Ht.
  assert ((t_job <$> threads srv) !! tid = Some (t_job t)) as H
    by (by rewrite list_lookup_fmap, Ht).
  rewrite (wf_threads _ Hwf) in H. apply lookup_seq in H. simpl in H. lia.
Qed.

Lemma wf_init : wf init.
Proof.
  split; simpl.
  - reflexivity.
  - intros id r H. by rewrite lookup_empty in H.
  - intros tid t j H. by rewrite lookup_nil in H.
Qed.

Lemma wf_register srv id job :
  wf srv -> pc_inv L45 job -> job_id job = id -> wf (register srv id job).
Proof.
  intros Hwf Hpc Hid. split; simpl.
  - rewrite fmap_app, length_app, (wf_threads _ Hwf). simpl.
    rewrite Nat.add_1_r, seq_S. reflexivity.
  - intros id' r H. destruct (decide (id = id')) as [<- | Hne].
    + rewrite lookup_insert_eq in H. injection H as <-.
      exists job. split; [| assumption].
      rewrite lookup_app_r by lia. by rewrite Nat.sub_diag.
    + rewrite lookup_insert_ne in H by assumption.
      destruct (wf_table _ Hwf _ _ H) as (j & Hj & Hjid).
      exists j. split; [| assumption]. by apply lookup_app_l_Some.
  - intros tid t j Ht Hj.
    assert (Hlen : List.length (threads srv) = List.length (heap srv)).
    { rewrite <- (length_fmap t_job), (wf_threads _ Hwf). apply length_seq. }
    apply lookup_app_Some in Ht as [Ht | [Hge Ht]].
    + destruct (wf_thread _ _ _ Hwf Ht) as [Htj Hlt].
      rewrite lookup_app_l in Hj by lia. by apply (wf_pc _ Hwf tid).
    + apply list_lookup_singleton_Some in Ht as [_ <-]. simpl in *.
      rewrite lookup_app_r in Hj by lia. rewrite Nat.sub_diag in Hj.
      injection Hj as <-. exact Hpc.
Qed.

Lemma wf_step_thread srv tid now o :
  wf srv -> wf (step_thread srv tid now o).
Proof.
  intros Hwf. unfold step_thread.
  destruct (threads srv !! tid) as [t|] eqn:Ht; [| assumption].
  destruct (heap srv !! t_job t) as [j|] eqn:Hj; [| assumption].
  destruct (thread_step now o (t_pc t) j) as [p' j'] eqn:Hstep.
  destruct (wf_thread _ _ _ Hwf Ht) as [Htj Hlt].
  pose proof (thread_step_inv now o _ _ (wf_pc _ Hwf _ _ _ Ht Hj)) as Hinv.
  pose proof (thread_step_job_id now o (t_pc t) j) as Hid.
  rewrite Hstep in Hinv, Hid. simpl in Hinv, Hid.
  split; simpl.
  - rewrite list_fmap_insert, length_insert. simpl.
    rewrite list_insert_id; [apply (wf_threads _ Hwf) |].
    by rewrite list_lookup_fmap, Ht.
  - intros id r H. destruct (wf_table _ Hwf _ _ H) as (j0 & Hj0 & Hjid).
    destruct (decide (r = t_job t)) as [-> | Hne].
    + exists j'. rewrite list_lookup_insert_eq by lia. split; [reflexivity |].
      congruence.
    + exists j0. by rewrite list_lookup_insert_ne.
  - intros tid' t' j0 Ht' Hj0.
    destruct (decide (tid' = tid)) as [-> | Hne].
    + rewrite list_lookup_insert_eq in Ht' by (by eapply lookup_lt_Some).
      injection Ht' as <-. simpl in *.
      rewrite list_lookup_insert_eq in Hj0 by lia. by injection Hj0 as <-.
    + rewrite list_lookup_insert_ne in Ht' by congruence.
      destruct (wf_thread _ _ _ Hwf Ht') as [Htj' _].
      rewrite list_lookup_insert_ne in Hj0 by lia.
      by apply (wf_pc _ Hwf tid').
Qed.

(* a submission either changes nothing and is refused, or registers a
   fresh pending job under the id it returns *)
Lemma start_scraping_inv srv data uuid now srv' r :
  start_scraping srv data uuid now = (srv', r) ->
  (srv' = srv /\ (code r = 400 \/ code r = 500) /\ exists e, payload r = Failure e)
  \/ (exists location country state business_type max_results message,
        converts data location country state business_type max_results
        /\ srv' = register srv uuid
                    (new_job uuid (strip location) (strip country) (strip state)
                       (strip business_type) max_results now)
        /\ r = ok (Started uuid message)).
Proof.
  unfold start_scraping, and_then, py_strip.
  destruct (get data "location" (JStr EmptyString)) as [| | |loc| |] eqn:H1;
    try (intros [= <- <-]; left; simpl; eauto 6).
  destruct (get data "country" (JStr EmptyString)) as [| | |cou| |] eqn:H2;
    try (intros [= <- <-]; left; simpl; eauto 6).
  destruct (get data "state" (JStr EmptyString)) as [| | |sta| |] eqn:H3;
    try (intros [= <- <-]; left; simpl; eauto 6).
  destruct (get data "business_type" (JStr EmptyString)) as [| | |bt| |] eqn:H4;
    try (intros [= <- <-]; left; simpl; eauto 6).
  destruct (py_int (get data "max_results" (JInt 50))) as [e|z] eqn:H5;
    [intros [= <- <-]; left; simpl; eauto 6 |].
  destruct (nonempty (strip loc)); simpl;
    [| intros [= <- <-]; left; simpl; eauto 6].
  destruct (nonempty (strip bt)); simpl;
    [| intros [= <- <-]; left; simpl; eauto 6].
  destruct (bool_decide (z ∈ allowed_max_results)); simpl;
    [| intros [= <- <-]; left; simpl; eauto 6].
  intros [= <- <-]. right. exists loc, cou, sta, bt, z. eexists.
  split; [by constructor | split; reflexivity].
Qed.

Lemma wf_exec srv ev : wf srv -> wf (exec srv ev).1.
Proof.
  intros Hwf. destruct ev as [data uuid now | id | id | id ts | tid now o]; simpl;
    try assumption.
  - destruct (start_scraping srv data uuid now) as [srv' r] eqn:Hs. simpl.
    apply start_scraping_inv in Hs
      as [(-> & _) | (l & c & st & b & z & m & _ & -> & _)]; [assumption |].
    apply wf_register; [assumption | | reflexivity].
    simpl. auto.
  - by apply wf_step_thread.
Qed.

Lemma run_app srv evs1 evs2 : run srv (evs1 ++ evs2) = run (run srv evs1) evs2.
Proof. apply fold_left_app. Qed.

Lemma wf_run srv evs : wf srv -> wf (run srv evs).
Proof.
  revert srv. induction evs as [|ev evs IH]; intros srv Hwf; [assumption |].
  simpl. apply IH. by apply wf_exec.
Qed.

(* ---- what a history does to a job object, to the table, to the ids ---- *)

Lemma step_thread_heap srv tid now o r j :
  wf srv -> heap srv !! r = Some j ->
  exists j', heap (step_thread srv tid now o) !! r = Some j'
    /\ job_id j' = job_id j
    /\ (status j' = status j \/ forward1 (status j) (status j')).
Proof.
  intros Hwf Hr. unfold step_thread.
  destruct (threads srv !! tid) as [t|] eqn:Ht; [| eauto].
  destruct (heap srv !! t_job t) as [j0|] eqn:Hj; [| eauto].
  destruct (thread_step now o (t_pc t) j0) as [p' j'] eqn:Hstep. simpl.
  destruct (decide (r = t_job t)) as [-> | Hne].
  - assert (j0 = j) as -> by congruence.
    exists j'. rewrite list_lookup_insert_eq by (by eapply lookup_lt_Some).
    pose proof (thread_step_job_id now o (t_pc t) j) as Hid.
    pose proof (thread_step_status now o _ _ (wf_pc _ Hwf _ _ _ Ht Hj)) as Hst.
    rewrite Hstep in Hid, Hst. auto.
  - exists j. rewrite list_lookup_insert_ne by congruence. auto.
Qed.

Lemma exec_heap srv ev r j :
  wf srv -> heap srv !! r = Some j ->
  exists j', heap (exec srv ev).1 !! r = Some j'
    /\ job_id j' = job_id j
    /\ (status j' = status j \/ forward1 (status j) (status j')).
Proof.
  intros Hwf Hr.
  destruct ev as [data uuid now | id | id | id ts | tid now o]; simpl; eauto.
  - destruct (start_scraping srv data uuid now) as [srv' rsp] eqn:Hs. simpl.
    apply start_scraping_inv in Hs
      as [(-> & _) | (l & c & st & b & z & m & _ & -> & _)]; [eauto |].
    exists j. simpl. split; [by apply lookup_app_l_Some | auto].
  - by apply step_thread_heap.
Qed.

Lemma run_heap evs : forall srv r j,
  wf srv -> heap srv !! r = Some j ->
  exists j', heap (run srv evs) !! r = Some j'
    /\ job_id j' = job_id j /\ forward (status j) (status j').
Proof.
  induction evs as [|ev evs IH]; intros srv r j Hwf Hr.
  - exists j. repeat split; [assumption | apply rtc_refl].
  - destruct (exec_heap srv ev r j Hwf Hr) as (j1 & H1 & Hid1 & Hst1).
    destruct (IH _ r j1 (wf_exec srv ev Hwf) H1) as (j2 & H2 & Hid2 & Hst2).
    exists j2. simpl. split; [assumption |]. split; [congruence |].
    destruct Hst1 as [Heq | Hf].
    + by rewrite <- Heq.
    + eapply rtc_l; eassumption.
Qed.

Lemma exec_table srv ev id :
  id ∉ uuids [ev] ->
  scraping_jobs (exec srv ev).1 !! id = scraping_jobs srv !! id.
Proof.
  intros Hid.
  destruct ev as [data uuid now | ? | ? | ? ? | tid now o]; simpl; try reflexivity.
  - destruct (start_scraping srv data uuid now) as [srv' rsp] eqn:Hs. simpl.
    apply start_scraping_inv in Hs
      as [(-> & _) | (l & c & st & b & z & m & _ & -> & _)]; [reflexivity |].
    simpl. apply lookup_insert_ne. intros ->. apply Hid. simpl. set_solver.
  - unfold step_thread. repeat case_match; reflexivity.
Qed.

Lemma uuids_cons ev evs : uuids (ev :: evs) = uuids [ev] ++ uuids evs.
Proof. unfold uuids. simpl. by rewrite app_nil_r. Qed.

Lemma uuids_app evs1 evs2 : uuids (evs1 ++ evs2) = uuids evs1 ++ uuids evs2.
Proof. unfold uuids. apply flat_map_app. Qed.

Lemma run_table evs : forall srv id,
  id ∉ uuids evs ->
  scraping_jobs (run srv evs) !! id = scraping_jobs srv !! id.
Proof.
  induction evs as [|ev evs IH]; intros srv id Hid; [reflexivity |].
  rewrite uuids_cons in Hid. apply not_elem_of_app in Hid as [H1 H2].
  simpl. rewrite IH by assumption. by apply exec_table.
Qed.

(* the ids a history hands out, one event at a time *)
Lemma issued_cons srv ev evs :
  issued srv (ev :: evs)
  = match (exec srv ev).2 with
    | Some (mkResponse _ (Started id _)) => [id]
    | _ => []
    end ++ issued (exec srv ev).1 evs.
Proof.
  simpl. destruct (exec srv ev) as [srv' [[c []]|]]; reflexivity.
Qed.

(* an event hands out an id exactly when it registers a job under it *)
Lemma exec_issue srv ev :
  ((exec srv ev).1 = srv \/ exists tid now o, ev = Step tid now o) /\
    match (exec srv ev).2 with
    | Some (mkResponse _ (Started id _)) => False
    | _ => True
    end
  \/ exists data uuid now job,
       ev = POST_scrape data uuid now /\ job_id job = uuid
       /\ (exec srv ev).1 = register srv uuid job
       /\ exists m, (exec srv ev).2 = Some (ok (Started uuid m)).
Proof.
  destruct ev as [data uuid now | id | id | id ts | tid now o]; simpl.
  - destruct (start_scraping srv data uuid now) as [srv' rsp] eqn:Hs. simpl.
    apply start_scraping_inv in Hs
      as [(-> & _ & e & He) | (l & c & st & b & z & m & _ & -> & ->)].
    + left. split; [by left |]. destruct rsp as [c p]. simpl in He. by subst p.
    + right.
      exists data, uuid, now,
        (new_job uuid (strip l) (strip c) (strip st) (strip b) z now).
      split; [reflexivity |].
      split; [reflexivity |]. split; [reflexivity |]. by exists m.
  - left. split; [by left |]. unfold get_job_status.
    repeat case_match; try exact I; unfold ok in *; simplify_eq.
  - left. split; [by left |]. unfold get_results.
    repeat case_match; try exact I; unfold ok in *; simplify_eq.
  - left. split; [by left |]. unfold download_csv.
    repeat case_match; try exact I; unfold ok in *; simplify_eq.
  - left. split; [right; eauto | exact I].
Qed.

Lemma step_thread_ids srv tid now o :
  job_id <$> heap (step_thread srv tid now o) = job_id <$> heap srv.
Proof.
  unfold step_thread.
  destruct (threads srv !! tid) as [t|] eqn:Ht; [| reflexivity].
  destruct (heap srv !! t_job t) as [j|] eqn:Hj; [| reflexivity].
  destruct (thread_step now o (t_pc t) j) as [p' j'] eqn:Hstep. simpl.
  rewrite list_fmap_insert. apply list_insert_id.
  rewrite list_lookup_fmap, Hj. simpl. f_equal.
  pose proof (thread_step_job_id now o (t_pc t) j) as Hid.
  by rewrite Hstep in Hid.
Qed.

Lemma run_ids evs : forall srv,
  job_id <$> heap (run srv evs) = (job_id <$> heap srv) ++ issued srv evs.
Proof.
  induction evs as [|ev evs IH]; intros srv.
  - simpl. by rewrite app_nil_r.
  - rewrite issued_cons. simpl run. rewrite IH.
    destruct (exec_issue srv ev)
      as [[Hsame Hno] | (data & uuid & now & job & -> & Hid & Hreg & m & Hrsp)].
    + assert (job_id <$> heap (exec srv ev).1 = job_id <$> heap srv) as ->.
      { destruct Hsame as [-> | (tid & now & o & ->)]; [reflexivity |].
        apply step_thread_ids. }
      destruct (exec srv ev).2 as [[c []]|]; try reflexivity. destruct Hno.
    + rewrite Hreg, Hrsp. unfold register. cbn [heap]. rewrite fmap_app.
      cbn. rewrite Hid, <- app_assoc. reflexivity.
Qed.

Lemma issued_sublist evs : forall srv, issued srv evs `sublist_of` uuids evs.
Proof.
  induction evs as [|ev evs IH]; intros srv; [constructor |].
  rewrite issued_cons, uuids_cons. apply sublist_app; [| apply IH].
  destruct (exec_issue srv ev)
    as [[_ Hno] | (data & uuid & now & job & -> & _ & _ & m & Hrsp)].
  - destruct (exec srv ev).2 as [[c []]|]; try apply sublist_nil_l. destruct Hno.
  - rewrite Hrsp. simpl. reflexivity.
Qed.

(* the table only knows ids that were handed out *)
Lemma run_table_issued evs : forall srv id r,
  scraping_jobs (run srv evs) !! id = Some r ->
  scraping_jobs srv !! id = Some r \/ id ∈ issued srv evs.
Proof.
  induction evs as [|ev evs IH]; intros srv id r H; [by left |].
  simpl in H. apply IH in H as [H | H].
  - rewrite issued_cons.
    destruct (exec_issue srv ev)
      as [[Hsame _] | (data & uuid & now & job & -> & Hid & Hreg & m & Hrsp)].
    + left. destruct Hsame as [<- | (tid & now & o & ->)]; [assumption |].
      simpl in H. unfold step_thread in H. repeat case_match; assumption.
    + rewrite Hreg in H. rewrite Hrsp. simpl in H |- *.
      destruct (decide (uuid = id)) as [-> | Hne]; [right; set_solver |].
      rewrite lookup_insert_ne in H by assumption. by left.
  - right. rewrite issued_cons. set_solver.
Qed.

(* ---- the thread from start to end ---- *)

Ltac script_cases ctor search extract :=
  destruct ctor as [?r|[[] ?m]], search as [?r|[[] ?m]], extract as [?r|[[] ?m]].

Lemma run_terminates ctor search extract now j :
  finished (run_scraping_job ctor search extract now j).1 = true.
Proof. script_cases ctor search extract; reflexivity. Qed.

Lemma run_success ctor search rows now j :
  first_raise ctor search (Returns rows) = None ->
  run_scraping_job ctor search (Returns rows) now j
  = (Done, mkJob (job_id j) (location j) (country j) (state j) (business_type j)
             (max_results j) completed 100 (map cleaned_result rows)
             (error_message j) (created_at j) (Some now)).
Proof.
  destruct ctor as [r1|e1], search as [r2|e2]; intros H;
    try discriminate H; reflexivity.
Qed.

Lemma run_caught ctor search extract now j e :
  first_raise ctor search extract = Some e -> is_Exception e = true ->
  run_scraping_job ctor search extract now j
  = (Done, mkJob (job_id j) (location j) (country j) (state j) (business_type j)
             (max_results j) failed 0 (results j) (Some (str e))
             (created_at j) (completed_at j)).
Proof.
  intros H He. script_cases ctor search extract;
    cbn [first_raise] in H; try discriminate H; injection H as <-;
    try discriminate He; reflexivity.
Qed.

Lemma run_uncaught ctor search extract now j e :
  first_raise ctor search extract = Some e -> is_Exception e = false ->
  exists p, run_scraping_job ctor search extract now j
            = (Died e, set_progress p (set_status running j))
            /\ (p = 10 \/ p = 20 \/ p = 40).
Proof.
  intros H He. script_cases ctor search extract;
    cbn [first_raise] in H; try discriminate H; injection H as <-;
    try discriminate He.
  all: first [ exists 10; split; [reflexivity | auto]
             | exists 20; split; [reflexivity | auto]
             | exists 40; split; [reflexivity | auto] ].
Qed.

(* ---- the read handlers ---- *)

Lemma not_ready srv id j ts :
  lookup_job srv id = Some j -> status j <> completed ->
  get_results srv id = mkResponse 400 (Failure (Msg "Job not completed yet"))
  /\ download_csv srv id ts = mkResponse 400 (Failure (Msg "Job not completed yet")).
Proof.
  intros Hj Hst. unfold get_results, download_csv. rewrite Hj.
  apply Status_eqb_neq in Hst. rewrite Hst. by split.
Qed.

Lemma not_found srv id ts :
  scraping_jobs srv !! id = None ->
  get_job_status srv id = mkResponse 404 (Failure (Msg "Job not found"))
  /\ get_results srv id = mkResponse 404 (Failure (Msg "Job not found"))
  /\ download_csv srv id ts = mkResponse 404 (Failure (Msg "Job not found")).
Proof.
  intros H. unfold get_job_status, get_results, download_csv, lookup_job.
  rewrite H. by repeat split.
Qed.




Lemma statistics_counts srv id j :
  lookup_job srv id = Some j -> status j = completed ->
  get_results srv id
  = ok (ResultsView id (results j)
          (mkStats (Z.of_nat (List.length (results j)))
             (Z.of_nat (List.length (List.filter (blank_free "email") (results j))))
             (Z.of_nat (List.length (List.filter (blank_free "website") (results j))))
             (Z.of_nat (List.length (List.filter (blank_free "linkedin") (results j))))))
  /\ forall t, completed_at j = Some t ->
     get_job_status srv id
     = ok (StatusView id completed (progress j) (created_at j)
             (CompletedExtra t (Z.of_nat (List.length (results j)))
                (Z.of_nat (List.length (List.filter (blank_free "email") (results j))))
                (Z.of_nat (List.length (List.filter (blank_free "website") (results j)))))).
Proof.
  intros Hj Hst. split.
  - unfold get_results. rewrite Hj, Hst. simpl.
    by rewrite !sum_if_get_count.
  - intros t Ht. unfold get_job_status. rewrite Hj, Hst, Ht.
    by rewrite !sum_if_get_count.
Qed.

(* ---- histories ---- *)

Lemma wf_reach evs : wf (run init evs).
Proof. apply wf_run, wf_init. Qed.

Lemma wf_lengths srv : wf srv -> List.length (threads srv) = List.length (heap srv).
Proof.
  intros Hwf. rewrite <- (length_fmap t_job), (wf_threads _ Hwf). apply length_seq.
Qed.

(* the thread of a job object *)
Lemma wf_thread_of srv r j :
  wf srv -> heap srv !! r = Some j ->
  exists t, threads srv !! r = Some t /\ t_job t = r /\ pc_inv (t_pc t) j.
Proof.
  intros Hwf Hj.
  destruct (lookup_lt_is_Some_2 (threads srv) r) as [t Ht].
  { rewrite (wf_lengths _ Hwf). by eapply lookup_lt_Some. }
  destruct (wf_thread _ _ _ Hwf Ht) as [Htj _].
  exists t. split; [assumption |]. split; [assumption |].
  apply (wf_pc _ Hwf r); [assumption | by rewrite Htj].
Qed.

Lemma status_forward evs1 evs2 id j1 :
  NoDup (uuids (evs1 ++ evs2)) ->
  lookup_job (run init evs1) id = Some j1 ->
  exists j2,
    lookup_job (run init (evs1 ++ evs2)) id = Some j2
    /\ forward (status j1) (status j2)
    /\ (terminal (status j1) = true -> status j2 = status j1)
    /\ exists tid, runs (run init (evs1 ++ evs2)) id tid
         /\ forall tid', runs (run init (evs1 ++ evs2)) id tid' -> tid' = tid.
Proof.
  intros Hnd Hj1. unfold lookup_job in Hj1.
  destruct (scraping_jobs (run init evs1) !! id) as [r|] eqn:Hr;
    simpl in Hj1; [| discriminate].
  pose proof (wf_reach evs1) as Hwf1.
  pose proof (wf_reach (evs1 ++ evs2)) as Hwf2.
  assert (Hin : id ∈ uuids evs1).
  { apply run_table_issued in Hr as [Hr | Hr];
      [simpl in Hr; by rewrite lookup_empty in Hr |].
    eapply elem_of_sublist; [exact Hr | apply issued_sublist]. }
  assert (Hout : id ∉ uuids evs2).
  { rewrite uuids_app in Hnd. apply NoDup_app in Hnd as (_ & Hd & _). by apply Hd. }
  destruct (run_heap evs2 _ r j1 Hwf1 Hj1) as (j2 & Hj2 & Hid2 & Hfw).
  destruct (wf_table _ Hwf1 _ _ Hr) as (j1' & Hj1' & Hid1).
  assert (j1' = j1) as -> by congruence.
  rewrite run_app in *.
  assert (Hr2 : scraping_jobs (run (run init evs1) evs2) !! id = Some r)
    by (by rewrite run_table).
  exists j2. split; [unfold lookup_job; by rewrite Hr2 |].
  split; [assumption |].
  split; [intros Ht; by apply (forward_terminal _ _ Hfw) |].
  destruct (wf_thread_of _ r j2 Hwf2 Hj2) as (t & Ht & Htj & _).
  exists r. split.
  - exists t, j2. rewrite Htj. repeat split; [assumption .. | congruence].
  - intros tid' (t' & j' & Ht' & Hj' & Hid').
    destruct (wf_thread _ _ _ Hwf2 Ht') as [Htj' _]. rewrite Htj' in Hj'.
    assert (Hids : NoDup (job_id <$> heap (run (run init evs1) evs2))).
    { rewrite <- run_app, run_ids. simpl.
      eapply sublist_NoDup; [exact Hnd | apply issued_sublist]. }
    apply (NoDup_lookup _ tid' r id Hids).
    + by rewrite list_lookup_fmap, Hj', <- Hid'.
    + rewrite list_lookup_fmap, Hj2. simpl. congruence.
Qed.

Lemma never_issued evs id ts :
  id ∉ issued init evs ->
  get_job_status (run init evs) id = mkResponse 404 (Failure (Msg "Job not found"))
  /\ get_results (run init evs) id = mkResponse 404 (Failure (Msg "Job not found"))
  /\ download_csv (run init evs) id ts = mkResponse 404 (Failure (Msg "Job not found")).
Proof.
  intros Hid. apply not_found.
  destruct (scraping_jobs (run init evs) !! id) as [r|] eqn:Hr; [| reflexivity].
  apply run_table_issued in Hr as [Hr | Hr];
    [simpl in Hr; by rewrite lookup_empty in Hr | done].
Qed.

Lemma exec_known srv ev id :
  is_Some (scraping_jobs srv !! id) -> is_Some (scraping_jobs (exec srv ev).1 !! id).
Proof.
  intros H.
  destruct ev as [data uuid now | ? | ? | ? ? | tid now o]; simpl; try assumption.
  - destruct (start_scraping srv data uuid now) as [srv' rsp] eqn:Hs. simpl.
    apply start_scraping_inv in Hs
      as [(-> & _) | (l & c & st & b & z & m & _ & -> & _)]; [assumption |].
    simpl. rewrite lookup_insert. case_decide; [eauto | assumption].
  - unfold step_thread. repeat case_match; assumption.
Qed.

Lemma run_known evs : forall srv id,
  is_Some (scraping_jobs srv !! id) -> is_Some (scraping_jobs (run srv evs) !! id).
Proof.
  induction evs as [|ev evs IH]; intros srv id H; [assumption |].
  simpl. apply IH. by apply exec_known.
Qed.

Lemma known_status srv id :
  wf srv -> is_Some (scraping_jobs srv !! id) ->
  (exists j, lookup_job srv id = Some j)
  /\ (code (get_job_status srv id) = 200 \/ code (get_job_status srv id) = 500).
Proof.
  intros Hwf [r Hr]. destruct (wf_table _ Hwf _ _ Hr) as (j & Hj & _).
  assert (Hl : lookup_job srv id = Some j) by (unfold lookup_job; by rewrite Hr).
  split; [eauto |]. unfold get_job_status. rewrite Hl.
  destruct (status j); simpl; auto. destruct (completed_at j); simpl; auto.
Qed.

Lemma registered evs0 data uuid now srv' c id m :
  start_scraping (run init evs0) data uuid now = (srv', mkResponse c (Started id m)) ->
  (exists r j, scraping_jobs srv' !! id = Some r /\ heap srv' !! r = Some j
     /\ job_id j = id /\ status j = pending /\ progress j = 0
     /\ threads srv' !! r = Some (mkThread r L45))
  /\ forall evs, code (get_job_status (run srv' evs) id) <> 404.
Proof.
  intros Hs. pose proof (wf_reach evs0) as Hwf0.
  assert (Hwf' : wf srv').
  { pose proof (wf_exec _ (POST_scrape data uuid now) Hwf0) as H.
    simpl in H. by rewrite Hs in H. }
  apply start_scraping_inv in Hs
    as [(_ & _ & e & He) | (l & co & st & b & z & m' & _ & -> & Hrsp)];
    [discriminate He |].
  injection Hrsp as -> -> ->.
  split.
  - exists (List.length (heap (run init evs0))). eexists.
    split; [apply lookup_insert_eq |]. simpl.
    split; [rewrite lookup_app_r by lia; by rewrite Nat.sub_diag |].
    repeat split.
    rewrite <- (wf_lengths _ Hwf0) at 1.
    rewrite lookup_app_r by lia. by rewrite Nat.sub_diag.
  - intros evs.
    destruct (known_status (run (register (run init evs0) uuid
                (new_job uuid (strip l) (strip co) (strip st) (strip b) z now)) evs) uuid)
      as [_ [H | H]].
    + by apply wf_run.
    + apply run_known. simpl. rewrite lookup_insert_eq. eauto.
    + rewrite H. lia.
    + rewrite H. lia.
Qed.

Lemma completed_at_inv evs r j :
  heap (run init evs) !! r = Some j ->
  (is_Some (completed_at j) -> status j = completed)
  /\ (status j = failed -> completed_at j = None)
  /\ (status j = pending \/ status j = running -> completed_at j = None)
  /\ exists t, threads (run init evs) !! r = Some t
       /\ (t_pc t = Done -> status j = completed -> is_Some (completed_at j)).
Proof.
  intros Hj. destruct (wf_thread_of _ r j (wf_reach evs) Hj) as (t & Ht & _ & Hpc).
  assert (Hcases : (completed_at j = None \/ status j = completed)
                   /\ (t_pc t = Done -> status j = completed -> is_Some (completed_at j))).
  { destruct (t_pc t) as [| | | | | | | | | | | | | | | | [|] | | | | | |];
      simpl in Hpc; try destruct Hpc as [Hpc | Hpc]; destruct_and?;
      (split; [by auto | intros; by (congruence || eauto)]). }
  destruct Hcases as [Hc Hd].
  split; [intros [x Hx]; destruct Hc; congruence |].
  split; [intros Hf; destruct Hc; congruence |].
  split; [intros [Hp | Hp]; destruct Hc; congruence |].
  exists t. by split.
Qed.

(* ---- a thread that has ended is not run again ---- *)

Lemma exec_finished srv ev r t j :
  wf srv -> threads srv !! r = Some t -> finished (t_pc t) = true ->
  heap srv !! r = Some j ->
  threads (exec srv ev).1 !! r = Some t /\ heap (exec srv ev).1 !! r = Some j.
Proof.
  intros Hwf Ht Hfin Hj.
  destruct ev as [data uuid now | ? | ? | ? ? | tid now o]; simpl; auto.
  - destruct (start_scraping srv data uuid now) as [srv' rsp] eqn:Hs. simpl.
    apply start_scraping_inv in Hs
      as [(-> & _) | (l & c & st & b & z & m & _ & -> & _)]; [auto |].
    simpl. split; by apply lookup_app_l_Some.
  - unfold step_thread.
    destruct (threads srv !! tid) as [t'|] eqn:Ht'; [| auto].
    destruct (heap srv !! t_job t') as [j'|] eqn:Hj'; [| auto].
    destruct (wf_thread _ _ _ Hwf Ht') as [Htj' _].
    destruct (decide (tid = r)) as [-> | Hne].
    + assert (t' = t) as -> by congruence.
      rewrite Htj' in Hj'. assert (j' = j) as -> by congruence.
      rewrite (thread_step_finished now o _ j Hfin). simpl.
      rewrite Htj'.
      rewrite !list_lookup_insert_eq by (by eapply lookup_lt_Some).
      split; [| reflexivity]. f_equal. destruct t as [tj tp]. simpl in *. congruence.
    + destruct (thread_step now o (t_pc t') j') as [p'' j'']. simpl.
      rewrite !list_lookup_insert_ne by congruence. auto.
Qed.

Lemma run_finished evs : forall srv r t j,
  wf srv -> threads srv !! r = Some t -> finished (t_pc t) = true ->
  heap srv !! r = Some j ->
  threads (run srv evs) !! r = Some t /\ heap (run srv evs) !! r = Some j.
Proof.
  induction evs as [|ev evs IH]; intros srv r t j Hwf Ht Hfin Hj; [auto |].
  destruct (exec_finished srv ev r t j Hwf Ht Hfin Hj) as [Ht' Hj'].
  simpl. apply IH; [by apply wf_exec | assumption ..].
Qed.

(* the life of a job object: its status moves forward, one thread works
   on it, and once that thread has ended the job no longer changes *)
Lemma job_forward evs1 evs2 r j1 :
  heap (run init evs1) !! r = Some j1 ->
  exists j2,
    heap (run init (evs1 ++ evs2)) !! r = Some j2
    /\ job_id j2 = job_id j1
    /\ forward (status j1) (status j2)
    /\ (terminal (status j1) = true -> status j2 = status j1)
    /\ (exists t, threads (run init (evs1 ++ evs2)) !! r = Some t /\ t_job t = r)
    /\ (forall tid t, threads (run init (evs1 ++ evs2)) !! tid = Some t ->
                      t_job t = r -> tid = r)
    /\ (forall t, threads (run init evs1) !! r = Some t ->
                  finished (t_pc t) = true -> j2 = j1).
Proof.
  intros Hj1. pose proof (wf_reach evs1) as Hwf1.
  pose proof (wf_reach (evs1 ++ evs2)) as Hwf2.
  destruct (run_heap evs2 _ r j1 Hwf1 Hj1) as (j2 & Hj2 & Hid2 & Hfw).
  rewrite <- run_app in Hj2.
  exists j2. split; [assumption |]. split; [assumption |]. split; [assumption |].
  split; [intros Ht; by apply (forward_terminal _ _ Hfw) |].
  split; [| split].
  - destruct (wf_thread_of _ r j2 Hwf2 Hj2) as (t & Ht & Htj & _). eauto.
  - intros tid t Ht Htj. destruct (wf_thread _ _ _ Hwf2 Ht) as [Htj' _]. congruence.
  - intros t Ht Hfin.
    destruct (run_finished evs2 _ r t j1 Hwf1 Ht Hfin Hj1) as [_ Hj].
    rewrite <- run_app in Hj. congruence.
Qed.

(* ---- the submission ---- *)





End GMapsFacts.

(* --------------------------------------------------------------------- *)
(* The lead extractor wrapper.                                             *)
(* --------------------------------------------------------------------- *)

Module LeadsFacts.
Import Text Py Order Common Leads.






(* ---- one statement of the thread ---- *)

Ltac step_cases_L p o :=
  destruct p as [| | | | | ?l ?s | ?l ?s | ?s | | | | ?e | ?e | | | ?e];
  simpl; try (destruct o as [[?rows ?st] | ?e0]; simpl);
  unfold except_Exception;
  repeat match goal with
    | |- context [is_Exception ?e] => destruct (is_Exception e); simpl
    end.

Lemma thread_step_job_id_L now o p j :
  job_id (thread_step now o p j).2 = job_id j.
Proof. step_cases_L p o; reflexivity. Qed.

Lemma thread_step_created_at_L now o p j :
  created_at (thread_step now o p j).2 = created_at j.
Proof. step_cases_L p o; reflexivity. Qed.

Lemma thread_step_inv_L now o p j :
  pc_inv p j -> pc_inv (thread_step now o p j).1 (thread_step now o p j).2.
Proof.
  step_cases_L p o; intros H; destruct_and?; try destruct H as [H | H]; destruct_and?;
    repeat split; eauto; try congruence.
  all: try (left; repeat split; eauto; congruence).
  all: try (right; repeat split; eauto; congruence).
Qed.

Lemma thread_step_status_L now o p j :
  pc_inv p j ->
  status (thread_step now o p j).2 = status j
  \/ forward1 (status j) (status (thread_step now o p j).2).
Proof.
  step_cases_L p o; intros H; destruct_and?; auto.
  all: right; simpl;
    match goal with H : status _ = _ |- _ => rewrite H end; constructor.
Qed.

(* a thread that has ended stays where it is *)
Lemma thread_step_finished_L now o p j :
  finished p = true -> thread_step now o p j = (p, j).
Proof. destruct p; simpl; intros H; congruence. Qed.

(* ---- the process ---- *)

Lemma wf_thread_L srv tid t :
  wf srv -> threads srv !! tid = Some t ->
  t_job t = tid /\ (tid < List.length (heap srv))%nat.
Proof.
  intros Hwf Ht.
  assert ((t_job <$> threads srv) !! tid = Some (t_job t)) as H
    by (by rewrite list_lookup_fmap, Ht).
  rewrite (wf_threads _ Hwf) in H. apply lookup_seq in H. simpl in H. lia.
Qed.

Lemma wf_init_L : wf init.
Proof.
  split; simpl.
  - reflexivity.
  - intros id r H. by rewrite lookup_empty in H.
  - intros tid t j H. by rewrite lookup_nil in H.
Qed.

Lemma wf_register_L srv id job :
  wf srv -> pc_inv L43 job -> job_id job = id -> wf (register srv id job).
Proof.
  intros Hwf Hpc Hid. split; simpl.
  - rewrite fmap_app, length_app, (wf_threads _ Hwf). simpl.
    rewrite Nat.add_1_r, seq_S. reflexivity.
  - intros id' r H. destruct (decide (id = id')) as [<- | Hne].
    + rewrite lookup_insert_eq in H. injection H as <-.
      exists job. split; [| assumption].
      rewrite lookup_app_r by lia. by rewrite Nat.sub_diag.
    + rewrite lookup_insert_ne in H by assumption.
      destruct (wf_table _ Hwf _ _ H) as (j & Hj & Hjid).
      exists j. split; [| assumption]. by apply lookup_app_l_Some.
  - intros tid t j Ht Hj.
    assert (Hlen : List.length (threads srv) = List.length (heap srv)).
    { rewrite <- (length_fmap t_job), (wf_threads _ Hwf). apply length_seq. }
    apply lookup_app_Some in Ht as [Ht | [Hge Ht]].
    + destruct (wf_thread_L _ _ _ Hwf Ht) as [Htj Hlt].
      rewrite lookup_app_l in Hj by lia. by apply (wf_pc _ Hwf tid).
    + apply list_lookup_singleton_Some in Ht as [_ <-]. simpl in *.
      rewrite lookup_app_r in Hj by lia. rewrite Nat.sub_diag in Hj.
      injection Hj as <-. exact Hpc.
Qed.

Lemma wf_step_thread_L srv tid now o :
  wf srv -> wf (step_thread srv tid now o).
Proof.
  intros Hwf. unfold step_thread.
  destruct (threads srv !! tid) as [t|] eqn:Ht; [| assumption].
  destruct (heap srv !! t_job t) as [j|] eqn:Hj; [| assumption].
  destruct (thread_step now o (t_pc t) j) as [p' j'] eqn:Hstep.
  destruct (wf_thread_L _ _ _ Hwf Ht) as [Htj Hlt].
  pose proof (thread_step_inv_L now o _ _ (wf_pc _ Hwf _ _ _ Ht Hj)) as Hinv.
  pose proof (thread_step_job_id_L now o (t_pc t) j) as Hid.
  rewrite Hstep in Hinv, Hid. simpl in Hinv, Hid.
  split; simpl.
  - rewrite list_fmap_insert, length_insert. simpl.
    rewrite list_insert_id; [apply (wf_threads _ Hwf) |].
    by rewrite list_lookup_fmap, Ht.
  - intros id r H. destruct (wf_table _ Hwf _ _ H) as (j0 & Hj0 & Hjid).
    destruct (decide (r = t_job t)) as [-> | Hne].
    + exists j'. rewrite list_lookup_insert_eq by lia. split; [reflexivity |].
      congruence.
    + exists j0. by rewrite list_lookup_insert_ne.
  - intros tid' t' j0 Ht' Hj0.
    destruct (decide (tid' = tid)) as [-> | Hne].
    + rewrite list_lookup_insert_eq in Ht' by (by eapply lookup_lt_Some).
      injection Ht' as <-. simpl in *.
      rewrite list_lookup_insert_eq in Hj0 by lia. by injection Hj0 as <-.
    + rewrite list_lookup_insert_ne in Ht' by congruence.
      destruct (wf_thread_L _ _ _ Hwf Ht') as [Htj' _].
      rewrite list_lookup_insert_ne in Hj0 by lia.
      by apply (wf_pc _ Hwf tid').
Qed.

(* a submission either changes nothing and is refused, or registers a
   fresh pending job under the id it returns *)
Lemma start_extraction_inv_L srv data uuid now srv' r :
  start_extraction srv data uuid now = (srv', r) ->
  (srv' = srv /\ (code r = 400 \/ code r = 500) /\ exists e, payload r = Failure e)
  \/ (exists city max_results message,
        converts data city max_results
        /\ srv' = register srv uuid
                    (new_job uuid (strip city) (get data "industries" (JArr []))
                       max_results now)
        /\ r = ok (Started uuid message)).
Proof.
  unfold start_extraction, and_then, py_strip.
  destruct (get data "city" (JStr EmptyString)) as [| | |cty| |] eqn:H1;
    try (intros [= <- <-]; left; simpl; eauto 6).
  destruct (py_int (get data "maxResults" (JInt 250))) as [e|z] eqn:H5;
    [intros [= <- <-]; left; simpl; eauto 6 |].
  destruct (nonempty (strip cty)); simpl;
    [| intros [= <- <-]; left; simpl; eauto 6].
  destruct (truthy (get data "industries" (JArr []))); simpl;
    [| intros [= <- <-]; left; simpl; eauto 6].
  intros [= <- <-]. right. exists cty, z. eexists.
  split; [by constructor | split; reflexivity].
Qed.

Lemma wf_exec_L srv ev : wf srv -> wf (exec srv ev).1.
Proof.
  intros Hwf. destruct ev as [data uuid now | id | id | id ts | tid now o]; simpl;
    try assumption.
  - destruct (start_extraction srv data uuid now) as [srv' r] eqn:Hs. simpl.
    apply start_extraction_inv_L in Hs
      as [(-> & _) | (l & z & m & _ & -> & _)]; [assumption |].
    apply wf_register_L; [assumption | | reflexivity].
    simpl. auto.
  - by apply wf_step_thread_L.
Qed.

Lemma run_app_L srv evs1 evs2 : run srv (evs1 ++ evs2) = run (run srv evs1) evs2.
Proof. apply fold_left_app. Qed.

Lemma wf_run_L srv evs : wf srv -> wf (run srv evs).
Proof.
  revert srv. induction evs as [|ev evs IH]; intros srv Hwf; [assumption |].
  simpl. apply IH. by apply wf_exec_L.
Qed.

(* ---- what a history does to a job object, to the table, to the ids ---- *)

Lemma step_thread_heap_L srv tid now o r j :
  wf srv -> heap srv !! r = Some j ->
  exists j', heap (step_thread srv tid now o) !! r = Some j'
    /\ job_id j' = job_id j
    /\ (status j' = status j \/ forward1 (status j) (status j')).
Proof.
  intros Hwf Hr. unfold step_thread.
  destruct (threads srv !! tid) as [t|] eqn:Ht; [| eauto].
  destruct (heap srv !! t_job t) as [j0|] eqn:Hj; [| eauto].
  destruct (thread_step now o (t_pc t) j0) as [p' j'] eqn:Hstep. simpl.
  destruct (decide (r = t_job t)) as [-> | Hne].
  - assert (j0 = j) as -> by congruence.
    exists j'. rewrite list_lookup_insert_eq by (by eapply lookup_lt_Some).
    pose proof (thread_step_job_id_L now o (t_pc t) j) as Hid.
    pose proof (thread_step_status_L now o _ _ (wf_pc _ Hwf _ _ _ Ht Hj)) as Hst.
    rewrite Hstep in Hid, Hst. auto.
  - exists j. rewrite list_lookup_insert_ne by congruence. auto.
Qed.

Lemma exec_heap_L srv ev r j :
  wf srv -> heap srv !! r = Some j ->
  exists j', heap (exec srv ev).1 !! r = Some j'
    /\ job_id j' = job_id j
    /\ (status j' = status j \/ forward1 (status j) (status j')).
Proof.
  intros Hwf Hr.
  destruct ev as [data uuid now | id | id | id ts | tid now o]; simpl; eauto.
  - destruct (start_extraction srv data uuid now) as [srv' rsp] eqn:Hs. simpl.
    apply start_extraction_inv_L in Hs
      as [(-> & _) | (l & z & m & _ & -> & _)]; [eauto |].
    exists j. simpl. split; [by apply lookup_app_l_Some | auto].
  - by apply step_thread_heap_L.
Qed.

Lemma run_heap_L evs : forall srv r j,
  wf srv -> heap srv !! r = Some j ->
  exists j', heap (run srv evs) !! r = Some j'
    /\ job_id j' = job_id j /\ forward (status j) (status j').
Proof.
  induction evs as [|ev evs IH]; intros srv r j Hwf Hr.
  - exists j. repeat split; [assumption | apply rtc_refl].
  - destruct (exec_heap_L srv ev r j Hwf Hr) as (j1 & H1 & Hid1 & Hst1).
    destruct (IH _ r j1 (wf_exec_L srv ev Hwf) H1) as (j2 & H2 & Hid2 & Hst2).
    exists j2. simpl. split; [assumption |]. split; [congruence |].
    destruct Hst1 as [Heq | Hf].
    + by rewrite <- Heq.
    + eapply rtc_l; eassumption.
Qed.

Lemma exec_table_L srv ev id :
  id ∉ uuids [ev] ->
  extraction_jobs (exec srv ev).1 !! id = extraction_jobs srv !! id.
Proof.
  intros Hid.
  destruct ev as [data uuid now | ? | ? | ? ? | tid now o]; simpl; try reflexivity.
  - destruct (start_extraction srv data uuid now) as [srv' rsp] eqn:Hs. simpl.
    apply start_extraction_inv_L in Hs
      as [(-> & _) | (l & z & m & _ & -> & _)]; [reflexivity |].
    simpl. apply lookup_insert_ne. intros ->. apply Hid. simpl. set_solver.
  - unfold step_thread. repeat case_match; reflexivity.
Qed.

Lemma uuids_cons_L ev evs : uuids (ev :: evs) = uuids [ev] ++ uuids evs.
Proof. unfold uuids. simpl. by rewrite app_nil_r. Qed.

Lemma uuids_app_L evs1 evs2 : uuids (evs1 ++ evs2) = uuids evs1 ++ uuids evs2.
Proof. unfold uuids. apply flat_map_app. Qed.

Lemma run_table_L evs : forall srv id,
  id ∉ uuids evs ->
  extraction_jobs (run srv evs) !! id = extraction_jobs srv !! id.
Proof.
  induction evs as [|ev evs IH]; intros srv id Hid; [reflexivity |].
  rewrite uuids_cons_L in Hid. apply not_elem_of_app in Hid as [H1 H2].
  simpl. rewrite IH by assumption. by apply exec_table_L.
Qed.

(* the ids a history hands out, one event at a time *)
Lemma issued_cons_L srv ev evs :
  issued srv (ev :: evs)
  = match (exec srv ev).2 with
    | Some (mkResponse _ (Started id _)) => [id]
    | _ => []
    end ++ issued (exec srv ev).1 evs.
Proof.
  simpl. destruct (exec srv ev) as [srv' [[c []]|]]; reflexivity.
Qed.

(* an event hands out an id exactly when it registers a job under it *)
Lemma exec_issue_L srv ev :
  ((exec srv ev).1 = srv \/ exists tid now o, ev = Step tid now o) /\
    match (exec srv ev).2 with
    | Some (mkResponse _ (Started id _)) => False
    | _ => True
    end
  \/ exists data uuid now job,
       ev = POST_extract data uuid now /\ job_id job = uuid
       /\ (exec srv ev).1 = register srv uuid job
       /\ exists m, (exec srv ev).2 = Some (ok (Started uuid m)).
Proof.
  destruct ev as [data uuid now | id | id | id ts | tid now o]; simpl.
  - destruct (start_extraction srv data uuid now) as [srv' rsp] eqn:Hs. simpl.
    apply start_extraction_inv_L in Hs
      as [(-> & _ & e & He) | (l & z & m & _ & -> & ->)].
    + left. split; [by left |]. destruct rsp as [c p]. simpl in He. by subst p.
    + right.
      exists data, uuid, now,
        (new_job uuid (strip l) (get data "industries" (JArr [])) z now).
      split; [reflexivity |].
      split; [reflexivity |]. split; [reflexivity |]. by exists m.
  - left. split; [by left |]. unfold get_job_status.
    repeat case_match; try exact I; unfold ok in *; simplify_eq.
  - left. split; [by left |]. unfold get_results.
    repeat case_match; try exact I; unfold ok in *; simplify_eq.
  - left. split; [by left |]. unfold download_csv.
    repeat case_match; try exact I; unfold ok in *; simplify_eq.
  - left. split; [right; eauto | exact I].
Qed.

Lemma step_thread_ids_L srv tid now o :
  job_id <$> heap (step_thread srv tid now o) = job_id <$> heap srv.
Proof.
  unfold step_thread.
  destruct (threads srv !! tid) as [t|] eqn:Ht; [| reflexivity].
  destruct (heap srv !! t_job t) as [j|] eqn:Hj; [| reflexivity].
  destruct (thread_step now o (t_pc t) j) as [p' j'] eqn:Hstep. simpl.
  rewrite list_fmap_insert. apply list_insert_id.
  rewrite list_lookup_fmap, Hj. simpl. f_equal.
  pose proof (thread_step_job_id_L now o (t_pc t) j) as Hid.
  by rewrite Hstep in Hid.
Qed.

Lemma run_ids_L evs : forall srv,
  job_id <$> heap (run srv evs) = (job_id <$> heap srv) ++ issued srv evs.
Proof.
  induction evs as [|ev evs IH]; intros srv.
  - simpl. by rewrite app_nil_r.
  - rewrite issued_cons_L. simpl run. rewrite IH.
    destruct (exec_issue_L srv ev)
      as [[Hsame Hno] | (data & uuid & now & job & -> & Hid & Hreg & m & Hrsp)].
    + assert (job_id <$> heap (exec srv ev).1 = job_id <$> heap srv) as ->.
      { destruct Hsame as [-> | (tid & now & o & ->)]; [reflexivity |].
        apply step_thread_ids_L. }
      destruct (exec srv ev).2 as [[c []]|]; try reflexivity. destruct Hno.
    + rewrite Hreg, Hrsp. unfold register. cbn [heap]. rewrite fmap_app.
      cbn. rewrite Hid, <- app_assoc. reflexivity.
Qed.

Lemma issued_sublist_L evs : forall srv, issued srv evs `sublist_of` uuids evs.
Proof.
  induction evs as [|ev evs IH]; intros srv; [constructor |].
  rewrite issued_cons_L, uuids_cons_L. apply sublist_app; [| apply IH].
  destruct (exec_issue_L srv ev)
    as [[_ Hno] | (data & uuid & now & job & -> & _ & _ & m & Hrsp)].
  - destruct (exec srv ev).2 as [[c []]|]; try apply sublist_nil_l. destruct Hno.
  - rewrite Hrsp. simpl. reflexivity.
Qed.

(* the table only knows ids that were handed out *)
Lemma run_table_issued_L evs : forall srv id r,
  extraction_jobs (run srv evs) !! id = Some r ->
  extraction_jobs srv !! id = Some r \/ id ∈ issued srv evs.
Proof.
  induction evs as [|ev evs IH]; intros srv id r H; [by left |].
  simpl in H. apply IH in H as [H | H].
  - rewrite issued_cons_L.
    destruct (exec_issue_L srv ev)
      as [[Hsame _] | (data & uuid & now & job & -> & Hid & Hreg & m & Hrsp)].
    + left. destruct Hsame as [<- | (tid & now & o & ->)]; [assumption |].
      simpl in H. unfold step_thread in H. repeat case_match; assumption.
    + rewrite Hreg in H. rewrite Hrsp. simpl in H |- *.
      destruct (decide (uuid = id)) as [-> | Hne]; [right; set_solver |].
      rewrite lookup_insert_ne in H by assumption. by left.
  - right. rewrite issued_cons_L. set_solver.
Qed.

(* ---- the thread from start to end ---- *)

Lemma run_terminates_L extract now j :
  finished (run_extraction extract now j).1 = true.
Proof. destruct extract as [[leads st]|[[] m]]; reflexivity. Qed.


Lemma run_caught_L now j e :
  is_Exception e = true ->
  run_extraction (Raises e) now j
  = (Done, mkJob (job_id j) (city j) (industries j) (max_results j)
             failed 0 (results j) (stats j) (Some (str e))
             (created_at j) (completed_at j)).
Proof. destruct e as [[] m]; intros He; [reflexivity | discriminate He]. Qed.

(* SystemExit passes "except Exception": the thread ends and the job
   stays running at 20 *)
Lemma run_uncaught_L now j e :
  is_Exception e = false ->
  run_extraction (Raises e) now j
  = (Died e, set_progress 20 (set_status running j)).
Proof. destruct e as [[] m]; intros He; [discriminate He | reflexivity]. Qed.

(* ---- the read handlers ---- *)

Lemma not_ready_L srv id j ts :
  lookup_job srv id = Some j -> status j <> completed ->
  get_results srv id = mkResponse 400 (Failure (Msg "Job not completed yet"))
  /\ download_csv srv id ts = mkResponse 400 (Failure (Msg "Job not completed yet")).
Proof.
  intros Hj Hst. unfold get_results, download_csv. rewrite Hj.
  apply Status_eqb_neq in Hst. rewrite Hst. by split.
Qed.

Lemma not_found_L srv id ts :
  extraction_jobs srv !! id = None ->
  get_job_status srv id = mkResponse 404 (Failure (Msg "Job not found"))
  /\ get_results srv id = mkResponse 404 (Failure (Msg "Job not found"))
  /\ download_csv srv id ts = mkResponse 404 (Failure (Msg "Job not found")).
Proof.
  intros H. unfold get_job_status, get_results, download_csv, lookup_job.
  rewrite H. by repeat split.
Qed.




Lemma results_count_L srv id j t :
  lookup_job srv id = Some j -> status j = completed -> completed_at j = Some t ->
  get_job_status srv id
  = ok (StatusView id completed (progress j) (created_at j)
          (CompletedExtra t (Z.of_nat (List.length (results j))) (stats j)))
  /\ get_results srv id = ok (ResultsView id (results j) (stats j)).
Proof.
  intros Hj Hst Ht. unfold get_job_status, get_results. rewrite Hj, Hst, Ht.
  by split.
Qed.

(* ---- histories ---- *)

Lemma wf_reach_L evs : wf (run init evs).
Proof. apply wf_run_L, wf_init_L. Qed.

Lemma wf_lengths_L srv : wf srv -> List.length (threads srv) = List.length (heap srv).
Proof.
  intros Hwf. rewrite <- (length_fmap t_job), (wf_threads _ Hwf). apply length_seq.
Qed.

(* the thread of a job object *)
Lemma wf_thread_of_L srv r j :
  wf srv -> heap srv !! r = Some j ->
  exists t, threads srv !! r = Some t /\ t_job t = r /\ pc_inv (t_pc t) j.
Proof.
  intros Hwf Hj.
  destruct (lookup_lt_is_Some_2 (threads srv) r) as [t Ht].
  { rewrite (wf_lengths_L _ Hwf). by eapply lookup_lt_Some. }
  destruct (wf_thread_L _ _ _ Hwf Ht) as [Htj _].
  exists t. split; [assumption |]. split; [assumption |].
  apply (wf_pc _ Hwf r); [assumption | by rewrite Htj].
Qed.

Lemma status_forward_L evs1 evs2 id j1 :
  NoDup (uuids (evs1 ++ evs2)) ->
  lookup_job (run init evs1) id = Some j1 ->
  exists j2,
    lookup_job (run init (evs1 ++ evs2)) id = Some j2
    /\ forward (status j1) (status j2)
    /\ (terminal (status j1) = true -> status j2 = status j1)
    /\ exists tid, runs (run init (evs1 ++ evs2)) id tid
         /\ forall tid', runs (run init (evs1 ++ evs2)) id tid' -> tid' = tid.
Proof.
  intros Hnd Hj1. unfold lookup_job in Hj1.
  destruct (extraction_jobs (run init evs1) !! id) as [r|] eqn:Hr;
    simpl in Hj1; [| discriminate].
  pose proof (wf_reach_L evs1) as Hwf1.
  pose proof (wf_reach_L (evs1 ++ evs2)) as Hwf2.
  assert (Hin : id ∈ uuids evs1).
  { apply run_table_issued_L in Hr as [Hr | Hr];
      [simpl in Hr; by rewrite lookup_empty in Hr |].
    eapply elem_of_sublist; [exact Hr | apply issued_sublist_L]. }
  assert (Hout : id ∉ uuids evs2).
  { rewrite uuids_app_L in Hnd. apply NoDup_app in Hnd as (_ & Hd & _). by apply Hd. }
  destruct (run_heap_L evs2 _ r j1 Hwf1 Hj1) as (j2 & Hj2 & Hid2 & Hfw).
  destruct (wf_table _ Hwf1 _ _ Hr) as (j1' & Hj1' & Hid1).
  assert (j1' = j1) as -> by congruence.
  rewrite run_app_L in *.
  assert (Hr2 : extraction_jobs (run (run init evs1) evs2) !! id = Some r)
    by (by rewrite run_table_L).
  exists j2. split; [unfold lookup_job; by rewrite Hr2 |].
  split; [assumption |].
  split; [intros Ht; by apply (forward_terminal _ _ Hfw) |].
  destruct (wf_thread_of_L _ r j2 Hwf2 Hj2) as (t & Ht & Htj & _).
  exists r. split.
  - exists t, j2. rewrite Htj. repeat split; [assumption .. | congruence].
  - intros tid' (t' & j' & Ht' & Hj' & Hid').
    destruct (wf_thread_L _ _ _ Hwf2 Ht') as [Htj' _]. rewrite Htj' in Hj'.
    assert (Hids : NoDup (job_id <$> heap (run (run init evs1) evs2))).
    { rewrite <- run_app_L, run_ids_L. simpl.
      eapply sublist_NoDup; [exact Hnd | apply issued_sublist_L]. }
    apply (NoDup_lookup _ tid' r id Hids).
    + by rewrite list_lookup_fmap, Hj', <- Hid'.
    + rewrite list_lookup_fmap, Hj2. simpl. congruence.
Qed.

Lemma never_issued_L evs id ts :
  id ∉ issued init evs ->
  get_job_status (run init evs) id = mkResponse 404 (Failure (Msg "Job not found"))
  /\ get_results (run init evs) id = mkResponse 404 (Failure (Msg "Job not found"))
  /\ download_csv (run init evs) id ts = mkResponse 404 (Failure (Msg "Job not found")).
Proof.
  intros Hid. apply not_found_L.
  destruct (extraction_jobs (run init evs) !! id) as [r|] eqn:Hr; [| reflexivity].
  apply run_table_issued_L in Hr as [Hr | Hr];
    [simpl in Hr; by rewrite lookup_empty in Hr | done].
Qed.

Lemma exec_known_L srv ev id :
  is_Some (extraction_jobs srv !! id) -> is_Some (extraction_jobs (exec srv ev).1 !! id).
Proof.
  intros H.
  destruct ev as [data uuid now | ? | ? | ? ? | tid now o]; simpl; try assumption.
  - destruct (start_extraction srv data uuid now) as [srv' rsp] eqn:Hs. simpl.
    apply start_extraction_inv_L in Hs
      as [(-> & _) | (l & z & m & _ & -> & _)]; [assumption |].
    simpl. rewrite lookup_insert. case_decide; [eauto | assumption].
  - unfold step_thread. repeat case_match; assumption.
Qed.

Lemma run_known_L evs : forall srv id,
  is_Some (extraction_jobs srv !! id) -> is_Some (extraction_jobs (run srv evs) !! id).
Proof.
  induction evs as [|ev evs IH]; intros srv id H; [assumption |].
  simpl. apply IH. by apply exec_known_L.
Qed.

Lemma known_status_L srv id :
  wf srv -> is_Some (extraction_jobs srv !! id) ->
  (exists j, lookup_job srv id = Some j)
  /\ (code (get_job_status srv id) = 200 \/ code (get_job_status srv id) = 500).
Proof.
  intros Hwf [r Hr]. destruct (wf_table _ Hwf _ _ Hr) as (j & Hj & _).
  assert (Hl : lookup_job srv id = Some j) by (unfold lookup_job; by rewrite Hr).
  split; [eauto |]. unfold get_job_status. rewrite Hl.
  destruct (status j); simpl; auto. destruct (completed_at j); simpl; auto.
Qed.

Lemma registered_L evs0 data uuid now srv' c id m :
  start_extraction (run init evs0) data uuid now = (srv', mkResponse c (Started id m)) ->
  (exists r j, extraction_jobs srv' !! id = Some r /\ heap srv' !! r = Some j
     /\ job_id j = id /\ status j = pending /\ progress j = 0
     /\ threads srv' !! r = Some (mkThread r L43))
  /\ forall evs, code (get_job_status (run srv' evs) id) <> 404.
Proof.
  intros Hs. pose proof (wf_reach_L evs0) as Hwf0.
  assert (Hwf' : wf srv').
  { pose proof (wf_exec_L _ (POST_extract data uuid now) Hwf0) as H.
    simpl in H. by rewrite Hs in H. }
  apply start_extraction_inv_L in Hs
    as [(_ & _ & e & He) | (l & z & m' & _ & -> & Hrsp)];
    [discriminate He |].
  injection Hrsp as -> -> ->.
  split.
  - exists (List.length (heap (run init evs0))). eexists.
    split; [apply lookup_insert_eq |]. simpl.
    split; [rewrite lookup_app_r by lia; by rewrite Nat.sub_diag |].
    repeat split.
    rewrite <- (wf_lengths_L _ Hwf0) at 1.
    rewrite lookup_app_r by lia. by rewrite Nat.sub_diag.
  - intros evs.
    destruct (known_status_L (run (register (run init evs0) uuid
                (new_job uuid (strip l) (get data "industries" (JArr [])) z now)) evs) uuid)
      as [_ [H | H]].
    + by apply wf_run_L.
    + apply run_known_L. simpl. rewrite lookup_insert_eq. eauto.
    + rewrite H. lia.
    + rewrite H. lia.
Qed.

Lemma completed_at_inv_L evs r j :
  heap (run init evs) !! r = Some j ->
  (is_Some (completed_at j) -> status j = completed)
  /\ (status j = failed -> completed_at j = None)
  /\ (status j = pending \/ status j = running -> completed_at j = None)
  /\ exists t, threads (run init evs) !! r = Some t
       /\ (t_pc t = Done -> status j = completed -> is_Some (completed_at j)).
Proof.
  intros Hj. destruct (wf_thread_of_L _ r j (wf_reach_L evs) Hj) as (t & Ht & _ & Hpc).
  assert (Hcases : (completed_at j = None \/ status j = completed)
                   /\ (t_pc t = Done -> status j = completed -> is_Some (completed_at j))).
  { destruct (t_pc t);
      simpl in Hpc; try destruct Hpc as [Hpc | Hpc]; destruct_and?;
      (split; [by auto | intros; by (congruence || eauto)]). }
  destruct Hcases as [Hc Hd].
  split; [intros [x Hx]; destruct Hc; congruence |].
  split; [intros Hf; destruct Hc; congruence |].
  split; [intros [Hp | Hp]; destruct Hc; congruence |].
  exists t. by split.
Qed.

(* ---- a thread that has ended is not run again ---- *)

Lemma exec_finished_L srv ev r t j :
  wf srv -> threads srv !! r = Some t -> finished (t_pc t) = true ->
  heap srv !! r = Some j ->
  threads (exec srv ev).1 !! r = Some t /\ heap (exec srv ev).1 !! r = Some j.
Proof.
  intros Hwf Ht Hfin Hj.
  destruct ev as [data uuid now | ? | ? | ? ? | tid now o]; simpl; auto.
  - destruct (start_extraction srv data uuid now) as [srv' rsp] eqn:Hs. simpl.
    apply start_extraction_inv_L in Hs
      as [(-> & _) | (l & z & m & _ & -> & _)]; [auto |].
    simpl. split; by apply lookup_app_l_Some.
  - unfold step_thread.
    destruct (threads srv !! tid) as [t'|] eqn:Ht'; [| auto].
    destruct (heap srv !! t_job t') as [j'|] eqn:Hj'; [| auto].
    destruct (wf_thread_L _ _ _ Hwf Ht') as [Htj' _].
    destruct (decide (tid = r)) as [-> | Hne].
    + assert (t' = t) as -> by congruence.
      rewrite Htj' in Hj'. assert (j' = j) as -> by congruence.
      rewrite (thread_step_finished_L now o _ j Hfin). simpl.
      rewrite Htj'.
      rewrite !list_lookup_insert_eq by (by eapply lookup_lt_Some).
      split; [| reflexivity]. f_equal. destruct t as [tj tp]. simpl in *. congruence.
    + destruct (thread_step now o (t_pc t') j') as [p'' j'']. simpl.
      rewrite !list_lookup_insert_ne by congruence. auto.
Qed.

Lemma run_finished_L evs : forall srv r t j,
  wf srv -> threads srv !! r = Some t -> finished (t_pc t) = true ->
  heap srv !! r = Some j ->
  threads (run srv evs) !! r = Some t /\ heap (run srv evs) !! r = Some j.
Proof.
  induction evs as [|ev evs IH]; intros srv r t j Hwf Ht Hfin Hj; [auto |].
  destruct (exec_finished_L srv ev r t j Hwf Ht Hfin Hj) as [Ht' Hj'].
  simpl. apply IH; [by apply wf_exec_L | assumption ..].
Qed.

(* the life of a job object: its status moves forward, one thread works
   on it, and once that thread has ended the job no longer changes *)
Lemma job_forward_L evs1 evs2 r j1 :
  heap (run init evs1) !! r = Some j1 ->
  exists j2,
    heap (run init (evs1 ++ evs2)) !! r = Some j2
    /\ job_id j2 = job_id j1
    /\ forward (status j1) (status j2)
    /\ (terminal (status j1) = true -> status j2 = status j1)
    /\ (exists t, threads (run init (evs1 ++ evs2)) !! r = Some t /\ t_job t = r)
    /\ (forall tid t, threads (run init (evs1 ++ evs2)) !! tid = Some t ->
                      t_job t = r -> tid = r)
    /\ (forall t, threads (run init evs1) !! r = Some t ->
                  finished (t_pc t) = true -> j2 = j1).
Proof.
  intros Hj1. pose proof (wf_reach_L evs1) as Hwf1.
  pose proof (wf_reach_L (evs1 ++ evs2)) as Hwf2.
  destruct (run_heap_L evs2 _ r j1 Hwf1 Hj1) as (j2 & Hj2 & Hid2 & Hfw).
  rewrite <- run_app_L in Hj2.
  exists j2. split; [assumption |]. split; [assumption |]. split; [assumption |].
  split; [intros Ht; by apply (forward_terminal _ _ Hfw) |].
  split; [| split].
  - destruct (wf_thread_of_L _ r j2 Hwf2 Hj2) as (t & Ht & Htj & _). eauto.
  - intros tid t Ht Htj. destruct (wf_thread_L _ _ _ Hwf2 Ht) as [Htj' _]. congruence.
  - intros t Ht Hfin.
    destruct (run_finished_L evs2 _ r t j1 Hwf1 Ht Hfin Hj1) as [_ Hj].
    rewrite <- run_app_L in Hj. congruence.
Qed.

(* ---- the submission ---- *)






End LeadsFacts.


(* --------------------------------------------------------------------- *)
(* The properties of the specification, C1 to C10.                         *)
(* --------------------------------------------------------------------- *)

Import Py Order Scenario.

(** C1.  In both wrappers, along every history:
    (1) for every job object, the status stays or moves forward along
    pending -> running -> {completed | failed} and a completed or failed
    job keeps its status; exactly one thread works on the object; and once
    that thread has ended the job is never changed again (no job is re-run);
    (2) as long as uuid4 never gives the same id twice, the same holds for
    the job found under a given id: later lookups of the id find a job
    whose status is the same or further along, and exactly one thread
    works on a job carrying that id. *)
Theorem C1_status_only_moves_forward :
  ((forall evs1 evs2 r j1,
      GMaps.heap (GMaps.run GMaps.init evs1) !! r = Some j1 ->
      exists j2,
        GMaps.heap (GMaps.run GMaps.init (evs1 ++ evs2)) !! r = Some j2
        /\ GMaps.job_id j2 = GMaps.job_id j1
        /\ forward (GMaps.status j1) (GMaps.status j2)
        /\ (terminal (GMaps.status j1) = true -> GMaps.status j2 = GMaps.status j1)
        /\ (exists t, GMaps.threads (GMaps.run GMaps.init (evs1 ++ evs2)) !! r = Some t
                      /\ GMaps.t_job t = r)
        /\ (forall tid t, GMaps.threads (GMaps.run GMaps.init (evs1 ++ evs2)) !! tid = Some t
                          -> GMaps.t_job t = r -> tid = r)
        /\ (forall t, GMaps.threads (GMaps.run GMaps.init evs1) !! r = Some t ->
                      GMaps.finished (GMaps.t_pc t) = true -> j2 = j1))
   /\ (forall evs1 evs2 id j1,
      NoDup (GMaps.uuids (evs1 ++ evs2)) ->
      GMaps.lookup_job (GMaps.run GMaps.init evs1) id = Some j1 ->
      exists j2,
        GMaps.lookup_job (GMaps.run GMaps.init (evs1 ++ evs2)) id = Some j2
        /\ forward (GMaps.status j1) (GMaps.status j2)
        /\ (terminal (GMaps.status j1) = true -> GMaps.status j2 = GMaps.status j1)
        /\ exists tid, GMaps.runs (GMaps.run GMaps.init (evs1 ++ evs2)) id tid
             /\ forall tid', GMaps.runs (GMaps.run GMaps.init (evs1 ++ evs2)) id tid'
                             -> tid' = tid))
  /\ ((forall evs1 evs2 r j1,
      Leads.heap (Leads.run Leads.init evs1) !! r = Some j1 ->
      exists j2,
        Leads.heap (Leads.run Leads.init (evs1 ++ evs2)) !! r = Some j2
        /\ Leads.job_id j2 = Leads.job_id j1
        /\ forward (Leads.status j1) (Leads.status j2)
        /\ (terminal (Leads.status j1) = true -> Leads.status j2 = Leads.status j1)
        /\ (exists t, Leads.threads (Leads.run Leads.init (evs1 ++ evs2)) !! r = Some t
                      /\ Leads.t_job t = r)
        /\ (forall tid t, Leads.threads (Leads.run Leads.init (evs1 ++ evs2)) !! tid = Some t
                          -> Leads.t_job t = r -> tid = r)
        /\ (forall t, Leads.threads (Leads.run Leads.init evs1) !! r = Some t ->
                      Leads.finished (Leads.t_pc t) = true -> j2 = j1))
   /\ (forall evs1 evs2 id j1,
      NoDup (Leads.uuids (evs1 ++ evs2)) ->
      Leads.lookup_job (Leads.run Leads.init evs1) id = Some j1 ->
      exists j2,
        Leads.lookup_job (Leads.run Leads.init (evs1 ++ evs2)) id = Some j2
        /\ forward (Leads.status j1) (Leads.status j2)
        /\ (terminal (Leads.status j1) = true -> Leads.status j2 = Leads.status j1)
        /\ exists tid, Leads.runs (Leads.run Leads.init (evs1 ++ evs2)) id tid
             /\ forall tid', Leads.runs (Leads.run Leads.init (evs1 ++ evs2)) id tid'
                             -> tid' = tid)).
Proof.
  split; split.
  - intros evs1 evs2 r j1. apply GMapsFacts.job_forward.
  - intros evs1 evs2 id j1. apply GMapsFacts.status_forward.
  - intros evs1 evs2 r j1. apply LeadsFacts.job_forward_L.
  - intros evs1 evs2 id j1. apply LeadsFacts.status_forward_L.
Qed.

Lemma C1_witness :
  (exists j2,
     GMaps.lookup_job (GMaps.run GMaps.init (gm_started ++ gm_then_fails)) "job-1" = Some j2
     /\ forward running (GMaps.status j2))
  /\ (exists j2,
     Leads.heap (Leads.run Leads.init (ld_started ++ ld_then_fails)) !! 0%nat = Some j2
     /\ forward running (Leads.status j2)).
Proof.
  split.
  - destruct (proj2 (proj1 C1_status_only_moves_forward) gm_started gm_then_fails "job-1"
                (GMaps.set_progress 10 (GMaps.set_status running gm_job)))
      as (j2 & H1 & H2 & _).
    + vm_compute. apply NoDup_singleton.
    + vm_compute. reflexivity.
    + exists j2. split; assumption.
  - destruct (proj1 (proj2 C1_status_only_moves_forward) ld_started ld_then_fails 0%nat
                (Leads.set_progress 10 (Leads.set_status running ld_job)))
      as (j2 & H1 & _ & H2 & _).
    + vm_compute. reflexivity.
    + exists j2. split; assumption.
Defined.

(** C2.  In both wrappers, for a job id in the table whose job is pending,
    running or failed, get_results and download_csv answer HTTP 400 with
    the error "Job not completed yet" and no records. *)
Theorem C2_not_completed_is_400 :
  (forall srv id j ts,
     GMaps.lookup_job srv id = Some j -> GMaps.status j <> completed ->
     GMaps.get_results srv id
     = GMaps.mkResponse 400 (GMaps.Failure (GMaps.Msg "Job not completed yet"))
     /\ GMaps.download_csv srv id ts
        = GMaps.mkResponse 400 (GMaps.Failure (GMaps.Msg "Job not completed yet")))
  /\ (forall srv id j ts,
     Leads.lookup_job srv id = Some j -> Leads.status j <> completed ->
     Leads.get_results srv id
     = Leads.mkResponse 400 (Leads.Failure (Leads.Msg "Job not completed yet"))
     /\ Leads.download_csv srv id ts
        = Leads.mkResponse 400 (Leads.Failure (Leads.Msg "Job not completed yet"))).
Proof.
  split.
  - intros srv id j ts. apply GMapsFacts.not_ready.
  - intros srv id j ts. apply LeadsFacts.not_ready_L.
Qed.

Lemma C2_witness :
  GMaps.code (GMaps.get_results (GMaps.run GMaps.init gm_started) "job-1") = 400
  /\ Leads.code (Leads.download_csv (Leads.run Leads.init ld_failed) "job-1" "20250101_000000") = 400.
Proof.
  split.
  - destruct (proj1 C2_not_completed_is_400 (GMaps.run GMaps.init gm_started) "job-1"
                (GMaps.set_progress 10 (GMaps.set_status running gm_job))
                "20250101_000000") as [H _].
    + vm_compute. reflexivity.
    + discriminate.
    + rewrite H. reflexivity.
  - destruct (proj2 C2_not_completed_is_400 (Leads.run Leads.init ld_failed) "job-1"
                (Leads.set_progress 0
                   (Leads.set_error_message (Some "chrome not reachable")
                      (Leads.set_status failed ld_job)))
                "20250101_000000") as [_ H].
    + vm_compute. reflexivity.
    + discriminate.
    + rewrite H. reflexivity.
Defined.

(** C3.  In both wrappers, after any history, for an id that no submission
    of the history returned, get_job_status, get_results and download_csv
    answer HTTP 404 "Job not found". *)
Theorem C3_unknown_id_is_404 :
  (forall evs id ts,
     id ∉ GMaps.issued GMaps.init evs ->
     GMaps.get_job_status (GMaps.run GMaps.init evs) id
     = GMaps.mkResponse 404 (GMaps.Failure (GMaps.Msg "Job not found"))
     /\ GMaps.get_results (GMaps.run GMaps.init evs) id
        = GMaps.mkResponse 404 (GMaps.Failure (GMaps.Msg "Job not found"))
     /\ GMaps.download_csv (GMaps.run GMaps.init evs) id ts
        = GMaps.mkResponse 404 (GMaps.Failure (GMaps.Msg "Job not found")))
  /\ (forall evs id ts,
     id ∉ Leads.issued Leads.init evs ->
     Leads.get_job_status (Leads.run Leads.init evs) id
     = Leads.mkResponse 404 (Leads.Failure (Leads.Msg "Job not found"))
     /\ Leads.get_results (Leads.run Leads.init evs) id
        = Leads.mkResponse 404 (Leads.Failure (Leads.Msg "Job not found"))
     /\ Leads.download_csv (Leads.run Leads.init evs) id ts
        = Leads.mkResponse 404 (Leads.Failure (Leads.Msg "Job not found"))).
Proof.
  split.
  - intros evs id ts. apply GMapsFacts.never_issued.
  - intros evs id ts. apply LeadsFacts.never_issued_L.
Qed.

Lemma C3_witness :
  GMaps.code (GMaps.get_job_status (GMaps.run GMaps.init gm_completed) "nonexistent-id") = 404
  /\ Leads.code (Leads.get_results (Leads.run Leads.init ld_completed) "nonexistent-id") = 404.
Proof.
  split.
  - destruct (proj1 C3_unknown_id_is_404 gm_completed "nonexistent-id" "20250101_000000")
      as [H _].
    + vm_compute. intros H. apply list_elem_of_singleton in H. discriminate H.
    + rewrite H. reflexivity.
  - destruct (proj2 C3_unknown_id_is_404 ld_completed "nonexistent-id" "20250101_000000")
      as (_ & H & _).
    + vm_compute. intros H. apply list_elem_of_singleton in H. discriminate H.
    + rewrite H. reflexivity.
Defined.







(** C6 (as amended).  In both wrappers, when a call into the extractor
    raises an exception that derives from Exception, the thread marks the
    job failed and sets its progress back to 0. *)
Theorem C6_failure_resets_progress :
  (forall ctor search extract now j e,
     GMaps.first_raise ctor search extract = Some e -> is_Exception e = true ->
     GMaps.status (GMaps.run_scraping_job ctor search extract now j).2 = failed
     /\ GMaps.progress (GMaps.run_scraping_job ctor search extract now j).2 = 0)
  /\ (forall now j e,
     is_Exception e = true ->
     Leads.status (Leads.run_extraction (Raises e) now j).2 = failed
     /\ Leads.progress (Leads.run_extraction (Raises e) now j).2 = 0).
Proof.
  split.
  - intros ctor search extract now j e H He.
    by rewrite (GMapsFacts.run_caught _ _ _ now j e H He).
  - intros now j e He. by rewrite (LeadsFacts.run_caught_L now j e He).
Qed.

Lemma C6_witness :
  GMaps.progress
    (GMaps.run_scraping_job (Returns []) (Raises crash) (Returns []) 101 gm_job).2 = 0
  /\ Leads.progress (Leads.run_extraction (Raises crash) 101 ld_job).2 = 0.
Proof.
  split.
  - apply (proj1 C6_failure_resets_progress
             (Returns []) (Raises crash) (Returns []) 101 gm_job crash);
      reflexivity.
  - apply (proj2 C6_failure_resets_progress 101 ld_job crash). reflexivity.
Defined.

(* C6 as first stated fails: when search_on_maps raises, six statements
   into the thread, the progress is 20; at the end of the thread it is 0. *)
Lemma C6_counterexample :
  let at_raise :=
    GMaps.run_from 6 (Returns []) (Raises crash) (Returns []) 101 GMaps.L45 gm_job in
  let at_end :=
    GMaps.run_scraping_job (Returns []) (Raises crash) (Returns []) 101 gm_job in
  at_raise.1 = GMaps.L67 "Cafes in Austin, USA"
  /\ GMaps.progress at_raise.2 = 20
  /\ GMaps.status at_end.2 = failed
  /\ GMaps.progress at_end.2 = 0
  /\ GMaps.progress at_end.2 <> GMaps.progress at_raise.2.
Proof. vm_compute. repeat split; discriminate. Qed.

(** C7 (as amended).  In both wrappers, for every job of every history:
    completed_at is unset while the job is pending or running and stays
    unset when it has failed; it is set only on a completed job (by the
    statement that follows the updates of status and progress), and once
    the thread has returned a completed job has it set. *)
Theorem C7_completed_at_only_when_completed :
  (forall evs r j,
     GMaps.heap (GMaps.run GMaps.init evs) !! r = Some j ->
     (is_Some (GMaps.completed_at j) -> GMaps.status j = completed)
     /\ (GMaps.status j = failed -> GMaps.completed_at j = None)
     /\ (GMaps.status j = pending \/ GMaps.status j = running ->
         GMaps.completed_at j = None)
     /\ exists t, GMaps.threads (GMaps.run GMaps.init evs) !! r = Some t
          /\ (GMaps.t_pc t = GMaps.Done -> GMaps.status j = completed ->
              is_Some (GMaps.completed_at j)))
  /\ (forall evs r j,
     Leads.heap (Leads.run Leads.init evs) !! r = Some j ->
     (is_Some (Leads.completed_at j) -> Leads.status j = completed)
     /\ (Leads.status j = failed -> Leads.completed_at j = None)
     /\ (Leads.status j = pending \/ Leads.status j = running ->
         Leads.completed_at j = None)
     /\ exists t, Leads.threads (Leads.run Leads.init evs) !! r = Some t
          /\ (Leads.t_pc t = Leads.Done -> Leads.status j = completed ->
              is_Some (Leads.completed_at j))).
Proof.
  split.
  - intros evs r j. apply GMapsFacts.completed_at_inv.
  - intros evs r j. apply LeadsFacts.completed_at_inv_L.
Qed.

Lemma C7_witness :
  GMaps.status
    (default gm_job (GMaps.heap (GMaps.run GMaps.init gm_completed) !! 0%nat)) = completed
  /\ Leads.completed_at
       (default ld_job (Leads.heap (Leads.run Leads.init ld_failed) !! 0%nat)) = None.
Proof.
  split.
  - destruct (proj1 C7_completed_at_only_when_completed gm_completed 0%nat
                (default gm_job (GMaps.heap (GMaps.run GMaps.init gm_completed) !! 0%nat)))
      as (H & _).
    + vm_compute. reflexivity.
    + apply H. vm_compute. eexists. reflexivity.
  - destruct (proj2 C7_completed_at_only_when_completed ld_failed 0%nat
                (default ld_job (Leads.heap (Leads.run Leads.init ld_failed) !! 0%nat)))
      as (_ & H & _).
    + vm_compute. reflexivity.
    + apply H. vm_compute. reflexivity.
Defined.

(* C7 as first stated fails: the job of this history went to failed and
   its completed_at is still unset. *)
Lemma C7_counterexample :
  (fun j => (GMaps.status j, GMaps.completed_at j))
    <$> GMaps.lookup_job (GMaps.run GMaps.init gm_failed) "job-1"
  = Some (failed, None)
  /\ (fun j => (Leads.status j, Leads.completed_at j))
       <$> Leads.lookup_job (Leads.run Leads.init ld_failed) "job-1"
     = Some (failed, None).
Proof. split; vm_compute; reflexivity. Qed.

(** C8.  In both wrappers, when a submission made after any history
    returns a job id, the table already maps that id to a job object
    carrying it, pending at progress 0, whose thread has not run a
    statement yet; and after any further history get_job_status on that
    id does not answer 404. *)
Theorem C8_registered_before_return :
  (forall evs0 data uuid now srv' c id m,
     GMaps.start_scraping (GMaps.run GMaps.init evs0) data uuid now
     = (srv', GMaps.mkResponse c (GMaps.Started id m)) ->
     (exists r j, GMaps.scraping_jobs srv' !! id = Some r
        /\ GMaps.heap srv' !! r = Some j
        /\ GMaps.job_id j = id /\ GMaps.status j = pending /\ GMaps.progress j = 0
        /\ GMaps.threads srv' !! r = Some (GMaps.mkThread r GMaps.L45))
     /\ forall evs, GMaps.code (GMaps.get_job_status (GMaps.run srv' evs) id) <> 404)
  /\ (forall evs0 data uuid now srv' c id m,
     Leads.start_extraction (Leads.run Leads.init evs0) data uuid now
     = (srv', Leads.mkResponse c (Leads.Started id m)) ->
     (exists r j, Leads.extraction_jobs srv' !! id = Some r
        /\ Leads.heap srv' !! r = Some j
        /\ Leads.job_id j = id /\ Leads.status j = pending /\ Leads.progress j = 0
        /\ Leads.threads srv' !! r = Some (Leads.mkThread r Leads.L43))
     /\ forall evs, Leads.code (Leads.get_job_status (Leads.run srv' evs) id) <> 404).
Proof.
  split.
  - intros evs0 data uuid now srv' c id m. apply GMapsFacts.registered.
  - intros evs0 data uuid now srv' c id m. apply LeadsFacts.registered_L.
Qed.

Lemma C8_witness :
  GMaps.code (GMaps.get_job_status
                (GMaps.run (GMaps.start_scraping GMaps.init cafes "job-1" 100).1 (quiet 17))
                "job-1") <> 404
  /\ Leads.code (Leads.get_job_status
                   (Leads.run (Leads.start_extraction Leads.init tech "job-1" 100).1 (calm 5))
                   "job-1") <> 404.
Proof.
  split.
  - apply (proj1 C8_registered_before_return [] cafes "job-1" 100
             (GMaps.start_scraping GMaps.init cafes "job-1" 100).1 200 "job-1"
             "Scraping started with email extraction enabled").
    vm_compute. reflexivity.
  - apply (proj2 C8_registered_before_return [] tech "job-1" 100
             (Leads.start_extraction Leads.init tech "job-1" 100).1 200 "job-1"
             "Extraction started").
    vm_compute. reflexivity.
Defined.




(** C10.  In the Google Maps wrapper, for a completed job the results
    endpoint reports total = the number of stored records and with_emails,
    with_websites, with_linkedin = the number of stored records whose
    email, website, linkedin is not empty; the status endpoint (once
    completed_at is set) reports results_count, emails_found and
    websites_found with the same values. *)
Theorem C10_statistics_count_records :
  forall srv id j,
    GMaps.lookup_job srv id = Some j -> GMaps.status j = completed ->
    let count key :=
      Z.of_nat (List.length
                  (List.filter (fun r => Text.nonempty (GMaps.get_field r key))
                     (GMaps.results j))) in
    GMaps.get_results srv id
    = GMaps.ok (GMaps.ResultsView id (GMaps.results j)
                  (GMaps.mkStats (Z.of_nat (List.length (GMaps.results j)))
                     (count "email") (count "website") (count "linkedin")))
    /\ forall t, GMaps.completed_at j = Some t ->
       GMaps.get_job_status srv id
       = GMaps.ok (GMaps.StatusView id completed (GMaps.progress j) (GMaps.created_at j)
                     (GMaps.CompletedExtra t (Z.of_nat (List.length (GMaps.results j)))
                        (count "email") (count "website"))).
Proof. intros srv id j. apply GMapsFacts.statistics_counts. Qed.

Lemma C10_witness :
  exists rows,
    GMaps.get_results (GMaps.run GMaps.init gm_completed) "job-1"
    = GMaps.ok (GMaps.ResultsView "job-1" rows (GMaps.mkStats 2 1 1 0)).
Proof.
  destruct (C10_statistics_count_records (GMaps.run GMaps.init gm_completed) "job-1"
              (default gm_job (GMaps.lookup_job (GMaps.run GMaps.init gm_completed) "job-1")))
    as [H _].
  - vm_compute. reflexivity.
  - vm_compute. reflexivity.
  - eexists. rewrite H. vm_compute. reflexivity.
Defined.

(* --------------------------------------------------------------------- *)
(* More facts: the checkpoints of progress, the stored records, the names  *)
(* of the downloads, the scraper and the extractor.                        *)
(* --------------------------------------------------------------------- *)

Module GMapsInvFacts.
Import Text Py Order Common GMaps GMapsFacts GMapsInv.

(* what an event does to thread r and job object r *)
Lemma exec_cases srv ev r t' j' :
  wf srv ->
  threads (exec srv ev).1 !! r = Some t' -> heap (exec srv ev).1 !! r = Some j' ->
  (threads srv !! r = Some t' /\ heap srv !! r = Some j')
  \/ (exists t j now o,
        threads srv !! r = Some t /\ heap srv !! r = Some j
        /\ t' = mkThread r (thread_step now o (t_pc t) j).1
        /\ j' = (thread_step now o (t_pc t) j).2)
  \/ (exists id l c s b m now,
        r = List.length (heap srv) /\ t' = mkThread r L45
        /\ j' = new_job id l c s b m now).
Proof.
  intros Hwf Ht' Hj'.
  destruct ev as [data uuid now | ? | ? | ? ? | tid now o]; simpl in *; auto.
  - destruct (start_scraping srv data uuid now) as [srv' rsp] eqn:Hs. simpl in *.
    apply start_scraping_inv in Hs
      as [(-> & _) | (l & c & st & b & z & m & _ & -> & _)]; [auto |].
    simpl in *. pose proof (wf_lengths _ Hwf) as Hlen.
    apply lookup_app_Some in Ht' as [Ht' | [Hge Ht']].
    + left. split; [assumption |].
      apply lookup_lt_Some in Ht'. rewrite lookup_app_l in Hj' by lia. assumption.
    + right. right. apply list_lookup_singleton_Some in Ht' as [Hr <-].
      assert (r = List.length (heap srv)) as -> by lia.
      rewrite lookup_app_r in Hj' by lia. rewrite Nat.sub_diag in Hj'.
      injection Hj' as <-. eauto 10.
  - unfold step_thread in *.
    destruct (threads srv !! tid) as [t|] eqn:Ht; [| auto].
    destruct (heap srv !! t_job t) as [j|] eqn:Hj; [| auto].
    destruct (wf_thread _ _ _ Hwf Ht) as [Htj Hlt].
    destruct (thread_step now o (t_pc t) j) as [p1 j1] eqn:Hstep. simpl in *.
    destruct (decide (r = tid)) as [-> | Hne].
    + right. left. exists t, j, now, o. rewrite Htj in *.
      rewrite list_lookup_insert_eq in Ht' by (by eapply lookup_lt_Some).
      rewrite list_lookup_insert_eq in Hj' by lia.
      rewrite Hstep. simpl. repeat split; congruence.
    + left. rewrite list_lookup_insert_ne in Ht' by congruence.
      rewrite list_lookup_insert_ne in Hj' by lia. auto.
Qed.

(* a property of pc and job that the first statement finds and every
   statement keeps holds in every history *)
Lemma invariant_rule (I : pc -> ScrapingJob -> Prop) :
  (forall id l c s b m now, I L45 (new_job id l c s b m now)) ->
  (forall now o p j, pc_inv p j -> I p j ->
     I (thread_step now o p j).1 (thread_step now o p j).2) ->
  forall evs r t j,
    threads (run init evs) !! r = Some t -> heap (run init evs) !! r = Some j ->
    I (t_pc t) j.
Proof.
  intros Hnew Hstep.
  assert (Hgen : forall evs srv,
             wf srv ->
             (forall r t j, threads srv !! r = Some t -> heap srv !! r = Some j ->
                            I (t_pc t) j) ->
             forall r t j, threads (run srv evs) !! r = Some t ->
                           heap (run srv evs) !! r = Some j -> I (t_pc t) j).
  { induction evs as [|ev evs IH]; intros srv Hwf HI; [exact HI |].
    simpl. apply IH; [by apply wf_exec |].
    intros r t' j' Ht' Hj'.
    destruct (exec_cases srv ev r t' j' Hwf Ht' Hj')
      as [[Ht Hj] | [(t & j & now & o & Ht & Hj & -> & ->)
                    | (id & l & c & s & b & m & now & -> & -> & ->)]].
    - by apply (HI r).
    - simpl. apply Hstep; [| by apply (HI r)].
      destruct (wf_thread _ _ _ Hwf Ht) as [Htj _].
      apply (wf_pc _ Hwf r); [assumption | by rewrite Htj].
    - apply Hnew. }
  intros evs. apply Hgen; [apply wf_init |].
  intros r t j H. simpl in H. by rewrite lookup_nil in H.
Qed.

Lemma has_fields_cleaned (r : record) : has_fields (cleaned_result r).
Proof.
  intros k.
  change (cleaned_result r)
    with (list_to_map (map (fun f => (f, get_field r f)) fieldnames) : record).
  split.
  - intros [v Hv]. apply elem_of_list_to_map_2 in Hv.
    apply list_elem_of_In, in_map_iff in Hv as [f [[= <- _] Hf]].
    by apply list_elem_of_In.
  - intros Hk. exists (get_field r k).
    apply elem_of_list_to_map_1.
    + assert ((map (fun f => (f, get_field r f)) fieldnames).*1 = fieldnames) as ->
        by reflexivity.
      apply NoDup_fieldnames.
    + apply list_elem_of_In, in_map_iff. exists k. split; [reflexivity |].
      by apply list_elem_of_In.
Qed.

Lemma shape_step now o p j :
  pc_inv p j -> shape p j ->
  shape (thread_step now o p j).1 (thread_step now o p j).2.
Proof.
  unfold shape.
  step_cases p o; intros Hpc (Hp & Hr & Hl); simpl in *;
    (split; [| split]); try exact I; try assumption;
    try (apply list_elem_of_In; apply list_elem_of_In in Hp; simpl in *;
         intuition lia).
  all: try (apply Forall_forall; intros x Hx;
            apply list_elem_of_In, in_map_iff in Hx as [r0 [<- _]];
            apply has_fields_cleaned).
Qed.

Lemma shape_reach evs r t j :
  threads (run init evs) !! r = Some t -> heap (run init evs) !! r = Some j ->
  shape (t_pc t) j.
Proof.
  apply (invariant_rule shape).
  - intros. repeat split; simpl; [by constructor | constructor].
  - apply shape_step.
Qed.

(* one statement: progress grows or is reset by the except block *)
Lemma progress_step now o p j :
  pc_inv p j -> shape p j ->
  progress j <= progress (thread_step now o p j).2
  \/ (status (thread_step now o p j).2 = failed
      /\ progress (thread_step now o p j).2 = 0).
Proof.
  unfold shape.
  step_cases p o; intros Hpc (Hp & _); simpl in *;
    try (left; lia);
    try (left; apply list_elem_of_In in Hp; simpl in Hp; lia).
  all: right; destruct_and?; auto.
Qed.

(* one statement: the parameters stay, and so do the records of a
   completed job *)
Lemma frozen_step now o p j :
  pc_inv p j ->
  parameters (thread_step now o p j).2 = parameters j
  /\ (status j = completed -> results (thread_step now o p j).2 = results j)
  /\ (status j = failed -> results (thread_step now o p j).2 = results j).
Proof.
  step_cases p o; intros Hpc; simpl in *; destruct_and?;
    repeat split; intros; congruence.
Qed.

Lemma checkpoint_at p z : z ∈ progress_at p -> z ∈ checkpoints.
Proof.
  intros H. apply list_elem_of_In in H. apply list_elem_of_In.
  destruct p as [| | | | | | | | | | | | | | | | [|] | | | | | |];
    simpl in *; intuition lia.
Qed.

(* an event leaves a job object alone or runs one statement of its thread *)
Lemma exec_job evs ev r j :
  heap (run init evs) !! r = Some j ->
  exists j', heap (exec (run init evs) ev).1 !! r = Some j'
    /\ (j' = j
        \/ exists t now o, threads (run init evs) !! r = Some t
             /\ pc_inv (t_pc t) j /\ shape (t_pc t) j
             /\ j' = (thread_step now o (t_pc t) j).2).
Proof.
  intros Hj. pose proof (wf_reach evs) as Hwf.
  destruct (exec_heap _ ev r j Hwf Hj) as (j' & Hj' & _).
  exists j'. split; [assumption |].
  destruct (wf_thread_of _ r j' (wf_exec _ ev Hwf) Hj') as (t' & Ht' & _ & _).
  destruct (exec_cases _ ev r t' j' Hwf Ht' Hj')
    as [[Ht Hj0] | [(t & j0 & now & o & Ht & Hj0 & -> & ->)
                   | (id & l & c & s & b & m & now & -> & _)]].
  - left. congruence.
  - assert (j0 = j) as -> by congruence. right. exists t, now, o.
    split; [assumption |].
    destruct (wf_thread _ _ _ Hwf Ht) as [Htj _].
    split; [apply (wf_pc _ Hwf r); [assumption | by rewrite Htj] |].
    split; [by apply (shape_reach evs r) | reflexivity].
  - apply lookup_lt_Some in Hj. lia.
Qed.

Lemma run_snoc srv evs ev : run srv (evs ++ [ev]) = (exec (run srv evs) ev).1.
Proof. by rewrite run_app. Qed.

Lemma progress_history evs1 evs2 r j1 :
  heap (run init evs1) !! r = Some j1 ->
  exists j2,
    heap (run init (evs1 ++ evs2)) !! r = Some j2
    /\ progress j2 ∈ checkpoints
    /\ (status j2 <> failed -> progress j1 <= progress j2)
    /\ (status j2 = completed -> 90 <= progress j2).
Proof.
  intros Hj1. induction evs2 as [|ev evs2 IH] using rev_ind.
  - rewrite app_nil_r. exists j1. split; [assumption |].
    destruct (wf_thread_of _ r j1 (wf_reach evs1) Hj1) as (t & Ht & _ & Hpc).
    destruct (shape_reach evs1 r t j1 Ht Hj1) as (Hp & _).
    split; [by eapply checkpoint_at |]. split; [lia |].
    intros Hst. apply list_elem_of_In in Hp.
    destruct (t_pc t) as [| | | | | | | | | | | | | | | | [|] | | | | | |];
      simpl in *; try destruct Hpc as [Hpc | Hpc]; destruct_and?;
      try congruence; intuition lia.
  - destruct IH as (j2 & Hj2 & Hc2 & Hm2 & _).
    rewrite app_assoc, run_snoc.
    destruct (exec_job (evs1 ++ evs2) ev r j2 Hj2) as (j3 & Hj3 & Hcase).
    exists j3. split; [assumption |].
    destruct (wf_thread_of _ r j3 (wf_exec _ ev (wf_reach (evs1 ++ evs2))) Hj3)
      as (t3 & Ht3 & _ & Hpc3).
    rewrite <- run_snoc in Ht3, Hj3.
    destruct (shape_reach _ r t3 j3 Ht3 Hj3) as (Hp3 & _).
    split; [by eapply checkpoint_at |].
    split.
    + destruct Hcase as [-> | (t & now & o & Ht & Hpc & Hsh & ->)]; [assumption |].
      intros Hnf.
      destruct (progress_step now o _ _ Hpc Hsh) as [Hle | [Hf _]]; [| congruence].
      assert (status j2 <> failed).
      { intros Hf. destruct (thread_step_status now o _ _ Hpc) as [Heq | Hfw].
        - congruence.
        - rewrite Hf in Hfw. inversion Hfw. }
      specialize (Hm2 H). lia.
    + intros Hst. apply list_elem_of_In in Hp3.
      destruct (t_pc t3) as [| | | | | | | | | | | | | | | | [|] | | | | | |];
        simpl in *; try destruct Hpc3 as [Hpc3 | Hpc3]; destruct_and?;
        try congruence; intuition lia.
Qed.

Lemma frozen_history evs1 evs2 r j1 :
  heap (run init evs1) !! r = Some j1 ->
  exists j2,
    heap (run init (evs1 ++ evs2)) !! r = Some j2
    /\ parameters j2 = parameters j1
    /\ (status j1 = completed -> results j2 = results j1)
    /\ (status j2 = pending \/ status j2 = failed -> results j2 = []).
Proof.
  intros Hj1. induction evs2 as [|ev evs2 IH] using rev_ind.
  - rewrite app_nil_r. exists j1. split; [assumption |].
    split; [reflexivity |]. split; [reflexivity |].
    destruct (wf_thread_of _ r j1 (wf_reach evs1) Hj1) as (t & Ht & _ & Hpc).
    intros Hst.
    destruct (t_pc t) as [| | | | | | | | | | | | | | | | [|] | | | | | |];
      simpl in *; try destruct Hpc as [Hpc | Hpc]; destruct_and?;
      destruct Hst; congruence.
  - destruct IH as (j2 & Hj2 & Hpar & Hres & _).
    rewrite app_assoc, run_snoc.
    destruct (exec_job (evs1 ++ evs2) ev r j2 Hj2) as (j3 & Hj3 & Hcase).
    exists j3. split; [assumption |].
    assert (Hfw : forward (status j1) (status j2)).
    { destruct (run_heap evs2 _ r j1 (wf_reach evs1) Hj1) as (j2' & Hj2' & _ & Hfw).
      rewrite <- run_app in Hj2'. congruence. }
    destruct (wf_thread_of _ r j3 (wf_exec _ ev (wf_reach (evs1 ++ evs2))) Hj3)
      as (t3 & Ht3 & _ & Hpc3).
    assert (Hempty : status j3 = pending \/ status j3 = failed -> results j3 = []).
    { intros Hst.
      destruct (t_pc t3) as [| | | | | | | | | | | | | | | | [|] | | | | | |];
        simpl in *; try destruct Hpc3 as [Hpc3 | Hpc3]; destruct_and?;
        destruct Hst; congruence. }
    destruct Hcase as [-> | (t & now & o & Ht & Hpc & Hsh & ->)];
      [by repeat split |].
    destruct (frozen_step now o _ _ Hpc) as (Hp & Hc & _).
    split; [congruence |]. split; [| assumption].
    intros Hst. rewrite Hc; [by apply Hres |].
    rewrite <- Hst. apply (forward_terminal _ _ Hfw). by rewrite Hst.
Qed.

(* between "status = completed" and "completed_at = now" *)
Lemma status_window evs r t j :
  threads (run init evs) !! r = Some t -> heap (run init evs) !! r = Some j ->
  t_pc t = L91 \/ t_pc t = L92 ->
  scraping_jobs (run init evs) !! job_id j = Some r ->
  get_job_status (run init evs) (job_id j) = mkResponse 500 Unhandled
  /\ code (get_results (run init evs) (job_id j)) = 200.
Proof.
  intros Ht Hj Hpc Hid. pose proof (wf_reach evs) as Hwf.
  destruct (wf_thread _ _ _ Hwf Ht) as [Htj _].
  assert (Hinv : pc_inv (t_pc t) j)
    by (apply (wf_pc _ Hwf r); [assumption | by rewrite Htj]).
  assert (Hst : status j = completed /\ completed_at j = None).
  { destruct Hpc as [Hp | Hp]; rewrite Hp in Hinv; simpl in Hinv; by destruct_and?. }
  destruct Hst as [Hst Hc].
  unfold get_job_status, get_results, lookup_job. rewrite Hid. simpl.
  rewrite Hj, Hst, Hc. by split.
Qed.

Lemma stored_fields evs r j rec :
  heap (run init evs) !! r = Some j -> In rec (results j) ->
  has_fields rec /\ csv_row rec = rec.
Proof.
  intros Hj Hin.
  destruct (wf_thread_of _ r j (wf_reach evs) Hj) as (t & Ht & _ & _).
  destruct (shape_reach evs r t j Ht Hj) as (_ & Hall & _).
  rewrite Forall_forall in Hall.
  assert (Hf : has_fields rec) by (by apply Hall, list_elem_of_In).
  split; [assumption |].
  apply map_eq. intros k.
  change (csv_row rec)
    with (list_to_map (map (fun f => (f, get_field rec f)) fieldnames) : record).
  destruct (decide (k ∈ fieldnames)) as [Hk | Hk].
  - destruct (proj2 (Hf k) Hk) as [v Hv]. rewrite Hv.
    apply elem_of_list_to_map_1.
    + assert ((map (fun f => (f, get_field rec f)) fieldnames).*1 = fieldnames) as ->
        by reflexivity.
      apply NoDup_fieldnames.
    + apply list_elem_of_In, in_map_iff. exists k.
      unfold get_field. rewrite Hv. split; [reflexivity | by apply list_elem_of_In].
  - assert (rec !! k = None) as ->.
    { destruct (rec !! k) eqn:E; [| reflexivity].
      destruct Hk. apply Hf. eauto. }
    apply not_elem_of_list_to_map_1.
    assert ((map (fun f => (f, get_field rec f)) fieldnames).*1 = fieldnames) as ->
      by reflexivity.
    assumption.
Qed.

Lemma filter_length_le {A : Type} (f : A -> bool) (l : list A) :
  (List.length (List.filter f l) <= List.length l)%nat.
Proof. induction l as [|a l IH]; simpl; [lia |]. destruct (f a); simpl; lia. Qed.

Lemma statistics_bounded srv id rows st :
  get_results srv id = ok (ResultsView id rows st) ->
  total st = Z.of_nat (List.length rows)
  /\ 0 <= with_emails st <= total st
  /\ 0 <= with_websites st <= total st
  /\ 0 <= with_linkedin st <= total st.
Proof.
  unfold get_results.
  destruct (lookup_job srv id) as [j|]; [| discriminate].
  destruct (negb (Status_eqb (status j) completed)); [discriminate |].
  intros [= <- <-]. simpl. rewrite !sum_if_get_count.
  pose proof (filter_length_le (blank_free "email") (results j)).
  pose proof (filter_length_le (blank_free "website") (results j)).
  pose proof (filter_length_le (blank_free "linkedin") (results j)).
  lia.
Qed.

(* error_message is the mark of a failed job *)
Lemma error_message_inv evs r j :
  heap (run init evs) !! r = Some j ->
  (is_Some (error_message j) -> status j = failed)
  /\ exists t, threads (run init evs) !! r = Some t
       /\ (finished (t_pc t) = true -> status j = failed -> is_Some (error_message j)).
Proof.
  intros Hj. destruct (wf_thread_of _ r j (wf_reach evs) Hj) as (t & Ht & _ & Hpc).
  split.
  - intros [m Hm].
    destruct (t_pc t) as [| | | | | | | | | | | | | | | | [|] | | | | | |];
      simpl in *; try destruct Hpc as [Hpc | Hpc]; destruct_and?; congruence.
  - exists t. split; [assumption |].
    intros Hfin Hst.
    destruct (t_pc t) as [| | | | | | | | | | | | | | | | [|] | | | | | |];
      simpl in *; try discriminate; try destruct Hpc as [Hpc | Hpc];
      destruct_and?; try congruence; assumption.
Qed.

End GMapsInvFacts.

Module LeadsInvFacts.
Import Text Py Order Common Leads LeadsFacts LeadsInv.

(* what an event does to thread r and job object r *)
Lemma exec_cases_L srv ev r t' j' :
  wf srv ->
  threads (exec srv ev).1 !! r = Some t' -> heap (exec srv ev).1 !! r = Some j' ->
  (threads srv !! r = Some t' /\ heap srv !! r = Some j')
  \/ (exists t j now o,
        threads srv !! r = Some t /\ heap srv !! r = Some j
        /\ t' = mkThread r (thread_step now o (t_pc t) j).1
        /\ j' = (thread_step now o (t_pc t) j).2)
  \/ (exists id c i m now,
        r = List.length (heap srv) /\ t' = mkThread r L43
        /\ j' = new_job id c i m now).
Proof.
  intros Hwf Ht' Hj'.
  destruct ev as [data uuid now | ? | ? | ? ? | tid now o]; simpl in *; auto.
  - destruct (start_extraction srv data uuid now) as [srv' rsp] eqn:Hs. simpl in *.
    apply start_extraction_inv_L in Hs
      as [(-> & _) | (l & z & m & _ & -> & _)]; [auto |].
    simpl in *. pose proof (wf_lengths_L _ Hwf) as Hlen.
    apply lookup_app_Some in Ht' as [Ht' | [Hge Ht']].
    + left. split; [assumption |].
      apply lookup_lt_Some in Ht'. rewrite lookup_app_l in Hj' by lia. assumption.
    + right. right. apply list_lookup_singleton_Some in Ht' as [Hr <-].
      assert (r = List.length (heap srv)) as -> by lia.
      rewrite lookup_app_r in Hj' by lia. rewrite Nat.sub_diag in Hj'.
      injection Hj' as <-. eauto 10.
  - unfold step_thread in *.
    destruct (threads srv !! tid) as [t|] eqn:Ht; [| auto].
    destruct (heap srv !! t_job t) as [j|] eqn:Hj; [| auto].
    destruct (wf_thread_L _ _ _ Hwf Ht) as [Htj Hlt].
    destruct (thread_step now o (t_pc t) j) as [p1 j1] eqn:Hstep. simpl in *.
    destruct (decide (r = tid)) as [-> | Hne].
    + right. left. exists t, j, now, o. rewrite Htj in *.
      rewrite list_lookup_insert_eq in Ht' by (by eapply lookup_lt_Some).
      rewrite list_lookup_insert_eq in Hj' by lia.
      rewrite Hstep. simpl. repeat split; congruence.
    + left. rewrite list_lookup_insert_ne in Ht' by congruence.
      rewrite list_lookup_insert_ne in Hj' by lia. auto.
Qed.

(* a property of pc and job that the first statement finds and every
   statement keeps holds in every history *)
Lemma invariant_rule_L (I : pc -> ExtractionJob -> Prop) :
  (forall id c i m now, I L43 (new_job id c i m now)) ->
  (forall now o p j, pc_inv p j -> I p j ->
     I (thread_step now o p j).1 (thread_step now o p j).2) ->
  forall evs r t j,
    threads (run init evs) !! r = Some t -> heap (run init evs) !! r = Some j ->
    I (t_pc t) j.
Proof.
  intros Hnew Hstep.
  assert (Hgen : forall evs srv,
             wf srv ->
             (forall r t j, threads srv !! r = Some t -> heap srv !! r = Some j ->
                            I (t_pc t) j) ->
             forall r t j, threads (run srv evs) !! r = Some t ->
                           heap (run srv evs) !! r = Some j -> I (t_pc t) j).
  { induction evs as [|ev evs IH]; intros srv Hwf HI; [exact HI |].
    simpl. apply IH; [by apply wf_exec_L |].
    intros r t' j' Ht' Hj'.
    destruct (exec_cases_L srv ev r t' j' Hwf Ht' Hj')
      as [[Ht Hj] | [(t & j & now & o & Ht & Hj & -> & ->)
                    | (id & c & i & m & now & -> & -> & ->)]].
    - by apply (HI r).
    - simpl. apply Hstep; [| by apply (HI r)].
      destruct (wf_thread_L _ _ _ Hwf Ht) as [Htj _].
      apply (wf_pc _ Hwf r); [assumption | by rewrite Htj].
    - apply Hnew. }
  intros evs. apply Hgen; [apply wf_init_L |].
  intros r t j H. simpl in H. by rewrite lookup_nil in H.
Qed.

Lemma shape_step_L now o p j :
  pc_inv p j -> shape p j ->
  shape (thread_step now o p j).1 (thread_step now o p j).2.
Proof.
  unfold shape.
  step_cases_L p o; intros Hpc Hp; simpl in *; try assumption;
    apply list_elem_of_In; apply list_elem_of_In in Hp; simpl in *; intuition lia.
Qed.

Lemma shape_reach_L evs r t j :
  threads (run init evs) !! r = Some t -> heap (run init evs) !! r = Some j ->
  shape (t_pc t) j.
Proof.
  apply (invariant_rule_L shape).
  - intros. unfold shape. simpl. by constructor.
  - apply shape_step_L.
Qed.

(* one statement: progress grows or is reset by the except block *)
Lemma progress_step_L now o p j :
  pc_inv p j -> shape p j ->
  progress j <= progress (thread_step now o p j).2
  \/ (status (thread_step now o p j).2 = failed
      /\ progress (thread_step now o p j).2 = 0).
Proof.
  unfold shape.
  step_cases_L p o; intros Hpc Hp; simpl in *;
    try (left; lia);
    try (left; apply list_elem_of_In in Hp; simpl in Hp; lia).
  all: right; destruct_and?; auto.
Qed.

(* one statement: the parameters stay, and so do the records of a
   completed job *)
Lemma frozen_step_L now o p j :
  pc_inv p j ->
  parameters (thread_step now o p j).2 = parameters j
  /\ (status j = completed -> results (thread_step now o p j).2 = results j)
  /\ (status j = failed -> results (thread_step now o p j).2 = results j).
Proof.
  step_cases_L p o; intros Hpc; simpl in *; destruct_and?;
    repeat split; intros; congruence.
Qed.

Lemma checkpoint_at_L p z : z ∈ progress_at p -> z ∈ checkpoints.
Proof.
  intros H. apply list_elem_of_In in H. apply list_elem_of_In.
  destruct p;
    simpl in *; intuition lia.
Qed.

(* an event leaves a job object alone or runs one statement of its thread *)
Lemma exec_job_L evs ev r j :
  heap (run init evs) !! r = Some j ->
  exists j', heap (exec (run init evs) ev).1 !! r = Some j'
    /\ (j' = j
        \/ exists t now o, threads (run init evs) !! r = Some t
             /\ pc_inv (t_pc t) j /\ shape (t_pc t) j
             /\ j' = (thread_step now o (t_pc t) j).2).
Proof.
  intros Hj. pose proof (wf_reach_L evs) as Hwf.
  destruct (exec_heap_L _ ev r j Hwf Hj) as (j' & Hj' & _).
  exists j'. split; [assumption |].
  destruct (wf_thread_of_L _ r j' (wf_exec_L _ ev Hwf) Hj') as (t' & Ht' & _ & _).
  destruct (exec_cases_L _ ev r t' j' Hwf Ht' Hj')
    as [[Ht Hj0] | [(t & j0 & now & o & Ht & Hj0 & -> & ->)
                   | (id & c & i & m & now & -> & _)]].
  - left. congruence.
  - assert (j0 = j) as -> by congruence. right. exists t, now, o.
    split; [assumption |].
    destruct (wf_thread_L _ _ _ Hwf Ht) as [Htj _].
    split; [apply (wf_pc _ Hwf r); [assumption | by rewrite Htj] |].
    split; [by apply (shape_reach_L evs r) | reflexivity].
  - apply lookup_lt_Some in Hj. lia.
Qed.

Lemma run_snoc_L srv evs ev : run srv (evs ++ [ev]) = (exec (run srv evs) ev).1.
Proof. by rewrite run_app_L. Qed.

Lemma progress_history_L evs1 evs2 r j1 :
  heap (run init evs1) !! r = Some j1 ->
  exists j2,
    heap (run init (evs1 ++ evs2)) !! r = Some j2
    /\ progress j2 ∈ checkpoints
    /\ (status j2 <> failed -> progress j1 <= progress j2)
    /\ (status j2 = completed -> 90 <= progress j2).
Proof.
  intros Hj1. induction evs2 as [|ev evs2 IH] using rev_ind.
  - rewrite app_nil_r. exists j1. split; [assumption |].
    destruct (wf_thread_of_L _ r j1 (wf_reach_L evs1) Hj1) as (t & Ht & _ & Hpc).
    pose proof (shape_reach_L evs1 r t j1 Ht Hj1) as Hp. unfold shape in Hp.
    split; [by eapply checkpoint_at_L |]. split; [lia |].
    intros Hst. apply list_elem_of_In in Hp.
    destruct (t_pc t);
      simpl in *; try destruct Hpc as [Hpc | Hpc]; destruct_and?;
      try congruence; intuition lia.
  - destruct IH as (j2 & Hj2 & Hc2 & Hm2 & _).
    rewrite app_assoc, run_snoc_L.
    destruct (exec_job_L (evs1 ++ evs2) ev r j2 Hj2) as (j3 & Hj3 & Hcase).
    exists j3. split; [assumption |].
    destruct (wf_thread_of_L _ r j3 (wf_exec_L _ ev (wf_reach_L (evs1 ++ evs2))) Hj3)
      as (t3 & Ht3 & _ & Hpc3).
    rewrite <- run_snoc_L in Ht3, Hj3.
    pose proof (shape_reach_L _ r t3 j3 Ht3 Hj3) as Hp3. unfold shape in Hp3.
    split; [by eapply checkpoint_at_L |].
    split.
    + destruct Hcase as [-> | (t & now & o & Ht & Hpc & Hsh & ->)]; [assumption |].
      intros Hnf.
      destruct (progress_step_L now o _ _ Hpc Hsh) as [Hle | [Hf _]]; [| congruence].
      assert (status j2 <> failed).
      { intros Hf. destruct (thread_step_status_L now o _ _ Hpc) as [Heq | Hfw].
        - congruence.
        - rewrite Hf in Hfw. inversion Hfw. }
      specialize (Hm2 H). lia.
    + intros Hst. apply list_elem_of_In in Hp3.
      destruct (t_pc t3);
        simpl in *; try destruct Hpc3 as [Hpc3 | Hpc3]; destruct_and?;
        try congruence; intuition lia.
Qed.

Lemma frozen_history_L evs1 evs2 r j1 :
  heap (run init evs1) !! r = Some j1 ->
  exists j2,
    heap (run init (evs1 ++ evs2)) !! r = Some j2
    /\ parameters j2 = parameters j1
    /\ (status j1 = completed -> results j2 = results j1)
    /\ (status j2 = pending \/ status j2 = failed -> results j2 = []).
Proof.
  intros Hj1. induction evs2 as [|ev evs2 IH] using rev_ind.
  - rewrite app_nil_r. exists j1. split; [assumption |].
    split; [reflexivity |]. split; [reflexivity |].
    destruct (wf_thread_of_L _ r j1 (wf_reach_L evs1) Hj1) as (t & Ht & _ & Hpc).
    intros Hst.
    destruct (t_pc t);
      simpl in *; try destruct Hpc as [Hpc | Hpc]; destruct_and?;
      destruct Hst; congruence.
  - destruct IH as (j2 & Hj2 & Hpar & Hres & _).
    rewrite app_assoc, run_snoc_L.
    destruct (exec_job_L (evs1 ++ evs2) ev r j2 Hj2) as (j3 & Hj3 & Hcase).
    exists j3. split; [assumption |].
    assert (Hfw : forward (status j1) (status j2)).
    { destruct (run_heap_L evs2 _ r j1 (wf_reach_L evs1) Hj1) as (j2' & Hj2' & _ & Hfw).
      rewrite <- run_app_L in Hj2'. congruence. }
    destruct (wf_thread_of_L _ r j3 (wf_exec_L _ ev (wf_reach_L (evs1 ++ evs2))) Hj3)
      as (t3 & Ht3 & _ & Hpc3).
    assert (Hempty : status j3 = pending \/ status j3 = failed -> results j3 = []).
    { intros Hst.
      destruct (t_pc t3);
        simpl in *; try destruct Hpc3 as [Hpc3 | Hpc3]; destruct_and?;
        destruct Hst; congruence. }
    destruct Hcase as [-> | (t & now & o & Ht & Hpc & Hsh & ->)];
      [by repeat split |].
    destruct (frozen_step_L now o _ _ Hpc) as (Hp & Hc & _).
    split; [congruence |]. split; [| assumption].
    intros Hst. rewrite Hc; [by apply Hres |].
    rewrite <- Hst. apply (forward_terminal _ _ Hfw). by rewrite Hst.
Qed.

(* between "status = completed" and "completed_at = now" *)
Lemma status_window_L evs r t j :
  threads (run init evs) !! r = Some t -> heap (run init evs) !! r = Some j ->
  t_pc t = L58 \/ t_pc t = L59 ->
  extraction_jobs (run init evs) !! job_id j = Some r ->
  get_job_status (run init evs) (job_id j) = mkResponse 500 Unhandled
  /\ code (get_results (run init evs) (job_id j)) = 200.
Proof.
  intros Ht Hj Hpc Hid. pose proof (wf_reach_L evs) as Hwf.
  destruct (wf_thread_L _ _ _ Hwf Ht) as [Htj _].
  assert (Hinv : pc_inv (t_pc t) j)
    by (apply (wf_pc _ Hwf r); [assumption | by rewrite Htj]).
  assert (Hst : status j = completed /\ completed_at j = None).
  { destruct Hpc as [Hp | Hp]; rewrite Hp in Hinv; simpl in Hinv; by destruct_and?. }
  destruct Hst as [Hst Hc].
  unfold get_job_status, get_results, lookup_job. rewrite Hid. simpl.
  rewrite Hj, Hst, Hc. by split.
Qed.

(* error_message is the mark of a failed job *)
Lemma error_message_inv_L evs r j :
  heap (run init evs) !! r = Some j ->
  (is_Some (error_message j) -> status j = failed)
  /\ exists t, threads (run init evs) !! r = Some t
       /\ (finished (t_pc t) = true -> status j = failed -> is_Some (error_message j)).
Proof.
  intros Hj. destruct (wf_thread_of_L _ r j (wf_reach_L evs) Hj) as (t & Ht & _ & Hpc).
  split.
  - intros [m Hm].
    destruct (t_pc t);
      simpl in *; try destruct Hpc as [Hpc | Hpc]; destruct_and?; congruence.
  - exists t. split; [assumption |].
    intros Hfin Hst.
    destruct (t_pc t);
      simpl in *; try discriminate; try destruct Hpc as [Hpc | Hpc];
      destruct_and?; try congruence; assumption.
Qed.

(* a job whose thread was ended by an exception that is no Exception *)
Lemma died_job_L evs1 evs2 r t j e :
  threads (run init evs1) !! r = Some t -> t_pc t = Died e ->
  heap (run init evs1) !! r = Some j ->
  status j = running /\ progress j = 20 /\ results j = []
  /\ error_message j = None
  /\ heap (run init (evs1 ++ evs2)) !! r = Some j.
Proof.
  intros Ht Hp Hj.
  pose proof (shape_reach_L _ _ _ _ Ht Hj) as Hs. rewrite Hp in Hs.
  destruct (wf_thread_L _ _ _ (wf_reach_L evs1) Ht) as [Htj _].
  pose proof (wf_pc _ (wf_reach_L evs1) r t j Ht) as Hinv.
  rewrite Htj, Hp in Hinv. destruct (Hinv Hj) as (Hst & _ & Herr & Hres).
  destruct (job_forward_L evs1 evs2 r j Hj) as (j2 & Hj2 & _ & _ & _ & _ & _ & Hfin).
  rewrite (Hfin t Ht) in Hj2 by (rewrite Hp; reflexivity).
  split; [assumption |]. split.
  - unfold shape in Hs. simpl in Hs. apply list_elem_of_In in Hs. simpl in Hs.
    destruct Hs as [Hs | []]. by symmetry.
  - by repeat split.
Qed.
End LeadsInvFacts.

Module NameFacts.
Import Text Py GMapsInv.

Lemma has_char_app c a b : has_char c (a +:+ b) = has_char c a || has_char c b.
Proof.
  induction a as [|d a IH]; simpl; [reflexivity |].
  rewrite IH. by rewrite orb_assoc.
Qed.

Lemma has_char_replace c old new s :
  has_char c (replace old new s)
  = (has_char c s && negb (Ascii.eqb c old)) || (has_char old s && has_char c new).
Proof.
  induction s as [|d s IH]; simpl; [reflexivity |].
  rewrite has_char_app, IH.
  destruct (Ascii.eqb d old) eqn:Hd.
  - apply Ascii.eqb_eq in Hd. subst d. simpl.
    destruct (Ascii.eqb old c) eqn:Hc.
    + apply Ascii.eqb_eq in Hc. subst c. rewrite Ascii.eqb_refl. simpl.
      destruct (has_char old new), (has_char old s); reflexivity.
    + rewrite (Ascii.eqb_sym c old), Hc. simpl.
      destruct (has_char c new), (has_char c s), (has_char old s); reflexivity.
  - simpl. rewrite orb_false_r.
    destruct (Ascii.eqb d c) eqn:Hc.
    + apply Ascii.eqb_eq in Hc. subst d. rewrite Hd. simpl. reflexivity.
    + simpl. reflexivity.
Qed.

(* which characters a sanitised name has *)
Lemma has_char_safe c s :
  has_char c (safe s)
  = negb (Ascii.eqb c ","%char)
    && ((has_char c s && negb (Ascii.eqb c " "%char))
        || (has_char " "%char s && Ascii.eqb c "_"%char)).
Proof.
  unfold safe. rewrite !has_char_replace.
  change (has_char c "_") with (Ascii.eqb "_"%char c || false).
  change (has_char c EmptyString) with false.
  rewrite (Ascii.eqb_sym "_"%char c).
  destruct (Ascii.eqb c ","%char), (Ascii.eqb c " "%char), (Ascii.eqb c "_"%char),
    (has_char c s), (has_char " "%char s), (has_char ","%char s); reflexivity.
Qed.

End NameFacts.

Module ScraperFacts.
Import Text Py Common Scraper.

Lemma NoDup_columns : NoDup fieldnames.
Proof. by apply (bool_decide_unpack _). Qed.

Lemma to_dict_row (b : business) :
  Csv.dict_to_list fieldnames (to_dict b) = Some (values b).
Proof.
  set (g := fun f : string =>
              default EmptyString ((to_dict b) !! f)).
  assert (Hd : to_dict b = list_to_map (map (fun f => (f, g f)) fieldnames)).
  { unfold g. apply map_eq. intros k. unfold to_dict. simpl.
    repeat (rewrite !lookup_insert; case_decide; [subst; reflexivity |]).
    reflexivity. }
  rewrite Hd at 1. rewrite (dict_to_list_comprehension fieldnames g NoDup_columns).
  reflexivity.
Qed.

Lemma get_to_dict (b : business) :
  map (fun f => default EmptyString (to_dict b !! f)) fieldnames = values b.
Proof.
  pose proof (to_dict_row b) as H. unfold Csv.dict_to_list in H.
  destruct (forallb _ _); [congruence | discriminate].
Qed.

(* cleaning (google_map_flask_api.py lines 77-86) changes nothing on what
   the scraper returns *)
Lemma cleaned_to_dict (b : business) : GMaps.cleaned_result (to_dict b) = to_dict b.
Proof. reflexivity. Qed.

Lemma name_to_dict (b : business) : GMaps.get_field (to_dict b) "name" = name b.
Proof. reflexivity. Qed.

(* ---- the scroll loop ---- *)

Lemma extract_business_data_spec c results :
  Forall named results ->
  Forall named (extract_business_data c results)
  /\ results `prefix_of` extract_business_data c results
  /\ (List.length (extract_business_data c results) <= S (List.length results))%nat.
Proof.
  intros H. destruct c as [data|]; simpl.
  - destruct (nonempty (name data)) eqn:Hn.
    + split; [| split].
      * apply Forall_app. split; [assumption |]. constructor; [| constructor].
        by apply nonempty_true.
      * by apply prefix_app_r.
      * rewrite length_app. simpl. lia.
    + repeat split; [assumption | reflexivity | lia].
  - repeat split; [assumption | reflexivity | lia].
Qed.

Lemma process_cards_spec max_results cs : forall results,
  Forall named results ->
  Forall named (process_cards max_results cs results)
  /\ results `prefix_of` process_cards max_results cs results
  /\ (List.length (process_cards max_results cs results)
      <= List.length results + List.length cs)%nat.
Proof.
  induction cs as [|c cs IH]; intros results H; simpl.
  - repeat split; [assumption | reflexivity | lia].
  - destruct (Z.of_nat (List.length results) >=? max_results).
    + repeat split; [assumption | reflexivity | lia].
    + destruct (extract_business_data_spec c results H) as (H1 & H2 & H3).
      destruct (IH _ H1) as (I1 & I2 & I3).
      split; [assumption |]. split; [by etrans | lia].
Qed.

Lemma cards_to_process_length max_results cs results :
  Z.of_nat (List.length results) < max_results ->
  Z.of_nat (List.length results
            + List.length (cards_to_process max_results cs results)) <= max_results.
Proof.
  intros H. unfold cards_to_process. rewrite length_take. lia.
Qed.

Lemma scroll_loop_spec rounds : forall max_results last idle results rs,
  scroll_loop rounds max_results last idle results = Some (Returns rs) ->
  Forall named results ->
  Forall named rs
  /\ results `prefix_of` rs
  /\ Z.of_nat (List.length rs) <= Z.max max_results (Z.of_nat (List.length results)).
Proof.
  induction rounds as [|r rounds IH]; intros max_results last idle results rs Hrun Hn.
  - simpl in Hrun. destruct (Z.of_nat (List.length results) <? max_results) eqn:Hlt;
      simpl in Hrun; [discriminate |].
    injection Hrun as <-. repeat split; [assumption | reflexivity | lia].
  - simpl in Hrun. destruct (Z.of_nat (List.length results) <? max_results) eqn:Hlt;
      simpl in Hrun.
    2:{ injection Hrun as <-. repeat split; [assumption | reflexivity | lia]. }
    apply Z.ltb_lt in Hlt.
    destruct (cards r) as [cs | e]; [| discriminate].
    destruct (process_cards_spec max_results
                (cards_to_process max_results cs results) results Hn)
      as (P1 & P2 & P3).
    pose proof (cards_to_process_length max_results cs results Hlt) as Hlen.
    set (results' := process_cards max_results
                       (cards_to_process max_results cs results) results) in *.
    destruct (Z.of_nat (List.length results') >=? max_results).
    { injection Hrun as <-. split; [assumption |]. split; [assumption | lia]. }
    destruct (_ >=? 5).
    { injection Hrun as <-. split; [assumption |]. split; [assumption | lia]. }
    destruct (scroll r); [discriminate |].
    destruct (IH _ _ _ _ _ Hrun P1) as (I1 & I2 & I3).
    split; [assumption |]. split; [by etrans | lia].
Qed.

(* with a calm driver the loop ends, whatever it has collected *)
Lemma scroll_loop_ends n rounds : forall max_results last idle results,
  Forall (calm n) rounds ->
  0 <= last <= Z.of_nat n -> 0 <= idle <= 4 ->
  6 * (Z.of_nat n - last) + (5 - idle) <= Z.of_nat (List.length rounds) ->
  exists rs, scroll_loop rounds max_results last idle results = Some (Returns rs).
Proof.
  induction rounds as [|r rounds IH]; intros max_results last idle results Hc Hl Hi Hm.
  - simpl in Hm. lia.
  - simpl. destruct (Z.of_nat (List.length results) <? max_results); simpl; [| eauto].
    apply Forall_cons in Hc as [(Hs & cs & Hcs & Hn) Hc]. rewrite Hcs, Hs.
    destruct (Z.of_nat (List.length (process_cards _ _ _)) >=? max_results); [eauto |].
    simpl List.length in Hm.
    destruct (Z.of_nat (List.length cs) >? last) eqn:Hgt.
    + simpl. apply IH; [assumption | lia | lia | lia].
    + destruct (idle + 1 >=? 5) eqn:H5; [eauto |].
      apply IH; [assumption | lia | lia | lia].
Qed.

(* ---- writing the file ---- *)



(* the call on a scraper that has collected nothing *)
Lemma scroll_hover_and_extract_spec panel rounds max_results results rs :
  Forall named results ->
  scroll_hover_and_extract panel rounds max_results results = Some (Returns rs) ->
  Forall named rs
  /\ results `prefix_of` rs
  /\ Z.of_nat (List.length rs) <= Z.max max_results (Z.of_nat (List.length results)).
Proof.
  intros Hn H. destruct panel as [e|]; [discriminate H |].
  by apply (scroll_loop_spec rounds max_results 0 0).
Qed.

Lemma process_cards_all_named max_results bs : forall results,
  Forall named bs ->
  process_cards max_results (map Some bs) results
  = results ++ take (Z.to_nat (max_results - Z.of_nat (List.length results))) bs.
Proof.
  induction bs as [|b bs IH]; intros results Hn.
  - simpl. by rewrite take_nil, app_nil_r.
  - inversion Hn as [|? ? Hb Hbs]; subst. cbn [map process_cards].
    destruct (Z.of_nat (List.length results) >=? max_results) eqn:Hc.
    + apply Z.geb_le in Hc.
      replace (Z.to_nat (max_results - Z.of_nat (List.length results))) with 0%nat by lia.
      by rewrite take_0, app_nil_r.
    + assert (Z.of_nat (List.length results) < max_results) as Hlt.
      { destruct (Z.geb_spec (Z.of_nat (List.length results)) max_results); [discriminate | lia]. }
      unfold extract_business_data.
      assert (nonempty (name b) = true) as ->.
      { apply nonempty_true. exact Hb. }
      rewrite IH by assumption. rewrite length_app. simpl List.length.
      replace (Z.to_nat (max_results - Z.of_nat (List.length results)))
        with (S (Z.to_nat (max_results - Z.of_nat (List.length results + 1)))) by lia.
      simpl. by rewrite <- app_assoc.
Qed.

Lemma steady_round max_results bs m :
  Forall named bs -> (m <= Z.to_nat max_results)%nat ->
  process_cards max_results
    (cards_to_process max_results (map Some bs) (take m bs)) (take m bs)
  = take (Nat.min (m + 5) (Z.to_nat max_results)) bs.
Proof.
  intros Hn Hm. unfold cards_to_process.
  rewrite skipn_map, firstn_map.
  rewrite process_cards_all_named by (apply Forall_take, Forall_drop, Hn).
  rewrite take_take, length_take.
  destruct (Nat.le_gt_cases m (List.length bs)) as [Hle | Hgt].
  - rewrite (Nat.min_l m) by lia. rewrite take_take_drop. f_equal. lia.
  - rewrite drop_ge by lia. rewrite take_nil, app_nil_r.
    rewrite !take_ge; [reflexivity | lia | lia].
Qed.

(* the loop on a page that has shown its cards and shows no more: every
   round takes the next five, five rounds at most *)
Lemma steady_loop max_results bs rounds : forall (i m : nat),
  Forall named bs -> Forall (steady bs) rounds ->
  (i <= 4)%nat -> (5 - i <= List.length rounds)%nat ->
  (m <= Z.to_nat max_results)%nat ->
  scroll_loop rounds max_results (Z.of_nat (List.length bs)) (Z.of_nat i) (take m bs)
  = Some (Returns (take (Nat.min (m + 5 * (5 - i)) (Z.to_nat max_results)) bs)).
Proof.
  induction rounds as [|r rounds IH]; intros i m Hn Hs Hi Hlen Hm.
  - simpl in Hlen. lia.
  - inversion Hs as [|? ? [Hc Hsc] Hs']; subst.
    cbn [scroll_loop]. rewrite Hc, Hsc. rewrite length_map.
    rewrite steady_round by assumption.
    rewrite !length_take.
    destruct (Z.ltb_spec (Z.of_nat (Nat.min m (List.length bs))) max_results) as [Hlt | Hge];
      cbn [negb].
    + replace (Z.of_nat (List.length bs) >? Z.of_nat (List.length bs)) with false
        by (symmetry; rewrite Z.gtb_ltb; apply Z.ltb_ge; lia).
      destruct (Z.geb_spec
                  (Z.of_nat (Nat.min (Nat.min (m + 5) (Z.to_nat max_results)) (List.length bs)))
                  max_results) as [Hfull | Hnot].
      * do 2 f_equal. f_equal. lia.
      * destruct (Z.geb_spec (Z.of_nat i + 1) 5) as [Hidle | Hmore].
        -- do 2 f_equal. f_equal. lia.
        -- replace (Z.of_nat i + 1) with (Z.of_nat (S i)) by lia.
           rewrite IH; [| assumption | assumption | lia | simpl in Hlen; lia | lia].
           do 2 f_equal. f_equal. lia.
    + do 2 f_equal.
      destruct (Nat.le_gt_cases (List.length bs) m).
      * rewrite !take_ge; [reflexivity | lia | lia].
      * f_equal. lia.
Qed.

Lemma steady_page max_results bs rounds :
  Forall named bs -> Forall (steady bs) rounds -> (6 <= List.length rounds)%nat ->
  scroll_hover_and_extract None rounds max_results []
  = Some (Returns (take (Z.to_nat (Z.min max_results 30)) bs)).
Proof.
  intros Hn Hs Hlen. unfold scroll_hover_and_extract.
  destruct bs as [|b bs].
  - change (@nil business) with (take 0 (@nil business)) at 1.
    change 0 with (Z.of_nat (List.length (@nil business))) at 1.
    change 0 with (Z.of_nat 0) at 1.
    rewrite steady_loop; [| assumption | assumption | lia | lia | lia].
    by rewrite !take_nil.
  - destruct rounds as [|r rounds]; [simpl in Hlen; lia |].
    inversion Hs as [|? ? [Hc Hsc] Hs']; subst.
    cbn [scroll_loop]. rewrite Hc, Hsc. rewrite length_map.
    change (@nil business) with (take 0 (b :: bs)).
    rewrite steady_round by (assumption || lia).
    rewrite !length_take.
    destruct (Z.ltb_spec (Z.of_nat (Nat.min 0 (List.length (b :: bs)))) max_results)
      as [Hlt | Hge]; cbn [negb].
    + replace (Z.of_nat (List.length (b :: bs)) >? 0) with true
        by (symmetry; rewrite Z.gtb_ltb; apply Z.ltb_lt; simpl; lia).
      destruct (Z.geb_spec
                  (Z.of_nat (Nat.min (Nat.min (0 + 5) (Z.to_nat max_results))
                               (List.length (b :: bs))))
                  max_results) as [Hfull | Hnot].
      * do 2 f_equal. f_equal. lia.
      * cbn [Z.geb Z.compare].
        change 0 with (Z.of_nat 0) at 1.
        rewrite steady_loop; [| assumption | assumption | lia | simpl in Hlen; lia | lia].
        do 2 f_equal. f_equal. lia.
    + do 2 f_equal. rewrite take_0. replace (Z.to_nat (Z.min max_results 30)) with 0%nat; [reflexivity|].
      simpl in Hge. lia.
Qed.
End ScraperFacts.

Module ExtractorFacts.
Import Text Py Common Extractor.

(* ---- the loop of extract_leads ---- *)









(* ---- what extract_leads raises ---- *)



Lemma strs_from_ok l : forall i,
  Forall (fun v => exists s, v = JStr s) l -> exists ss, strs_from i l = inr ss.
Proof.
  induction l as [|v l IH]; intros i H; [simpl; eauto |].
  apply Forall_cons in H as [[s ->] H]. simpl.
  destruct (IH (S i) H) as [ss ->]. eauto.
Qed.


Lemma extract_leads_exit city industries max_results overpass scrape today :
  Forall (fun v => exists s, v = JStr s) (as_list industries) ->
  city ∉ HARDCODED_BBOX ->
  extract_leads city industries max_results false overpass scrape today
  = Raises (mkExn false ("No fallback bbox available for " +:+ city
                         +:+ ". Please add it to HARDCODED_BBOX.")).
Proof.
  intros H Hc. destruct (strs_from_ok _ 0%nat H) as [ss Hss].
  unfold extract_leads, get_bbox_for_city. rewrite Hss.
  by rewrite bool_decide_eq_false_2.
Qed.

(* ---- the estimates ---- *)

Lemma first_match_in {A : Type} (table : list (string * A)) text v :
  first_match table text = Some v -> In v (map snd table).
Proof.
  induction table as [|[k w] table IH]; simpl; [discriminate |].
  destruct (contains k text); [intros [= ->]; by left | intros H; right; auto].
Qed.

Lemma first_match_none {A : Type} (table : list (string * A)) text :
  first_match table text = None <->
  forall k, In k (map fst table) -> contains k text = false.
Proof.
  induction table as [|[k w] table IH]; simpl.
  - split; [intros _ k [] | reflexivity].
  - destruct (contains k text) eqn:Hk.
    + split; [discriminate |]. intros H. rewrite (H k) in Hk by (by left).
      discriminate.
    + rewrite IH. split.
      * intros H k' [<- | Hk']; [assumption | by apply H].
      * intros H k' Hk'. apply H. by right.
Qed.

Lemma first_industry_in table text v :
  first_industry table text = Some v -> In v (map fst table).
Proof.
  induction table as [|[k w] table IH]; simpl; [discriminate |].
  destruct (existsb _ w); [intros [= ->]; by left | intros H; right; auto].
Qed.

Lemma estimate_revenue_range name tags :
  In (estimate_revenue name tags) revenue_ranges.
Proof.
  unfold estimate_revenue.
  destruct (nonempty name); simpl negb; cbv iota; [| by left].
  destruct (first_match REVENUE_INDICATORS (lower name)) as [v|] eqn:Hm.
  - apply first_match_in in Hm. simpl in Hm. unfold revenue_ranges. simpl.
    intuition (subst; auto 10).
  - unfold revenue_ranges.
    repeat (match goal with |- context [if ?b then _ else _] => destruct b end);
      simpl; auto 10.
Qed.

(* a word in the name settles the estimate, whatever the tags are *)
Lemma estimate_revenue_by_name name tags1 tags2 :
  existsb (fun w => contains w (lower name)) revenue_words = true ->
  name <> EmptyString ->
  estimate_revenue name tags1 = estimate_revenue name tags2
  /\ estimate_revenue name tags1 <> "Undisclosed".
Proof.
  intros Hw Hn. apply nonempty_true in Hn. unfold estimate_revenue. rewrite Hn.
  simpl negb. cbv iota.
  destruct (first_match REVENUE_INDICATORS (lower name)) as [v|] eqn:Hm.
  - split; [reflexivity |]. apply first_match_in in Hm. simpl in Hm.
    intuition (subst; discriminate).
  - pose proof (proj1 (first_match_none _ _) Hm) as Hnone. simpl in Hnone.
    unfold revenue_words in Hw. cbn [existsb] in Hw.
    rewrite (Hnone "enterprise"), (Hnone "corporation"), (Hnone "inc"),
      (Hnone "llc"), (Hnone "ltd"), (Hnone "co") in Hw by tauto.
    simpl orb in Hw. cbn [existsb].
    rewrite (Hnone "enterprise"), (Hnone "corporation") by tauto. simpl orb.
    destruct (contains "international" (lower name)); simpl; [by split |].
    destruct (contains "global" (lower name)); simpl; [by split |].
    destruct (contains "holdings" (lower name)); simpl; [by split |].
    discriminate Hw.
Qed.

(* without such a word the tags decide *)
Lemma estimate_revenue_by_tags name tags :
  existsb (fun w => contains w (lower name)) revenue_words = false ->
  name <> EmptyString ->
  estimate_revenue name tags
  = if String.eqb (tag tags "office") "company" then "$10M-25M"
    else if String.eqb (tag tags "office") "business" then "$5M-10M"
    else if nonempty (tag tags "website") || nonempty (tag tags "contact:website")
    then "$1M-5M" else "Undisclosed".
Proof.
  intros Hw Hn. apply nonempty_true in Hn. unfold estimate_revenue. rewrite Hn.
  simpl negb. cbv iota.
  unfold revenue_words in Hw. cbn [existsb] in Hw.
  repeat (apply orb_false_elim in Hw as [? Hw]).
  assert (first_match REVENUE_INDICATORS (lower name) = None) as ->.
  { apply first_match_none. simpl. intuition (subst; assumption). }
  cbn [existsb].
  repeat match goal with H : contains _ _ = false |- _ => rewrite H; clear H end.
  reflexivity.
Qed.

Lemma determine_industry_range name tags :
  In (determine_industry name tags) industry_names.
Proof.
  unfold determine_industry, industry_names.
  destruct (nonempty name); simpl negb; cbv iota; [| apply in_or_app; right; by left].
  destruct (first_industry INDUSTRY_KEYWORDS (lower name)) as [v|] eqn:Hm.
  - apply in_or_app. left. by apply first_industry_in in Hm.
  - repeat (match goal with |- context [if ?b then _ else _] => destruct b end);
      simpl; auto 20.
Qed.

(* a keyword of the first industry in the name decides, whatever the tags *)
Lemma determine_industry_first name tags kw :
  In kw ["software"; "tech"; "technology"; "app"; "saas"; "it"; "digital"; "cyber";
         "development"; "developer"; "programming"; "coding"; "startup"; "innovation"] ->
  contains kw (lower name) = true -> name <> EmptyString ->
  determine_industry name tags = "Technology & Software".
Proof.
  intros Hk Hc Hn. apply nonempty_true in Hn. unfold determine_industry. rewrite Hn.
  simpl negb. cbv iota.
  assert (first_industry INDUSTRY_KEYWORDS (lower name) = Some "Technology & Software")
    as ->; [| reflexivity].
  unfold INDUSTRY_KEYWORDS. cbn [first_industry].
  assert (existsb (fun keyword => contains (lower keyword) (lower name))
            ["software"; "tech"; "technology"; "app"; "saas"; "it"; "digital"; "cyber";
             "development"; "developer"; "programming"; "coding"; "startup";
             "innovation"] = true) as ->; [| reflexivity].
  apply existsb_exists. exists kw. split; [assumption |].
  simpl in Hk. intuition (subst; exact Hc).
Qed.

(* ---- the two ways to a CSV file ---- *)






End ExtractorFacts.

(* --------------------------------------------------------------------- *)
(* Further properties of the code.                                         *)
(* --------------------------------------------------------------------- *)

Import Scenario2.

(** X1.  In both wrappers, along every history, the progress of a job
    object is always one of the values the thread assigns (0, 10, 20, 40,
    90, 100 for the scraper; 0, 10, 20, 90, 100 for the extractor); it
    never goes down as long as the job has not failed; and a completed job
    shows 90 or 100. *)
Theorem X1_progress_checkpoints :
  (forall evs1 evs2 r j1,
     GMaps.heap (GMaps.run GMaps.init evs1) !! r = Some j1 ->
     exists j2,
       GMaps.heap (GMaps.run GMaps.init (evs1 ++ evs2)) !! r = Some j2
       /\ GMaps.progress j2 ∈ GMapsInv.checkpoints
       /\ (GMaps.status j2 <> failed -> GMaps.progress j1 <= GMaps.progress j2)
       /\ (GMaps.status j2 = completed -> 90 <= GMaps.progress j2))
  /\ (forall evs1 evs2 r j1,
     Leads.heap (Leads.run Leads.init evs1) !! r = Some j1 ->
     exists j2,
       Leads.heap (Leads.run Leads.init (evs1 ++ evs2)) !! r = Some j2
       /\ Leads.progress j2 ∈ LeadsInv.checkpoints
       /\ (Leads.status j2 <> failed -> Leads.progress j1 <= Leads.progress j2)
       /\ (Leads.status j2 = completed -> 90 <= Leads.progress j2)).
Proof.
  split.
  - apply GMapsInvFacts.progress_history.
  - apply LeadsInvFacts.progress_history_L.
Qed.

Lemma X1_witness :
  (exists j2,
     GMaps.heap (GMaps.run GMaps.init (gm_started ++ quiet 3)) !! 0%nat = Some j2
     /\ (GMaps.status j2 <> failed -> 10 <= GMaps.progress j2))
  /\ (exists j2,
     Leads.heap (Leads.run Leads.init (ld_started ++ Scenario.calm 3)) !! 0%nat = Some j2
     /\ (Leads.status j2 <> failed -> 10 <= Leads.progress j2)).
Proof.
  split.
  - destruct (proj1 X1_progress_checkpoints gm_started (quiet 3) 0%nat
                (GMaps.set_progress 10 (GMaps.set_status running gm_job)))
      as (j2 & H1 & _ & H2 & _).
    + vm_compute. reflexivity.
    + exists j2. split; assumption.
  - destruct (proj2 X1_progress_checkpoints ld_started (Scenario.calm 3) 0%nat
                (Leads.set_progress 10 (Leads.set_status running ld_job)))
      as (j2 & H1 & _ & H2 & _).
    + vm_compute. reflexivity.
    + exists j2. split; assumption.
Defined.

(** X2.  In both wrappers, along every history, what a job was created
    with (its id, its parameters, created_at) never changes; the results of
    a completed job never change; and a job that is pending or failed has
    no results. *)
Theorem X2_parameters_and_results_are_kept :
  (forall evs1 evs2 r j1,
     GMaps.heap (GMaps.run GMaps.init evs1) !! r = Some j1 ->
     exists j2,
       GMaps.heap (GMaps.run GMaps.init (evs1 ++ evs2)) !! r = Some j2
       /\ GMapsInv.parameters j2 = GMapsInv.parameters j1
       /\ (GMaps.status j1 = completed -> GMaps.results j2 = GMaps.results j1)
       /\ (GMaps.status j2 = pending \/ GMaps.status j2 = failed ->
           GMaps.results j2 = []))
  /\ (forall evs1 evs2 r j1,
     Leads.heap (Leads.run Leads.init evs1) !! r = Some j1 ->
     exists j2,
       Leads.heap (Leads.run Leads.init (evs1 ++ evs2)) !! r = Some j2
       /\ LeadsInv.parameters j2 = LeadsInv.parameters j1
       /\ (Leads.status j1 = completed -> Leads.results j2 = Leads.results j1)
       /\ (Leads.status j2 = pending \/ Leads.status j2 = failed ->
           Leads.results j2 = [])).
Proof.
  split.
  - apply GMapsInvFacts.frozen_history.
  - apply LeadsInvFacts.frozen_history_L.
Qed.

Lemma X2_witness :
  (exists j2,
     GMaps.heap (GMaps.run GMaps.init (gm_started ++ gm_then_fails)) !! 0%nat = Some j2
     /\ GMapsInv.parameters j2 = GMapsInv.parameters gm_job)
  /\ (exists j2,
     Leads.heap (Leads.run Leads.init (ld_started ++ ld_then_fails)) !! 0%nat = Some j2
     /\ LeadsInv.parameters j2 = LeadsInv.parameters ld_job).
Proof.
  split.
  - destruct (proj1 X2_parameters_and_results_are_kept gm_started gm_then_fails 0%nat
                (GMaps.set_progress 10 (GMaps.set_status running gm_job)))
      as (j2 & H1 & H2 & _).
    + vm_compute. reflexivity.
    + exists j2. split; assumption.
  - destruct (proj2 X2_parameters_and_results_are_kept ld_started ld_then_fails 0%nat
                (Leads.set_progress 10 (Leads.set_status running ld_job)))
      as (j2 & H1 & H2 & _).
    + vm_compute. reflexivity.
    + exists j2. split; assumption.
Defined.

(** X3.  In both wrappers, while the thread of a job stands between
    job.status = 'completed' and job.completed_at = datetime.now() (the
    status is already completed, completed_at is still None), the status
    endpoint fails on completed_at.isoformat() and answers 500, while the
    results endpoint already answers 200. *)
Theorem X3_status_fails_before_completed_at :
  (forall evs r t j,
     GMaps.threads (GMaps.run GMaps.init evs) !! r = Some t ->
     GMaps.heap (GMaps.run GMaps.init evs) !! r = Some j ->
     GMaps.t_pc t = GMaps.L91 \/ GMaps.t_pc t = GMaps.L92 ->
     GMaps.scraping_jobs (GMaps.run GMaps.init evs) !! GMaps.job_id j = Some r ->
     GMaps.get_job_status (GMaps.run GMaps.init evs) (GMaps.job_id j)
     = GMaps.mkResponse 500 GMaps.Unhandled
     /\ GMaps.code (GMaps.get_results (GMaps.run GMaps.init evs) (GMaps.job_id j)) = 200)
  /\ (forall evs r t j,
     Leads.threads (Leads.run Leads.init evs) !! r = Some t ->
     Leads.heap (Leads.run Leads.init evs) !! r = Some j ->
     Leads.t_pc t = Leads.L58 \/ Leads.t_pc t = Leads.L59 ->
     Leads.extraction_jobs (Leads.run Leads.init evs) !! Leads.job_id j = Some r ->
     Leads.get_job_status (Leads.run Leads.init evs) (Leads.job_id j)
     = Leads.mkResponse 500 Leads.Unhandled
     /\ Leads.code (Leads.get_results (Leads.run Leads.init evs) (Leads.job_id j)) = 200).
Proof.
  split.
  - apply GMapsInvFacts.status_window.
  - apply LeadsInvFacts.status_window_L.
Qed.

Lemma X3_witness :
  GMaps.code (GMaps.get_job_status (GMaps.run GMaps.init gm_window) "job-1") = 500
  /\ Leads.code (Leads.get_job_status (Leads.run Leads.init ld_window) "job-1") = 500.
Proof.
  split.
  - destruct (proj1 X3_status_fails_before_completed_at gm_window 0%nat
                (GMaps.mkThread 0 GMaps.L91)
                (default gm_job (GMaps.heap (GMaps.run GMaps.init gm_window) !! 0%nat)))
      as [H _].
    + vm_compute. reflexivity.
    + vm_compute. reflexivity.
    + left. reflexivity.
    + vm_compute. reflexivity.
    + change (GMaps.get_job_status (GMaps.run GMaps.init gm_window) "job-1"
              = GMaps.mkResponse 500 GMaps.Unhandled) in H.
      rewrite H. reflexivity.
  - destruct (proj2 X3_status_fails_before_completed_at ld_window 0%nat
                (Leads.mkThread 0 Leads.L58)
                (default ld_job (Leads.heap (Leads.run Leads.init ld_window) !! 0%nat)))
      as [H _].
    + vm_compute. reflexivity.
    + vm_compute. reflexivity.
    + left. reflexivity.
    + vm_compute. reflexivity.
    + change (Leads.get_job_status (Leads.run Leads.init ld_window) "job-1"
              = Leads.mkResponse 500 Leads.Unhandled) in H.
      rewrite H. reflexivity.
Defined.

(** X4.  In the Google Maps wrapper, every record a job object ever holds
    in job.results has exactly the eight fields name, rating, category,
    address, phone, website, email, linkedin, so the row download_csv
    builds from it on line 283 is the record itself. *)
Theorem X4_stored_records_have_the_eight_fields :
  forall evs r j rec,
    GMaps.heap (GMaps.run GMaps.init evs) !! r = Some j ->
    In rec (GMaps.results j) ->
    (forall k, is_Some (rec !! k) <-> k ∈ GMaps.fieldnames)
    /\ GMaps.csv_row rec = rec.
Proof. apply GMapsInvFacts.stored_fields. Qed.

Lemma X4_witness :
  GMaps.csv_row (GMaps.cleaned_result corner) = GMaps.cleaned_result corner.
Proof.
  destruct (X4_stored_records_have_the_eight_fields gm_completed 0%nat
              (default gm_job (GMaps.heap (GMaps.run GMaps.init gm_completed) !! 0%nat))
              (GMaps.cleaned_result corner)) as [_ H].
  - vm_compute. reflexivity.
  - replace (GMaps.results _) with (map GMaps.cleaned_result [blue_door; corner])
      by (vm_compute; reflexivity).
    right. left. reflexivity.
  - exact H.
Defined.

(** X5.  In both wrappers, along every history, a job object has an
    error_message only if its status is failed; and a failed job whose
    thread has ended has one. *)
Theorem X5_error_message_only_on_failed :
  (forall evs r j,
     GMaps.heap (GMaps.run GMaps.init evs) !! r = Some j ->
     (is_Some (GMaps.error_message j) -> GMaps.status j = failed)
     /\ exists t, GMaps.threads (GMaps.run GMaps.init evs) !! r = Some t
          /\ (GMaps.finished (GMaps.t_pc t) = true -> GMaps.status j = failed ->
              is_Some (GMaps.error_message j)))
  /\ (forall evs r j,
     Leads.heap (Leads.run Leads.init evs) !! r = Some j ->
     (is_Some (Leads.error_message j) -> Leads.status j = failed)
     /\ exists t, Leads.threads (Leads.run Leads.init evs) !! r = Some t
          /\ (Leads.finished (Leads.t_pc t) = true -> Leads.status j = failed ->
              is_Some (Leads.error_message j))).
Proof.
  split.
  - apply GMapsInvFacts.error_message_inv.
  - apply LeadsInvFacts.error_message_inv_L.
Qed.

Lemma X5_witness :
  (is_Some (GMaps.error_message
              (default gm_job (GMaps.heap (GMaps.run GMaps.init gm_failed) !! 0%nat))) ->
   GMaps.status (default gm_job (GMaps.heap (GMaps.run GMaps.init gm_failed) !! 0%nat))
   = failed)
  /\ (is_Some (Leads.error_message
              (default ld_job (Leads.heap (Leads.run Leads.init ld_failed) !! 0%nat))) ->
   Leads.status (default ld_job (Leads.heap (Leads.run Leads.init ld_failed) !! 0%nat))
   = failed).
Proof.
  split.
  - destruct (proj1 X5_error_message_only_on_failed gm_failed 0%nat
                (default gm_job (GMaps.heap (GMaps.run GMaps.init gm_failed) !! 0%nat)))
      as [H _].
    + vm_compute. reflexivity.
    + exact H.
  - destruct (proj2 X5_error_message_only_on_failed ld_failed 0%nat
                (default ld_job (Leads.heap (Leads.run Leads.init ld_failed) !! 0%nat)))
      as [H _].
    + vm_compute. reflexivity.
    + exact H.
Defined.

(** X6.  The names of the downloads, in both wrappers: the name is the
    prefix, the location and the business type (the city) with every blank
    turned into an underscore and every comma dropped, the clock and .csv.
    The part made from a parameter holds no blank and no comma; it holds an
    underscore exactly if the parameter held an underscore or a blank; every
    other character is in it exactly if it is in the parameter (so a slash
    or a dot of the parameter stays). *)
Theorem X6_download_names :
  (forall job ts,
     GMaps.download_name job ts
     = "gmaps_businesses_" +:+ GMapsInv.safe (GMaps.location job) +:+ "_"
         +:+ GMapsInv.safe (GMaps.business_type job) +:+ "_" +:+ ts +:+ ".csv")
  /\ (forall job ts,
     Leads.download_name job ts
     = "business_leads_" +:+ GMapsInv.safe (Leads.city job) +:+ "_" +:+ ts +:+ ".csv")
  /\ (forall s,
     GMapsInv.has_char " "%char (GMapsInv.safe s) = false
     /\ GMapsInv.has_char ","%char (GMapsInv.safe s) = false
     /\ GMapsInv.has_char "_"%char (GMapsInv.safe s)
        = GMapsInv.has_char "_"%char s || GMapsInv.has_char " "%char s
     /\ forall c, c <> " "%char -> c <> ","%char -> c <> "_"%char ->
          GMapsInv.has_char c (GMapsInv.safe s) = GMapsInv.has_char c s).
Proof.
  split; [reflexivity |]. split; [reflexivity |].
  intros s. repeat split.
  - rewrite NameFacts.has_char_safe. simpl. by rewrite andb_false_r.
  - by rewrite NameFacts.has_char_safe.
  - rewrite NameFacts.has_char_safe. simpl. by rewrite andb_true_r, andb_true_r.
  - intros c H1 H2 H3. rewrite NameFacts.has_char_safe.
    apply Ascii.eqb_neq in H1, H2, H3. rewrite H1, H2, H3. simpl.
    by rewrite andb_true_r, andb_false_r, orb_false_r.
Qed.

Lemma X6_witness :
  GMapsInv.has_char "/"%char (GMapsInv.safe "a /b") = true.
Proof.
  rewrite (proj2 (proj2 (proj2 (proj2 (proj2 X6_download_names) "a /b"))) "/"%char).
  - reflexivity.
  - discriminate.
  - discriminate.
  - discriminate.
Defined.

(** X7.  google_map_business.py, scroll_hover_and_extract: whatever the
    page shows, when the call returns the list of businesses, every
    business in it has a name, what the scraper had collected before is its
    beginning, and it holds at most max_results businesses (or as many as
    were collected before, if that was more). *)
Theorem X7_scroll_keeps_named_and_capped :
  forall panel rounds max_results results rs,
    Forall Scraper.named results ->
    Scraper.scroll_hover_and_extract panel rounds max_results results
    = Some (Returns rs) ->
    Forall Scraper.named rs
    /\ results `prefix_of` rs
    /\ Z.of_nat (List.length rs) <= Z.max max_results (Z.of_nat (List.length results)).
Proof.
  intros panel rounds max_results results rs.
  apply ScraperFacts.scroll_hover_and_extract_spec.
Qed.

Lemma X7_witness :
  Forall Scraper.named [blue; corner_shop; corner_shop]
  /\ Z.of_nat (List.length [blue; corner_shop; corner_shop]) <= Z.max 10 0.
Proof.
  destruct (X7_scroll_keeps_named_and_capped None (replicate 6 three_cards) 10 []
              [blue; corner_shop; corner_shop]) as (H1 & _ & H2).
  - constructor.
  - vm_compute. reflexivity.
  - split; [exact H1 | exact H2].
Defined.

(** X8.  The loop of _scroll_and_load_results ends: with a driver that
    raises nothing and never shows more than n cards, the call returns
    within 6 n + 5 rounds of the loop, whatever max_results is. *)
Theorem X8_scroll_ends :
  forall (n : nat) rounds max_results results,
    Forall (Scraper.calm n) rounds ->
    (6 * n + 5 <= List.length rounds)%nat ->
    exists rs,
      Scraper.scroll_hover_and_extract None rounds max_results results
      = Some (Returns rs).
Proof.
  intros n rounds max_results results Hc Hlen.
  apply (ScraperFacts.scroll_loop_ends n); [assumption | lia | lia | lia].
Qed.

Lemma X8_witness :
  exists rs,
    Scraper.scroll_hover_and_extract None (replicate 23 three_cards) 1000 []
    = Some (Returns rs).
Proof.
  apply (X8_scroll_ends 3).
  - apply Forall_replicate. split; [reflexivity |].
    eexists. split; [reflexivity |]. simpl. lia.
  - rewrite length_replicate. lia.
Defined.

(** X9.  On a page that shows the same cards in every round, each with a
    name, scroll_hover_and_extract returns the first max_results of them in
    the order of the page, and never more than 30: five cards are taken per
    round and the loop gives up after five rounds without new cards. *)
Theorem X9_steady_page_gives_the_first_thirty :
  forall max_results bs rounds,
    Forall Scraper.named bs ->
    Forall (Scraper.steady bs) rounds ->
    (6 <= List.length rounds)%nat ->
    Scraper.scroll_hover_and_extract None rounds max_results []
    = Some (Returns (take (Z.to_nat (Z.min max_results 30)) bs)).
Proof. apply ScraperFacts.steady_page. Qed.

Lemma X9_witness :
  Scraper.scroll_hover_and_extract None
    (replicate 6 (Scraper.mkRound (Returns [Some blue; Some corner_shop]) None)) 1 []
  = Some (Returns [blue]).
Proof.
  apply (X9_steady_page_gives_the_first_thirty 1 [blue; corner_shop]).
  - repeat constructor; discriminate.
  - apply Forall_replicate. split; reflexivity.
  - rewrite length_replicate. lia.
Defined.

(** X10.  The two files together: when the scraper is built, the search
    runs and scroll_hover_and_extract returns businesses for the job's
    max_results, run_scraping_job ends with the job completed at progress
    100, completed_at set, and job.results the dicts of exactly these
    businesses in their order (the cleaning on lines 75-87 changes nothing),
    so at most max_results records, each with a name. *)
Theorem X10_scraped_businesses_are_the_results :
  forall panel rounds ctor search now job bs,
    Scraper.scroll_hover_and_extract panel rounds (GMaps.max_results job) []
    = Some (Returns bs) ->
    GMaps.first_raise ctor search (Returns (map Scraper.to_dict bs)) = None ->
    exists job',
      GMaps.run_scraping_job ctor search (Returns (map Scraper.to_dict bs)) now job
      = (GMaps.Done, job')
      /\ GMaps.status job' = completed /\ GMaps.progress job' = 100
      /\ GMaps.completed_at job' = Some now
      /\ GMaps.results job' = map Scraper.to_dict bs
      /\ Z.of_nat (List.length (GMaps.results job')) <= Z.max 0 (GMaps.max_results job)
      /\ Forall (fun r => GMaps.get_field r "name" <> EmptyString) (GMaps.results job').
Proof.
  intros panel rounds ctor search now job bs Hs Hr.
  destruct (ScraperFacts.scroll_hover_and_extract_spec panel rounds
              (GMaps.max_results job) [] bs (Forall_nil_2 _) Hs) as (Hn & _ & Hlen).
  simpl in Hlen.
  rewrite (GMapsFacts.run_success _ _ _ _ _ Hr). eexists. split; [reflexivity |].
  cbn [GMaps.status GMaps.progress GMaps.completed_at GMaps.results].
  assert (map GMaps.cleaned_result (map Scraper.to_dict bs) = map Scraper.to_dict bs) as ->.
  { rewrite map_map. apply map_ext. intros b. apply ScraperFacts.cleaned_to_dict. }
  repeat split.
  - rewrite length_map. lia.
  - apply Forall_map. eapply Forall_impl; [exact Hn |].
    intros b Hb. rewrite ScraperFacts.name_to_dict. exact Hb.
Qed.

Lemma X10_witness :
  exists job',
    GMaps.run_scraping_job (Returns []) (Returns [])
      (Returns (map Scraper.to_dict [blue; corner_shop; corner_shop])) 200 gm_job
    = (GMaps.Done, job')
    /\ GMaps.results job' = map Scraper.to_dict [blue; corner_shop; corner_shop].
Proof.
  destruct (X10_scraped_businesses_are_the_results None (replicate 6 three_cards)
              (Returns []) (Returns []) 200 gm_job [blue; corner_shop; corner_shop])
    as (job' & H1 & _ & _ & _ & H2 & _).
  - vm_compute. reflexivity.
  - reflexivity.
  - exists job'. split; assumption.
Defined.







(** X14.  The two files together: when Nominatim does not place the city
    and the city is not in HARDCODED_BBOX, extract_leads raises SystemExit
    (the industries being strings), which "except Exception" in
    run_extraction does not catch: the thread ends with the job left
    running at progress 20, without results or error_message.  And in every
    history a job whose thread ended this way stays exactly so for ever: it
    never becomes completed or failed. *)
Theorem X14_system_exit_leaves_the_job_running :
  (forall job overpass scrape today now,
     Forall (fun v => exists s, v = JStr s) (Extractor.as_list (Leads.industries job)) ->
     Leads.city job ∉ Extractor.HARDCODED_BBOX ->
     exists e,
       Extractor.for_job
         (Extractor.extract_leads (Leads.city job) (Leads.industries job)
            (Leads.max_results job) false overpass scrape today)
       = Raises e
       /\ is_Exception e = false
       /\ Leads.run_extraction (Raises e) now job
          = (Leads.Died e, Leads.set_progress 20 (Leads.set_status running job)))
  /\ (forall evs1 evs2 r t j e,
     Leads.threads (Leads.run Leads.init evs1) !! r = Some t ->
     Leads.t_pc t = Leads.Died e ->
     Leads.heap (Leads.run Leads.init evs1) !! r = Some j ->
     Leads.status j = running /\ Leads.progress j = 20 /\ Leads.results j = []
     /\ Leads.error_message j = None
     /\ Leads.heap (Leads.run Leads.init (evs1 ++ evs2)) !! r = Some j).
Proof.
  split.
  - intros job overpass scrape today now Hstr Hcity.
    rewrite (ExtractorFacts.extract_leads_exit _ _ _ _ _ _ Hstr Hcity).
    eexists. split; [reflexivity |]. split; [reflexivity |].
    by apply LeadsFacts.run_uncaught_L.
  - apply LeadsInvFacts.died_job_L.
Qed.

Lemma X14_witness :
  (exists e,
     Leads.run_extraction (Raises e) 200 ld_job
     = (Leads.Died e, Leads.set_progress 20 (Leads.set_status running ld_job)))
  /\ Leads.heap (Leads.run Leads.init (ld_exit ++ Scenario.calm 5)) !! 0%nat
     = Some (Leads.set_progress 20 (Leads.set_status running ld_job)).
Proof.
  split.
  - destruct (proj1 X14_system_exit_leaves_the_job_running ld_job [] one_email
                "2024-01-01" 200) as (e & _ & _ & H).
    + repeat constructor. by eexists.
    + vm_compute. intros H. inversion H as [|? ? ? H1]; subst.
      repeat (inversion H1 as [|? ? ? H2]; subst; clear H1; rename H2 into H1).
    + exists e. exact H.
  - apply (proj2 X14_system_exit_leaves_the_job_running ld_exit (Scenario.calm 5) 0%nat
             (Leads.mkThread 0 (Leads.Died sys_exit)) _ sys_exit).
    + vm_compute. reflexivity.
    + reflexivity.
    + vm_compute. reflexivity.
Defined.



(** X16.  estimate_revenue gives one of six values.  For a name that
    holds one of the words enterprise, corporation, inc, llc, ltd, co,
    international, global, holdings (as a part of the name, whatever the
    case) the tags play no part and the value is never Undisclosed; for
    any other name the tags decide: office=company, then office=business,
    then a website, else Undisclosed. *)
Theorem X16_estimate_revenue :
  (forall name tags, In (Extractor.estimate_revenue name tags) Extractor.revenue_ranges)
  /\ (forall name tags1 tags2,
     existsb (fun w => Extractor.contains w (Extractor.lower name))
       Extractor.revenue_words = true ->
     name <> EmptyString ->
     Extractor.estimate_revenue name tags1 = Extractor.estimate_revenue name tags2
     /\ Extractor.estimate_revenue name tags1 <> "Undisclosed")
  /\ (forall name tags,
     existsb (fun w => Extractor.contains w (Extractor.lower name))
       Extractor.revenue_words = false ->
     name <> EmptyString ->
     Extractor.estimate_revenue name tags
     = if String.eqb (Extractor.tag tags "office") "company" then "$10M-25M"
       else if String.eqb (Extractor.tag tags "office") "business" then "$5M-10M"
       else if Text.nonempty (Extractor.tag tags "website")
               || Text.nonempty (Extractor.tag tags "contact:website")
       then "$1M-5M" else "Undisclosed").
Proof.
  split; [apply ExtractorFacts.estimate_revenue_range |].
  split; [apply ExtractorFacts.estimate_revenue_by_name
         | apply ExtractorFacts.estimate_revenue_by_tags].
Qed.

Lemma X16_witness :
  Extractor.estimate_revenue "Acme Holdings" acme_tags
  = Extractor.estimate_revenue "Acme Holdings" ∅
  /\ Extractor.estimate_revenue "Corner Bakery" ∅ = "$1M-5M".
Proof.
  split.
  - apply (proj1 (proj2 X16_estimate_revenue) "Acme Holdings" acme_tags ∅).
    + vm_compute. reflexivity.
    + discriminate.
  - destruct (proj1 (proj2 X16_estimate_revenue) "Corner Bakery" ∅ ∅) as [_ H].
    + vm_compute. reflexivity.
    + discriminate.
    + vm_compute. reflexivity.
Defined.

(** X17.  determine_industry gives one of the industries GET
    /api/industries lists, or Other.  The name is searched first, by
    parts of words and in the order of INDUSTRY_KEYWORDS: a name that holds
    any keyword of the first industry (for instance the letters it) is
    Technology & Software, whatever its tags say. *)
Theorem X17_determine_industry :
  (forall name tags,
     In (Extractor.determine_industry name tags)
        (Extractor.get_industries ++ ["Other"]))
  /\ (forall name tags kw,
     In kw ["software"; "tech"; "technology"; "app"; "saas"; "it"; "digital"; "cyber";
            "development"; "developer"; "programming"; "coding"; "startup";
            "innovation"] ->
     Extractor.contains kw (Extractor.lower name) = true ->
     name <> EmptyString ->
     Extractor.determine_industry name tags = "Technology & Software").
Proof.
  split.
  - apply ExtractorFacts.determine_industry_range.
  - apply ExtractorFacts.determine_industry_first.
Qed.

Lemma X17_witness :
  Extractor.determine_industry "Fitness First" fitness_tags = "Technology & Software".
Proof.
  apply (proj2 X17_determine_industry "Fitness First" fitness_tags "it").
  - do 5 right. left. reflexivity.
  - vm_compute. reflexivity.
  - discriminate.
Defined.


